(** * STAC Browser, [src/utils.js]: a shallow embedding and its properties

    The module [Utils] of the browser is a library of stateless helpers over
    JavaScript values: link lookup, URL normalisation on top of URI.js,
    query-string construction, token search and deep merge.  This file
    embeds the functions in Rocq and proves (or refutes) the properties
    stated about them.

    Conventions of the embedding:
    - a JavaScript string is a [string] of bytes (its UTF-8 encoding);
    - a JavaScript value is a tree ([value]): an object is an association
      list of its own properties in enumeration order, with unique keys,
      and no object is shared between two places of a value;
    - code that can raise an exception returns an [outcome];
    - in-place updates of an object are written as functions that return
      the updated object. *)

From Stdlib Require Import ZArith Ascii String SpecFloat DecimalString.
From stdpp Require Import base option list strings gmap.

Local Open Scope string_scope.
#[local] Set Warnings "-register-all".

(** ** Exceptions *)

Inductive exn : Type := Error | TypeError | URIError | RangeError.

Inductive outcome (A : Type) : Type :=
| Ret (a : A)
| Throw (e : exn).
Arguments Ret {A} a.
Arguments Throw {A} e.

#[global] Instance outcome_ret : MRet outcome := fun _ a => Ret a.
#[global] Instance outcome_bind : MBind outcome := fun _ _ f m =>
  match m with Ret a => f a | Throw e => Throw e end.
#[global] Instance outcome_fmap : FMap outcome := fun _ _ f m =>
  match m with Ret a => Ret (f a) | Throw e => Throw e end.

Definition returns {A} (m : outcome A) : bool :=
  match m with Ret _ => true | Throw _ => false end.

(** [try { m } catch (error) { d }] *)
Definition try_catch {A} (m : outcome A) (d : A) : A :=
  match m with Ret a => a | Throw _ => d end.

(** ** Strings *)

Module Str.

Definition startsWith (s p : string) : bool := String.prefix p s.

Fixpoint includes (s needle : string) : bool :=
  String.prefix needle s ||
  match s with
  | EmptyString => false
  | String _ s' => includes s' needle
  end.

Definition endsWith (s p : string) : bool :=
  let n := String.length s in
  let m := String.length p in
  (m <=? n)%nat && String.eqb (String.substring (n - m) m s) p.

Definition drop (n : nat) (s : string) : string :=
  String.substring n (String.length s - n) s.

Definition lower_ascii (c : ascii) : ascii :=
  let n := nat_of_ascii c in
  if ((65 <=? n) && (n <=? 90))%nat then ascii_of_nat (n + 32) else c.

(** [String.prototype.toLowerCase] on a string of ASCII characters; the
    bytes of other characters are kept, where JavaScript would change
    the letters among them. *)
Fixpoint toLowerCase (s : string) : string :=
  match s with
  | EmptyString => EmptyString
  | String c s' => String (lower_ascii c) (toLowerCase s')
  end.

(** [Array.prototype.join] on strings. *)
Definition join (sep : string) (l : list string) : string :=
  String.concat sep l.

Definition is_empty (s : string) : bool :=
  match s with EmptyString => true | _ => false end.

Definition take (n : nat) (s : string) : string := String.substring 0 n s.

(** [s.indexOf(c)] for a single character. *)
Fixpoint indexOf (c : ascii) (s : string) : option nat :=
  match s with
  | EmptyString => None
  | String d s' => if Ascii.eqb c d then Some 0 else S <$> indexOf c s'
  end.

(** [s.lastIndexOf(c)] *)
Fixpoint lastIndexOf (c : ascii) (s : string) : option nat :=
  match s with
  | EmptyString => None
  | String d s' =>
      match lastIndexOf c s' with
      | Some i => Some (S i)
      | None => if Ascii.eqb c d then Some 0 else None
      end
  end.

(** [s.split(c)] for a single character. *)
Fixpoint split (sep : ascii) (s : string) : list string :=
  match s with
  | EmptyString => [EmptyString]
  | String c s' =>
      if Ascii.eqb c sep then EmptyString :: split sep s'
      else match split sep s' with
           | piece :: pieces => String c piece :: pieces
           | [] => [String c EmptyString]
           end
  end.

Fixpoint map (f : ascii -> ascii) (s : string) : string :=
  match s with
  | EmptyString => EmptyString
  | String c s' => String (f c) (map f s')
  end.

Fixpoint filter (f : ascii -> bool) (s : string) : string :=
  match s with
  | EmptyString => EmptyString
  | String c s' => if f c then String c (filter f s') else filter f s'
  end.

Fixpoint dropWhile (f : ascii -> bool) (s : string) : string :=
  match s with
  | EmptyString => EmptyString
  | String c s' => if f c then dropWhile f s' else s
  end.

Fixpoint forall_chars (f : ascii -> bool) (s : string) : bool :=
  match s with
  | EmptyString => true
  | String c s' => f c && forall_chars f s'
  end.

Fixpoint flat_map (f : ascii -> string) (s : string) : string :=
  match s with
  | EmptyString => EmptyString
  | String c s' => f c ++ flat_map f s'
  end.

Definition head (s : string) : option ascii :=
  match s with EmptyString => None | String c _ => Some c end.

Definition in_range (lo hi : nat) (c : ascii) : bool :=
  let n := nat_of_ascii c in ((lo <=? n) && (n <=? hi))%nat.

Definition is_alpha (c : ascii) : bool := in_range 65 90 c || in_range 97 122 c.
Definition is_digit (c : ascii) : bool := in_range 48 57 c.
Definition is_alnum (c : ascii) : bool := is_alpha c || is_digit c.

Definition one_of (chars : string) (c : ascii) : bool :=
  match indexOf c chars with Some _ => true | None => false end.

(** [s.substring(a, b)]: both ends are clamped to the string and
    swapped when they come in the wrong order. *)
Definition substring (a b : Z) (s : string) : string :=
  let n := Z.of_nat (String.length s) in
  let a := Z.max 0 (Z.min a n) in
  let b := Z.max 0 (Z.min b n) in
  let lo := Z.min a b in
  let hi := Z.max a b in
  String.substring (Z.to_nat lo) (Z.to_nat (hi - lo)) s.

(** [s.indexOf(c)] as a number, [-1] when absent. *)
Definition indexOfZ (c : ascii) (s : string) : Z :=
  match indexOf c s with Some i => Z.of_nat i | None => (-1)%Z end.

(** [s.indexOf(c, from)] *)
Definition indexOfFrom (c : ascii) (from : Z) (s : string) : Z :=
  let from := Z.to_nat (Z.max 0 from) in
  match indexOf c (drop from s) with
  | Some i => Z.of_nat (from + i)
  | None => (-1)%Z
  end.

(** [s.replace(/\\/g, '/')] *)
Definition slashes (s : string) : string :=
  map (fun c => if Ascii.eqb c "\" then "/"%char else c) s.

(** Length in bytes of a white-space character ([\s]) at the head of
    the string, if there is one. *)
Definition white_space (s : string) : option nat :=
  match s with
  | String c rest =>
      let n := nat_of_ascii c in
      if ((9 <=? n) && (n <=? 13) || (n =? 32))%nat then Some 1
      else match n, rest with
           | 194, String d _ => if (nat_of_ascii d =? 160)%nat then Some 2 else None
           | 225, String d (String e _) =>
               if ((nat_of_ascii d =? 154) && (nat_of_ascii e =? 128))%nat
               then Some 3 else None
           | 226, String d (String e _) =>
               let x := nat_of_ascii d in
               let y := nat_of_ascii e in
               if ((x =? 128) && ((128 <=? y) && (y <=? 138) || (y =? 168)
                                  || (y =? 169) || (y =? 175)))%nat then Some 3
               else if ((x =? 129) && (y =? 159))%nat then Some 3
               else None
           | 227, String d (String e _) =>
               if ((nat_of_ascii d =? 128) && (nat_of_ascii e =? 128))%nat
               then Some 3 else None
           | 239, String d (String e _) =>
               if ((nat_of_ascii d =? 187) && (nat_of_ascii e =? 191))%nat
               then Some 3 else None
           | _, _ => None
           end
  | EmptyString => None
  end.


End Str.

(** The decimal numeral of a natural number. *)
Definition decimal (n : Z) : string :=
  NilZero.string_of_uint (N.to_uint (Z.to_N n)).

(** ** Percent-encoding, as [encodeURIComponent] and [decodeURIComponent]
    act on the UTF-8 bytes of a string *)

Module Pct.

Definition hex_digit (n : N) : ascii :=
  ascii_of_N (if (n <? 10)%N then 48 + n else 55 + n).

Definition hex_value (c : ascii) : option N :=
  let n := N_of_ascii c in
  if Str.is_digit c then Some (n - 48)%N
  else if Str.in_range 65 70 c then Some (n - 55)%N
  else if Str.in_range 97 102 c then Some (n - 87)%N
  else None.

(** ["%XY"] for a byte. *)
Definition escape (c : ascii) : string :=
  let n := N_of_ascii c in
  String "%" (String (hex_digit (n / 16)) (String (hex_digit (n mod 16)) EmptyString)).

Definition hex_byte (x y : ascii) : option ascii :=
  match hex_value x, hex_value y with
  | Some a, Some b => Some (ascii_of_N (16 * a + b))
  | _, _ => None
  end.

(** Number of leading one bits of a byte that is not ASCII. *)
Definition leading_ones (c : ascii) : nat :=
  let n := nat_of_ascii c in
  if (n <? 192)%nat then 1
  else if (n <? 224)%nat then 2
  else if (n <? 240)%nat then 3
  else if (n <? 248)%nat then 4
  else 5.

Definition is_continuation (c : ascii) : bool := Str.in_range 128 191 c.

(** The octets are the UTF-8 encoding of one code point that is not
    ASCII: no overlong form, no surrogate, nothing above U+10FFFF. *)
Definition utf8_code_point (octets : list ascii) : bool :=
  match octets with
  | [a; b] => Str.in_range 194 223 a && is_continuation b
  | [a; b; c] =>
      let x := nat_of_ascii a in
      Str.in_range 224 239 a && is_continuation b && is_continuation c
      && (if (x =? 224)%nat then Str.in_range 160 191 b
          else if (x =? 237)%nat then Str.in_range 128 159 b else true)
  | [a; b; c; d] =>
      let x := nat_of_ascii a in
      Str.in_range 240 244 a && is_continuation b && is_continuation c
      && is_continuation d
      && (if (x =? 240)%nat then Str.in_range 144 191 b
          else if (x =? 244)%nat then Str.in_range 128 143 b else true)
  | _ => false
  end.

(** The string is well-formed UTF-8: it stands for a JavaScript string
    without lone surrogates. *)
Fixpoint utf8 (s : string) : bool :=
  match s with
  | EmptyString => true
  | String a s1 =>
      if (nat_of_ascii a <? 128)%nat then utf8 s1
      else
        match s1 with
        | String b s2 =>
            if utf8_code_point [a; b] then utf8 s2
            else match s2 with
                 | String c s3 =>
                     if utf8_code_point [a; b; c] then utf8 s3
                     else match s3 with
                          | String d s4 => utf8_code_point [a; b; c; d] && utf8 s4
                          | EmptyString => false
                          end
                 | EmptyString => false
                 end
        | EmptyString => false
        end
  end.

(** Characters that [encodeURIComponent] leaves alone and that URI.js
    does not escape afterwards ([!'()*] are escaped by [URI.encode]). *)
Definition unreserved (c : ascii) : bool :=
  Str.is_alnum c || Str.one_of "-_.~" c.

(** [URI.encode]: the strict [encodeURIComponent]. *)
Definition encode (s : string) : string :=
  Str.flat_map (fun c => if unreserved c then String c EmptyString else escape c) s.

(** [decodeURIComponent]: [pending] holds the octets of a multi-byte
    sequence read so far and [need] counts the escapes still to come. *)
Fixpoint decode_from (s : string) (pending : list ascii) (need : nat)
    : outcome string :=
  match s with
  | EmptyString =>
      match need with O => Ret EmptyString | S _ => Throw URIError end
  | String c s1 =>
      if Ascii.eqb c "%" then
        match s1 with
        | String x (String y rest) =>
            match hex_byte x y with
            | None => Throw URIError
            | Some b =>
                match need with
                | O =>
                    if (nat_of_ascii b <? 128)%nat then
                      r ← decode_from rest [] 0; Ret (String b r)
                    else
                      match leading_ones b with
                      | 2 => decode_from rest [b] 1
                      | 3 => decode_from rest [b] 2
                      | 4 => decode_from rest [b] 3
                      | _ => Throw URIError
                      end
                | S k =>
                    if is_continuation b then
                      match k with
                      | O =>
                          if utf8_code_point (pending ++ [b]) then
                            r ← decode_from rest [] 0;
                            Ret (string_of_list_ascii (pending ++ [b]) ++ r)
                          else Throw URIError
                      | S _ => decode_from rest (pending ++ [b]) k
                      end
                    else Throw URIError
                end
            end
        | _ => Throw URIError
        end
      else
        match need with
        | O => r ← decode_from s1 [] 0; Ret (String c r)
        | S _ => Throw URIError
        end
  end.

(** [URI.decode] *)
Definition decode (s : string) : outcome string := decode_from s [] 0.

End Pct.

(** ** [Number(string)]

    What [Number(v)] gives for a string, as far as a range test on an
    integer looks at it.  Between white space the string is a binary, an
    octal or a hexadecimal integer ([0b], [0o], [0x]), or a decimal
    numeral with an optional sign, fraction and exponent; anything else
    is [NaN].  The value of the numeral is rounded to the nearest
    binary64 number, ties to even. *)

Module Numeric.

(** [s.trimStart()] and [s.trimEnd()]: white space and line ends;
    [skip] counts the bytes of the current character still to pass. *)
Fixpoint trim_start (s : string) (skip : nat) : string :=
  match s with
  | EmptyString => EmptyString
  | String _ s' =>
      match skip with
      | S k => trim_start s' k
      | O => match Str.white_space s with
             | Some (S k) => trim_start s' k
             | _ => s
             end
      end
  end.

Fixpoint blank (s : string) (skip : nat) : bool :=
  match s with
  | EmptyString => true
  | String _ s' =>
      match skip with
      | S k => blank s' k
      | O => match Str.white_space s with
             | Some (S k) => blank s' k
             | _ => false
             end
      end
  end.

Fixpoint trim_end (s : string) : string :=
  match s with
  | EmptyString => EmptyString
  | String c s' => if blank s 0 then EmptyString else String c (trim_end s')
  end.

Definition trim (s : string) : string := trim_end (trim_start s 0).

(** The value of a run of digits of the base, read after [acc]. *)
Fixpoint digits_value (base acc : N) (s : string) : option N :=
  match s with
  | EmptyString => Some acc
  | String c s' =>
      match Pct.hex_value c with
      | Some d =>
          if (d <? base)%N then digits_value base (base * acc + d)%N s'
          else None
      | None => None
      end
  end.

(** One digit or more. *)
Definition numeral (base : N) (s : string) : option N :=
  if Str.is_empty s then None else digits_value base 0 s.

(** The position of the first [e] or [E]. *)
Fixpoint exponent_mark (s : string) : option nat :=
  match s with
  | EmptyString => None
  | String c s' =>
      if Ascii.eqb c "e" || Ascii.eqb c "E" then Some 0
      else S <$> exponent_mark s'
  end.

(** [ExponentPart] behind its mark: an optional sign and digits. *)
Definition exponent (s : string) : option Z :=
  match s with
  | String "+" s' => Z.of_N <$> numeral 10 s'
  | String "-" s' => (fun n => (- Z.of_N n)%Z) <$> numeral 10 s'
  | _ => Z.of_N <$> numeral 10 s
  end.

(** An unsigned decimal literal [digits], [digits.], [digits.digits] or
    [.digits], with an optional exponent: the pair [(m, e)] stands for
    the value [m * 10^e]. *)
Definition decimal_literal (s : string) : option (N * Z) :=
  let '(mantissa, e) :=
    match exponent_mark s with
    | Some pos => (Str.take pos s, exponent (Str.drop (S pos) s))
    | None => (s, Some 0%Z)
    end in
  e ← e;
  match Str.indexOf "." mantissa with
  | None => m ← numeral 10 mantissa; Some (m, e)
  | Some pos =>
      let int_digits := Str.take pos mantissa in
      let fraction := Str.drop (S pos) mantissa in
      m ← numeral 10 (int_digits ++ fraction);
      Some (m, (e - Z.of_nat (String.length fraction))%Z)
  end.

Definition is_port (n : N) : bool := (0 <? n)%N && (n <? 65536)%N.

(** Whether the binary64 number nearest to [m * 10^e] is an integer
    between 1 and 65535.  Such an integer [n], with [2^k <= n < 2^(k+1)],
    is the nearest number of every real from [n - 2^(k-53)] (from
    [n - 2^(k-54)] when [n = 2^k]) to [n + 2^(k-53)], the bounds
    included since the significand of [n] is even; the test is made on
    integers, everything multiplied by [2^54] and by the denominator. *)
Definition rounds_to_port (m : N) (e : Z) : bool :=
  if (m =? 0)%N then false
  else if (0 <=? e)%Z then
    (e <? 5)%Z && is_port (m * 10 ^ Z.to_N e)
  else
    let d := (10 ^ Z.to_N (- e))%N in
    let n := ((2 * m + d) / (2 * d))%N in
    let k := N.log2 n in
    let above := (2 ^ (k + 1))%N in
    let below := if (n =? 2 ^ k)%N then (2 ^ k)%N else (2 ^ (k + 1))%N in
    is_port n
    && ((n * 2 ^ 54 - below) * d <=? m * 2 ^ 54)%N
    && (m * 2 ^ 54 <=? (n * 2 ^ 54 + above) * d)%N.

(** [Number(v)] is an integer, greater than 0 and less than 65536. *)
Definition port_number (v : string) : bool :=
  let s := trim v in
  let radix base digits :=
    match numeral base digits with
    | Some n => is_port n
    | None => false
    end in
  let decimal digits :=
    match decimal_literal digits with
    | Some (m, e) => rounds_to_port m e
    | None => false
    end in
  match s with
  | String "0" (String "x" digits) | String "0" (String "X" digits) =>
      radix 16%N digits
  | String "0" (String "o" digits) | String "0" (String "O" digits) =>
      radix 8%N digits
  | String "0" (String "b" digits) | String "0" (String "B" digits) =>
      radix 2%N digits
  | String "-" _ => false
  | String "+" digits => decimal digits
  | _ => decimal s
  end.

End Numeric.

(** ** JavaScript values *)

Definition number := spec_float.

(** The internal slot of an object: a plain record, or a [Date] with its
    time value (milliseconds since the epoch, [None] for an invalid date). *)
Inductive objkind : Type :=
| Plain
| DateObj (t : option Z).

Inductive value : Type :=
| VUndefined
| VNull
| VBool (b : bool)
| VNum (n : number)
| VStr (s : string)
| VArr (items : list value)
| VObj (kind : objkind) (props : list (string * value)).

Abbreviation props := (list (string * value)).
Abbreviation obj ps := (VObj Plain ps).

(** Integer literals as binary64 numbers. *)
Definition num (z : Z) : number := binary_normalize 53 1024 z 0 false.

Definition is_nan (n : number) : bool :=
  match n with S754_nan => true | _ => false end.
Definition is_zero (n : number) : bool :=
  match n with S754_zero _ => true | _ => false end.

(** [Number.isFinite] *)
Definition isFinite (n : number) : bool :=
  match n with S754_zero _ | S754_finite _ _ _ => true | _ => false end.

(** [ToBoolean] *)
Definition truthy (v : value) : bool :=
  match v with
  | VUndefined | VNull => false
  | VBool b => b
  | VNum n => negb (is_zero n) && negb (is_nan n)
  | VStr s => negb (Str.is_empty s)
  | VArr _ | VObj _ _ => true
  end.

Definition isArray (v : value) : bool :=
  match v with VArr _ => true | _ => false end.

Definition is_undefined (v : value) : bool :=
  match v with VUndefined => true | _ => false end.

Definition is_null (v : value) : bool :=
  match v with VNull => true | _ => false end.

Definition is_string (v : value) : bool :=
  match v with VStr _ => true | _ => false end.

(** [typeof v === 'object'] *)
Definition typeof_object (v : value) : bool :=
  match v with VNull | VArr _ | VObj _ _ => true | _ => false end.

(** [v instanceof Date] *)
Definition is_date (v : value) : bool :=
  match v with VObj (DateObj _) _ => true | _ => false end.

(** [a === b].  Numbers compare as IEEE-754 values; two arrays or two
    objects of the tree model stand for two allocations, hence differ. *)
Definition strict_eq (a b : value) : bool :=
  match a, b with
  | VUndefined, VUndefined | VNull, VNull => true
  | VBool x, VBool y => Bool.eqb x y
  | VNum x, VNum y => SFeqb x y
  | VStr x, VStr y => String.eqb x y
  | _, _ => false
  end.

(** *** Properties of objects, in enumeration order *)

Module Obj.

Fixpoint lookup (k : string) (ps : props) : option value :=
  match ps with
  | [] => None
  | (k', v) :: ps' => if String.eqb k k' then Some v else lookup k ps'
  end.

Definition has (k : string) (ps : props) : bool :=
  match lookup k ps with Some _ => true | None => false end.

Definition keys (ps : props) : list string := ps.*1.
Definition values (ps : props) : list value := ps.*2.

Definition wf (ps : props) : Prop := NoDup (keys ps).

Definition is_digit (c : ascii) : bool :=
  let n := nat_of_ascii c in ((48 <=? n) && (n <=? 57))%nat.

Fixpoint digits_value (acc : N) (s : string) : option N :=
  match s with
  | EmptyString => Some acc
  | String c s' =>
      if is_digit c
      then digits_value (10 * acc + (N_of_ascii c - 48))%N s'
      else None
  end.

(** An array index: a canonical decimal numeral below [2^32 - 1].
    Such keys are enumerated first, in ascending order. *)
Definition array_index (k : string) : option N :=
  match k with
  | EmptyString => None
  | String "0" EmptyString => Some 0%N
  | String "0" _ => None
  | _ => match digits_value 0 k with
         | Some n => if (n <? 4294967295)%N then Some n else None
         | None => None
         end
  end.

Definition comes_before (k k' : string) : bool :=
  match array_index k, array_index k' with
  | Some i, Some j => (i <? j)%N
  | Some _, None => true
  | None, _ => false
  end.

Fixpoint replace (k : string) (v : value) (ps : props) : props :=
  match ps with
  | [] => []
  | (k', v') :: ps' =>
      if String.eqb k k' then (k, v) :: ps' else (k', v') :: replace k v ps'
  end.

Fixpoint add_new (k : string) (v : value) (ps : props) : props :=
  match ps with
  | [] => [(k, v)]
  | (k', v') :: ps' =>
      if comes_before k k' then (k, v) :: ps
      else (k', v') :: add_new k v ps'
  end.

(** [o[k] = v]: an existing property keeps its place, a new one is
    created at the place its key has in the enumeration order. *)
Definition set (k : string) (v : value) (ps : props) : props :=
  if has k ps then replace k v ps else add_new k v ps.

(** The object that [o[k]] refers to is updated in place by [f], when
    [f] has a result. *)
Fixpoint update (f : value -> option value) (k : string) (ps : props)
    : option props :=
  match ps with
  | [] => Some []
  | (k', v') :: ps' =>
      if String.eqb k k' then v ← f v'; Some ((k', v) :: ps')
      else ps' ← update f k ps'; Some ((k', v') :: ps')
  end.

(** [delete o[k]] *)
Fixpoint remove (k : string) (ps : props) : props :=
  match ps with
  | [] => []
  | (k', v') :: ps' =>
      if String.eqb k k' then remove k ps' else (k', v') :: remove k ps'
  end.

(** [Object.assign(target, source)] on own enumerable properties. *)
Definition assign (target source : props) : props :=
  fold_left (fun t kv => set kv.1 kv.2 t) source target.

End Obj.

(** [o[k]] for a value that is not [null] or [undefined]; only the own
    properties of objects are looked at. *)
Definition get (o : value) (k : string) : value :=
  match o with
  | VObj _ ps => default VUndefined (Obj.lookup k ps)
  | _ => VUndefined
  end.

(** ** [Utils]: type predicates *)

(** [typeof obj === 'object' && obj === Object(obj) && !Array.isArray(obj)] *)
Definition isObject (v : value) : bool :=
  match v with VObj _ _ => true | _ => false end.

Definition size (v : value) : nat :=
  match v with
  | VArr l => length l
  | VObj _ ps => length (Obj.keys ps)
  | _ => 0
  end.

(** [typeof string === 'string' && string.length > 0] *)
Definition hasText (v : value) : bool :=
  match v with VStr s => negb (Str.is_empty s) | _ => false end.

(** ** Link selection *)

Definition link_has_rel (rel link : value) : bool :=
  isObject link && hasText (get link "href") && strict_eq (get link "rel") rel.

(** [Array.isArray(links) ? links.find(...) : null]; [find] gives
    [undefined] when no entry passes. *)
Definition getLinkWithRel (links rel : value) : value :=
  match links with
  | VArr l => default VUndefined (List.find (link_has_rel rel) l)
  | _ => VNull
  end.

(** The entries the lookup considers: objects with a non-empty string
    [href] whose [rel] is the string asked for. *)
Definition well_formed_link_with_rel (r : string) (x : value) : Prop :=
  exists k ps h, x = VObj k ps /\ Obj.lookup "href" ps = Some (VStr h) /\
                 h <> "" /\ Obj.lookup "rel" ps = Some (VStr r).

(** ** Token search *)

Module Regex.

(** The separator pattern of [search] is written
    [/[\s.,;!&({[)}]]+/g].  A character class ends at its first [']'];
    the pattern is therefore the class [[\s.,;!&({[)}]] followed by one
    or more literal [']'] characters. *)

Definition punct (c : ascii) : bool :=
  match c with
  | "." | "," | ";" | "!" | "&" | "(" | "{" | "[" | ")" | "}" => true
  | _ => false
  end%char.

(** Length of a character of the class [[\s.,;!&({[)}]] at the head. *)
Definition class_char (s : string) : option nat :=
  match s with
  | String c _ => if punct c then Some 1 else Str.white_space s
  | EmptyString => None
  end.

Fixpoint closing_brackets (s : string) : nat :=
  match s with
  | String "]" s' => S (closing_brackets s')
  | _ => 0
  end.

(** Length of the match of the pattern at the head of the string. *)
Definition splitChars (s : string) : option nat :=
  match class_char s with
  | Some n =>
      match closing_brackets (Str.drop n s) with
      | O => None
      | S k => Some (n + S k)
      end
  | None => None
  end.

(** Left-to-right scan for the matches of a pattern that never matches
    the empty string: [cur] is the piece being read, in reverse, and
    [skip] the number of characters of the current match still to pass. *)
Fixpoint scan (re : string -> option nat) (s : string) (skip : nat)
    (cur : list ascii) : list string :=
  match s with
  | EmptyString => [string_of_list_ascii (rev cur)]
  | String c s' =>
      match skip with
      | S k => scan re s' k cur
      | O =>
          match re s with
          | Some (S k) => string_of_list_ascii (rev cur) :: scan re s' k []
          | _ => scan re s' 0 (c :: cur)
          end
      end
  end.

(** [s.split(re)] *)
Definition split (re : string -> option nat) (s : string) : list string :=
  scan re s 0 [].

(** [s.replace(re, by)] for a global pattern without groups. *)
Definition replace (re : string -> option nat) (by_ : string) (s : string) : string :=
  Str.join by_ (split re s).

End Regex.

Definition string_items (items : list value) : list string :=
  omap (fun v => match v with VStr s => Some s | _ => None end) items.

Definition search (searchterm target : value) (and : bool) : bool :=
  match searchterm with
  | VStr term =>
      if Str.is_empty term then false
      else
        let target :=
          match target with
          | VObj _ ps => VArr (Obj.values ps)
          | VStr s => VArr [VStr s]
          | _ => target
          end in
        match target with
        | VArr items =>
            let searchterm := Regex.split Regex.splitChars (Str.toLowerCase term) in
            let target :=
              Str.toLowerCase
                (Regex.replace Regex.splitChars " "
                   (Str.join " " (string_items items))) in
            if and
            then forallb (fun term => Str.includes target term) searchterm
            else existsb (fun term => Str.includes target term) searchterm
        | _ => false
        end
  | _ => false
  end.

(** ** The host environment

    Conversions that the language leaves to the implementation or that
    depend on the time zone of the machine. *)

Record Host : Type := {
  (** [Number.prototype.toString] *)
  number_toString : number -> string;
  (** [Date.prototype.toString], in local time *)
  date_toString : option Z -> string;
  (** [Date.prototype.toISOString] of a valid time value *)
  date_toISOString : Z -> string
}.

Section ToString.

Context (host : Host).

(** [String(v)], also written [v + ''].  [Array.prototype.join] prints
    [null] and [undefined] items as the empty string. *)
Fixpoint ToString (v : value) : string :=
  match v with
  | VUndefined => "undefined"
  | VNull => "null"
  | VBool true => "true"
  | VBool false => "false"
  | VNum n => number_toString host n
  | VStr s => s
  | VArr items =>
      Str.join ","
        ((fix items_toString (l : list value) : list string :=
            match l with
            | [] => []
            | VUndefined :: l' => "" :: items_toString l'
            | VNull :: l' => "" :: items_toString l'
            | x :: l' => ToString x :: items_toString l'
            end) items)
  | VObj Plain _ => "[object Object]"
  | VObj (DateObj t) _ => date_toString host t
  end.

Definition join_item (v : value) : string :=
  match v with
  | VUndefined | VNull => ""
  | _ => ToString v
  end.

(** [items.join(sep)] *)
Definition join (sep : string) (items : list value) : string :=
  Str.join sep (List.map join_item items).

(** [value.join(sep)] where [value] is known to be an array *)
Definition join_array (sep : string) (v : value) : string :=
  match v with
  | VArr items => join sep items
  | _ => ""
  end.

End ToString.

(** ** URI.js

    A model of the part of URI.js (1.19) that [Utils] calls.  A URI
    instance is the record of its parts; its string is rebuilt from them
    on demand ([build]).  Not modelled: construction from a parts object
    or a DOM node, Punycode conversion of internationalised host names and
    the shortening of IPv6 literals in [normalizeHostname]. *)

Module URI.

Record parts : Type := Parts {
  protocol : option string;
  username : option string;
  password : option string;
  hostname : option string;
  urn : bool;
  port : option string;
  path : string;
  query : option string;
  fragment : option string
}.

Definition empty : parts :=
  Parts None None None None false None "" None None.

Definition set_path (v : string) (u : parts) : parts :=
  Parts (protocol u) (username u) (password u) (hostname u) (urn u)
        (port u) v (query u) (fragment u).
Definition set_query (v : option string) (u : parts) : parts :=
  Parts (protocol u) (username u) (password u) (hostname u) (urn u)
        (port u) (path u) v (fragment u).
Definition set_fragment (v : option string) (u : parts) : parts :=
  Parts (protocol u) (username u) (password u) (hostname u) (urn u)
        (port u) (path u) (query u) v.
Definition set_protocol (v : option string) (u : parts) : parts :=
  Parts v (username u) (password u) (hostname u) (urn u)
        (port u) (path u) (query u) (fragment u).
Definition set_hostname (v : option string) (u : parts) : parts :=
  Parts (protocol u) (username u) (password u) v (urn u)
        (port u) (path u) (query u) (fragment u).
Definition set_port (v : option string) (u : parts) : parts :=
  Parts (protocol u) (username u) (password u) (hostname u) (urn u)
        v (path u) (query u) (fragment u).

(** [s || null] *)
Definition or_null (s : string) : option string :=
  if Str.is_empty s then None else Some s.

(** A part is truthy when it is a non-empty string. *)
Definition present (p : option string) : bool :=
  match p with Some s => negb (Str.is_empty s) | None => false end.

Definition text (p : option string) : string := default "" p.

(** *** Parsing *)

(** [URI.leading_whitespace_expression]: the leading run of control
    characters, spaces and Unicode white space. *)
Fixpoint strip_leading_whitespace (s : string) (skip : nat) : string :=
  match s with
  | EmptyString => EmptyString
  | String c s' =>
      match skip with
      | S k => strip_leading_whitespace s' k
      | O =>
          if (nat_of_ascii c <=? 32)%nat then strip_leading_whitespace s' 0
          else match Str.white_space s with
               | Some (S k) => strip_leading_whitespace s' k
               | _ => s
               end
      end
  end.

(** [/[\u0009\u000A\u000D]+/g] *)
Definition ascii_tab_whitespace (c : ascii) : bool :=
  let n := nat_of_ascii c in ((n =? 9) || (n =? 10) || (n =? 13))%nat.

Definition is_slash (c : ascii) : bool := Ascii.eqb c "/" || Ascii.eqb c "\".
Definition is_colon (c : ascii) : bool := Ascii.eqb c ":".

(** The group of [/^(https?|ftp|wss?)?:+[/\\]*/i] when the pattern
    matches: one of the web protocols followed by a colon, or nothing
    in front of a leading colon. *)
Definition web_protocol (s : string) : option string :=
  let followed_by_colon p :=
    let n := String.length p in
    String.eqb (Str.toLowerCase (Str.take n s)) p
    && String.eqb (String.substring n 1 s) ":" in
  match List.find followed_by_colon ["https"; "http"; "ftp"; "wss"; "ws"] with
  | Some p => Some (Str.take (String.length p) s)
  | None => if Str.startsWith s ":" then Some "" else None
  end.

(** [string.replace(/^(https?|ftp|wss?)?:+[/\\]*/i, '$1://')] *)
Definition fix_web_protocol (s : string) : string :=
  match web_protocol s with
  | Some p =>
      p ++ "://"
        ++ Str.dropWhile is_slash
             (Str.dropWhile is_colon (Str.drop (String.length p) s))
  | None => s
  end.

(** [string.replace(/^[/\\]{2,}/i, '//')] *)
Definition fix_leading_slashes (s : string) : string :=
  match s with
  | String a (String b _) =>
      if is_slash a && is_slash b then "//" ++ Str.dropWhile is_slash s else s
  | _ => s
  end.

(** [/^[a-z][a-z0-9.+-]*$/i] *)
Definition protocol_expression (s : string) : bool :=
  match s with
  | EmptyString => false
  | String c s' =>
      Str.is_alpha c
      && Str.forall_chars (fun c => Str.is_alnum c || Str.one_of ".+-" c) s'
  end.

(** [URI.ensureValidPort] does not throw: [v] is falsy, or [Number(v)] is
    an integer between 1 and 65535. *)
Definition valid_port (v : string) : bool :=
  Str.is_empty v || Numeric.port_number v.

(** [URI.parseUserinfo]: user name, password and what follows. *)
Definition parseUserinfo (s : string)
    : outcome (option string * option string * string) :=
  let string := Str.slashes s in
  let firstSlash := Str.indexOf "/" string in
  let before := match firstSlash with Some i => Str.take i string | None => string end in
  match Str.lastIndexOf "@" before with
  | Some pos =>
      let t := Str.split ":" (Str.take pos string) in
      username ←
        match t with
        | t0 :: _ => if Str.is_empty t0 then Ret None else Some <$> Pct.decode t0
        | [] => Ret None
        end;
      password ←
        match tail t with
        | t1 :: _ =>
            if Str.is_empty t1 then Ret None
            else Some <$> Pct.decode (Str.join ":" (tail t))
        | [] => Ret None
        end;
      Ret (username, password, Str.drop (S pos) s)
  | None => Ret (None, None, s)
  end.

(** [URI.parseHost]: host name, port and the path that follows. *)
Definition parseHost (s : string)
    : outcome (option string * option string * string) :=
  let string := Str.slashes s in
  let pos :=
    match Str.indexOf "/" string with
    | Some i => Z.of_nat i
    | None => Z.of_nat (String.length string)
    end in
  let '(hostname, port) :=
    if Str.startsWith string "[" then
      let bracketPos := Str.indexOfZ "]" string in
      let port := or_null (Str.substring (bracketPos + 2) pos string) in
      (or_null (Str.substring 1 bracketPos string),
       if bool_decide (port = Some "/") then None else port)
    else
      let firstColon := Str.indexOfZ ":" string in
      let firstSlash := Str.indexOfZ "/" string in
      let nextColon := Str.indexOfFrom ":" (firstColon + 1) string in
      if negb (nextColon =? -1)%Z
         && ((firstSlash =? -1)%Z || (nextColon <? firstSlash)%Z)
      then (or_null (Str.substring 0 pos string), None)
      else
        let t := Str.split ":" (Str.substring 0 pos string) in
        (or_null (default "" (t !! 0%nat)), or_null (default "" (t !! 1%nat))) in
  if present port && negb (valid_port (text port)) then Throw TypeError
  else
    let rest := Str.drop (Z.to_nat pos) string in
    Ret (hostname, port, if Str.is_empty rest then "/" else rest).

(** [URI.parseAuthority] on the parts being filled. *)
Definition parseAuthority (s : string) (u : parts) : outcome parts :=
  '(username, password, s) ← parseUserinfo s;
  '(hostname, port, s) ← parseHost s;
  Ret (Parts (protocol u) username password hostname (urn u) port s
             (query u) (fragment u)).

(** [URI.parse] *)
Definition parse (s : string) : outcome parts :=
  let string := strip_leading_whitespace s 0 in
  let string := Str.filter (fun c => negb (ascii_tab_whitespace c)) string in
  let '(string, fragment) :=
    match Str.indexOf "#" string with
    | Some pos => (Str.take pos string, or_null (Str.drop (S pos) string))
    | None => (string, None)
    end in
  let '(string, query) :=
    match Str.indexOf "?" string with
    | Some pos => (Str.take pos string, or_null (Str.drop (S pos) string))
    | None => (string, None)
    end in
  let string := fix_web_protocol string in
  let string := fix_leading_slashes string in
  let u := Parts None None None None false None "" query fragment in
  if Str.startsWith string "//" then
    parseAuthority (Str.drop 2 string) u
  else
    match Str.indexOf ":" string with
    | Some pos =>
        let protocol := or_null (Str.take pos string) in
        if present protocol && negb (protocol_expression (text protocol)) then
          Ret (set_path string u)
        else if String.eqb (Str.slashes (String.substring (S pos) 2 string)) "//" then
          parseAuthority (Str.drop (pos + 3) string) (set_protocol protocol u)
        else
          Ret (Parts protocol None None None true None
                     (Str.drop (S pos) string) query fragment)
    | None => Ret (set_path string u)
    end.

(** *** Serialisation *)

Definition is_hex (c : ascii) : bool :=
  match Pct.hex_value c with Some _ => true | None => false end.

(** A run of one to four hexadecimal digits. *)
Definition hex_group (s : string) : bool :=
  negb (Str.is_empty s) && (String.length s <=? 4)%nat
  && Str.forall_chars is_hex s.

(** [URI.ip6_expression]: eight groups of hexadecimal digits, where one
    run of zero groups may be written [::]. *)
Definition ip6_expression (s : string) : bool :=
  let groups := Str.split ":" s in
  let n := length groups in
  let empties := length (List.filter Str.is_empty groups) in
  let inner := List.filter (fun g => negb (Str.is_empty g)) groups in
  forallb hex_group inner
  && (if (empties =? 0)%nat then (n =? 8)%nat
      else Str.includes s "::" && negb (Str.includes s ":::")
           && (length inner <=? 7)%nat
           && (String.eqb s "::"
               || (empties =? 1)%nat
               || ((empties =? 2)%nat
                   && (Str.startsWith s "::" || Str.endsWith s "::")))).

Definition buildUserinfo (u : parts) : string :=
  let t := if present (username u) then Pct.encode (text (username u)) else "" in
  let t := if present (password u) then t ++ ":" ++ Pct.encode (text (password u)) else t in
  if Str.is_empty t then t else t ++ "@".

Definition buildHost (u : parts) : string :=
  if negb (present (hostname u)) then ""
  else
    let h := text (hostname u) in
    let t := if ip6_expression h then "[" ++ h ++ "]" else h in
    if present (port u) then t ++ ":" ++ text (port u) else t.

Definition buildAuthority (u : parts) : string :=
  buildUserinfo u ++ buildHost u.

(** [URI.build], the string of [toString()]. *)
Definition build (u : parts) : string :=
  let t := if present (protocol u) then text (protocol u) ++ ":" else "" in
  let requireAbsolutePath :=
    negb (urn u) && (negb (Str.is_empty t) || present (hostname u)) in
  let t := if requireAbsolutePath then t ++ "//" else t in
  let t := t ++ buildAuthority u in
  let t :=
    if negb (Str.startsWith (path u) "/") && requireAbsolutePath
    then t ++ "/" else t in
  let t := t ++ path u in
  let t := if present (query u) then t ++ "?" ++ text (query u) else t in
  if present (fragment u) then t ++ "#" ++ text (fragment u) else t.

Definition toString (u : parts) : string := build u.

(** *** Accessors *)

(** [uri.is("relative")]: not a URN and without a host name; the scheme
    plays no part. *)
Definition is_relative (u : parts) : bool :=
  negb (urn u) && negb (present (hostname u)).

(** [uri.protocol()] *)
Definition get_protocol (u : parts) : string := text (protocol u).

(** [uri.path()] as a getter *)
Definition get_path (u : parts) : string :=
  if Str.is_empty (path u) then (if present (hostname u) then "/" else "")
  else path u.

(** [uri.filename()] *)
Definition filename (u : parts) : string :=
  if urn u then ""
  else if Str.is_empty (path u) || String.eqb (path u) "/" then ""
  else match Str.lastIndexOf "/" (path u) with
       | Some pos => Str.drop (S pos) (path u)
       | None => path u
       end.

(** [uri.directory()] *)
Definition directory (u : parts) : string :=
  if urn u then ""
  else if Str.is_empty (path u) && negb (present (hostname u)) then ""
  else if String.eqb (path u) "/" then "/"
  else
    let end_ := (Z.of_nat (String.length (path u))
                 - Z.of_nat (String.length (filename u)) - 1)%Z in
    let res := Str.substring 0 end_ (path u) in
    if Str.is_empty res then (if present (hostname u) then "/" else "") else res.

(** [uri.suffix()]: the extension of the file name, when it is made of
    letters, digits and percent signs. *)
Definition suffix (u : parts) : string :=
  if urn u then ""
  else if Str.is_empty (path u) || String.eqb (path u) "/" then ""
  else
    let filename := filename u in
    match Str.lastIndexOf "." filename with
    | None => ""
    | Some pos =>
        let s := Str.drop (S pos) filename in
        if negb (Str.is_empty s)
           && Str.forall_chars (fun c => Str.is_alnum c || Ascii.eqb c "%") s
        then s else ""
    end.

(** *** Paths *)

(** [URI.encodePathSegment]: [URI.encode], with the escapes of
    [$&+,;=:@] turned back into the characters. *)
Definition encodePathSegment (s : string) : string :=
  Str.flat_map
    (fun c => if Pct.unreserved c || Str.one_of "$&+,;=:@" c
              then String c EmptyString else Pct.escape c) s.

(** [URI.encodeUrnPathSegment]: the same with [!$'()*+,;=@]. *)
Definition encodeUrnPathSegment (s : string) : string :=
  Str.flat_map
    (fun c => if Pct.unreserved c || Str.one_of "!$'()*+,;=@" c
              then String c EmptyString else Pct.escape c) s.

Fixpoint recode_segments (enc : string -> string) (segments : list string)
    : outcome (list string) :=
  match segments with
  | [] => Ret []
  | seg :: rest =>
      d ← Pct.decode seg;
      rest ← recode_segments enc rest;
      Ret (enc d :: rest)
  end.

(** [URI.recodePath]: every segment is decoded and encoded again. *)
Definition recodePath (s : string) : outcome string :=
  Str.join "/" <$> recode_segments encodePathSegment (Str.split "/" s).

(** [URI.recodeUrnPath] *)
Definition recodeUrnPath (s : string) : outcome string :=
  Str.join ":" <$> recode_segments encodeUrnPathSegment (Str.split ":" s).

(** [uri.path(v)] as a setter *)
Definition path_set (v : string) (u : parts) : outcome parts :=
  if urn u then
    if Str.is_empty v then Ret (set_path "" u)
    else p ← recodeUrnPath v; Ret (set_path p u)
  else
    if Str.is_empty v then Ret (set_path "/" u)
    else p ← recodePath v; Ret (set_path p u).

(** Length of the longest prefix made of copies of [unit_]. *)
Fixpoint run_length (unit_ : string) (fuel : nat) (s : string) : nat :=
  match fuel with
  | O => 0
  | S fuel =>
      if String.prefix unit_ s
      then String.length unit_
           + run_length unit_ fuel (Str.drop (String.length unit_) s)
      else 0
  end.

(** [path.replace(/(\/(\.\/)+)|(\/\.$)/g, '/')] *)
Fixpoint resolve_simples (s : string) (skip : nat) : string :=
  match s with
  | EmptyString => EmptyString
  | String c s' =>
      match skip with
      | S k => resolve_simples s' k
      | O =>
          if String.prefix "/./" s
          then String "/" (resolve_simples s' (run_length "./" (String.length s') s'))
          else if String.eqb s "/." then "/"
          else String c (resolve_simples s' 0)
      end
  end.

(** [path.replace(/\/{2,}/g, '/')] *)
Fixpoint collapse_slashes (s : string) : string :=
  match s with
  | EmptyString => EmptyString
  | String c s' =>
      if Ascii.eqb c "/" && String.prefix "/" s' then collapse_slashes s'
      else String c (collapse_slashes s')
  end.

(** [path.search(/\/\.\.(\/|$)/)] *)
Fixpoint search_parent (s : string) : option nat :=
  if String.prefix "/../" s || String.eqb s "/.." then Some 0
  else match s with
       | EmptyString => None
       | String _ s' => S <$> search_parent s'
       end.

(** The loop that removes [/..] together with the segment before it;
    every round shortens the path. *)
Fixpoint resolve_parents (fuel : nat) (p : string) : string :=
  match fuel with
  | O => p
  | S fuel =>
      match search_parent p with
      | None => p
      | Some O => resolve_parents fuel (Str.drop 3 p)
      | Some parent =>
          let pos := default parent (Str.lastIndexOf "/" (Str.take parent p)) in
          resolve_parents fuel (Str.take pos p ++ Str.drop (parent + 3) p)
      end
  end.

(** [uri.normalizePath()] *)
Definition normalizePath (u : parts) : outcome parts :=
  let _path := path u in
  if Str.is_empty _path then Ret u
  else if urn u then p ← recodeUrnPath _path; Ret (set_path p u)
  else if String.eqb _path "/" then Ret u
  else
    _path ← recodePath _path;
    let _was_relative := negb (Str.startsWith _path "/") in
    let _path := if _was_relative then "/" ++ _path else _path in
    let _path :=
      if Str.endsWith _path "/.." || Str.endsWith _path "/."
      then _path ++ "/" else _path in
    let _path := collapse_slashes (resolve_simples _path 0) in
    let _leadingParents :=
      if _was_relative
      then Str.take (run_length "../" (String.length _path) (Str.drop 1 _path))
                    (Str.drop 1 _path)
      else "" in
    let _path := resolve_parents (String.length _path) _path in
    let _path :=
      if _was_relative && is_relative u
      then _leadingParents ++ Str.drop 1 _path else _path in
    Ret (set_path _path u).

(** [uri.absoluteTo(base)] *)
Definition absoluteTo (base : parts) (u : parts) : outcome parts :=
  if urn u then Throw Error
  else if present (protocol u) then Ret u
  else
    let resolved := set_protocol (protocol base) u in
    if present (hostname u) then Ret resolved
    else
      let resolved :=
        Parts (protocol base) (username base) (password base)
              (hostname base) (urn resolved) (port base) (path resolved)
              (query resolved) (fragment resolved) in
      if Str.is_empty (path resolved) then
        let resolved := set_path (path base) resolved in
        Ret (if present (query resolved) then resolved
             else set_query (query base) resolved)
      else
        let resolved :=
          if String.eqb (path resolved) ".."
          then set_path (path resolved ++ "/") resolved else resolved in
        if negb (Str.startsWith (get_path resolved) "/") then
          let basedir := directory base in
          let basedir :=
            if negb (Str.is_empty basedir) then basedir
            else if Str.startsWith (path base) "/" then "/" else "" in
          normalizePath
            (set_path ((if Str.is_empty basedir then "" else basedir ++ "/")
                       ++ path resolved) resolved)
        else Ret resolved.

(** *** Query strings *)

(** [URI.encodeQuery]: [URI.encode], then every [%20] written [+];
    the space is the only byte with that escape. *)
Definition encodeQuery (s : string) : string :=
  Str.flat_map
    (fun c => if Ascii.eqb c " " then "+"
              else if Pct.unreserved c then String c EmptyString
              else Pct.escape c) s.

(** [URI.decodeQuery]: every [+] is read as [%20]; a string that does
    not decode is returned as it is. *)
Definition decodeQuery (s : string) : string :=
  try_catch
    (Pct.decode
       (Str.flat_map
          (fun c => if Ascii.eqb c "+" then "%20" else String c EmptyString) s))
    s.

(** The name and the value of an item [name=value]; an item without
    [=] has the value [null]. *)
Definition parse_item (item : string) : string * value :=
  match Str.indexOf "=" item with
  | Some pos =>
      (decodeQuery (Str.take pos item), VStr (decodeQuery (Str.drop (S pos) item)))
  | None => (decodeQuery item, VNull)
  end.

(** The items between the [&] of a query string, once runs of [&] are
    collapsed and the leading [?] and [&] and the trailing [&] are
    stripped. *)
Definition query_items (s : string) : list string :=
  List.filter (fun item => negb (Str.is_empty item))
    (Str.split "&" (Str.dropWhile (Ascii.eqb "?") s)).

Definition add_item (items : props) (item : string) : props :=
  let '(name, value) := parse_item item in
  if String.eqb name "__proto__" then items
  else
    match Obj.lookup name items with
    | Some (VArr l) => Obj.set name (VArr (l ++ [value])) items
    | Some existing => Obj.set name (VArr [existing; value]) items
    | None => Obj.set name value items
    end.

(** [URI.parseQuery] *)
Definition parseQuery (s : string) : props :=
  fold_left add_item (query_items s) [].

(** The own names of [Object.prototype]: in a fresh [{}] they read as
    defined. *)
Definition object_prototype_names : list string :=
  ["constructor"; "__defineGetter__"; "__defineSetter__"; "hasOwnProperty";
   "__lookupGetter__"; "__lookupSetter__"; "isPrototypeOf";
   "propertyIsEnumerable"; "toString"; "valueOf"; "__proto__";
   "toLocaleString"].

Definition mem (x : string) (l : list string) : bool :=
  existsb (String.eqb x) l.

Section Query.

Context (host : Host).

(** [URI.buildQueryParameter] *)
Definition buildQueryParameter (name : string) (v : value) : string :=
  encodeQuery name
  ++ match v with
     | VNull => ""
     | _ => "=" ++ encodeQuery (ToString host v)
     end.

(** The values of a repeated parameter, each printed once: [seen] are
    the keys of the object [unique]. *)
Fixpoint build_values (name : string) (l : list value) (seen : list string)
    : string :=
  match l with
  | [] => ""
  | v :: l' =>
      if negb (is_undefined v) && negb (mem (ToString host v) seen)
      then "&" ++ buildQueryParameter name v
               ++ build_values name l' (ToString host v :: seen)
      else build_values name l' seen
  end.

Definition build_entry (kv : string * value) : string :=
  let '(key, v) := kv in
  if String.eqb key "__proto__" then ""
  else match v with
       | VArr l => build_values key l object_prototype_names
       | VUndefined => ""
       | _ => "&" ++ buildQueryParameter key v
       end.

(** [URI.buildQuery], without duplicate parameters *)
Definition buildQuery (data : props) : string :=
  Str.drop 1 (String.concat "" (List.map build_entry data)).

(** [data[name] = v] on the object made by [parseQuery]; assigning
    to [__proto__] creates no property. *)
Definition data_set (name : string) (v : value) (data : props) : props :=
  if String.eqb name "__proto__" then data else Obj.set name v data.

(** [uri.setQuery(name, value)] for a string [name] *)
Definition setQuery (name : string) (v : value) (u : parts) : parts :=
  let data := parseQuery (text (query u)) in
  let data :=
    data_set name (match v with VUndefined => VNull | _ => v end) data in
  set_query (Some (buildQuery data)) u.

(** [uri.setQuery(params)] for an object of parameters *)
Definition setQuery_object (params : props) (u : parts) : parts :=
  let data := parseQuery (text (query u)) in
  let data := fold_left (fun d kv => data_set kv.1 kv.2 d) params data in
  set_query (Some (buildQuery data)) u.

(** [uri.removeQuery(name)] for a string [name] *)
Definition removeQuery (name : string) (u : parts) : parts :=
  let data := parseQuery (text (query u)) in
  let data := data_set name VUndefined data in
  set_query (Some (buildQuery data)) u.

(** *** Normalisation *)

Definition normalizeProtocol (u : parts) : parts :=
  set_protocol (Str.toLowerCase <$> protocol u) u.

Definition normalizeHostname (u : parts) : parts :=
  if present (hostname u)
  then set_hostname (Str.toLowerCase <$> hostname u) u else u.

Definition defaultPorts : list (string * string) :=
  [("http", "80"); ("https", "443"); ("ftp", "21"); ("gopher", "70");
   ("ws", "80"); ("wss", "443")].

Definition normalizePort (u : parts) : parts :=
  match protocol u, port u with
  | Some pr, Some po =>
      match List.find (fun d => String.eqb d.1 pr) defaultPorts with
      | Some d => if String.eqb d.2 po then set_port None u else u
      | None => u
      end
  | _, _ => u
  end.

Definition normalizeQuery (u : parts) : parts :=
  match query u with
  | Some q =>
      if Str.is_empty q then set_query None u
      else set_query (Some (buildQuery (parseQuery q))) u
  | None => u
  end.

Definition normalizeFragment (u : parts) : parts :=
  if present (fragment u) then u else set_fragment None u.

(** [uri.normalize()] *)
Definition normalize (u : parts) : outcome parts :=
  if urn u then
    u ← normalizePath (normalizeProtocol u);
    Ret (normalizeFragment (normalizeQuery u))
  else
    u ← normalizePath (normalizePort (normalizeHostname (normalizeProtocol u)));
    Ret (normalizeFragment (normalizeQuery u)).

(** [one.sort()] on the values of a repeated parameter: a stable sort
    by the printed form. *)
Fixpoint insert_value (x : value) (l : list value) : list value :=
  match l with
  | [] => [x]
  | y :: l' =>
      if String.leb (ToString host x) (ToString host y) then x :: l
      else y :: insert_value x l'
  end.

Definition sort_values (l : list value) : list value :=
  foldr insert_value [] l.

Fixpoint all_strict_eq (one two : list value) : bool :=
  match one, two with
  | [], [] => true
  | a :: one, b :: two => strict_eq a b && all_strict_eq one two
  | _, _ => false
  end.

(** [arraysEqual(one, two)] *)
Definition arraysEqual (one two : value) : bool :=
  match one, two with
  | VArr one, VArr two =>
      (length one =? length two)%nat
      && all_strict_eq (sort_values one) (sort_values two)
  | _, _ => false
  end.

Definition same_parameter (two_map : props) (kv : string * value) : bool :=
  let '(key, v) := kv in
  let other := default VUndefined (Obj.lookup key two_map) in
  if isArray v then arraysEqual v other else strict_eq v other.

(** [one.equals(two)] *)
Definition equals (one two : parts) : outcome bool :=
  one ← normalize one;
  two ← normalize two;
  if String.eqb (toString one) (toString two) then Ret true
  else
    let one_query := text (query one) in
    let two_query := text (query two) in
    let one := set_query (Some "") one in
    let two := set_query (Some "") two in
    if negb (String.eqb (toString one) (toString two)) then Ret false
    else if negb (String.length one_query =? String.length two_query)%nat
    then Ret false
    else
      let one_map := parseQuery one_query in
      let two_map := parseQuery two_query in
      Ret (forallb (same_parameter two_map) one_map
           && forallb (fun key => Obj.has key one_map
                                  || mem key object_prototype_names)
                      (Obj.keys two_map)).

End Query.

End URI.

(** ** Deep merge

    [mergeDeep] reads [target[key]] and writes with [Object.assign]; both
    go through the prototype chain of the target.  Every object of the
    model has [Object.prototype] on its chain (a Date has [Date.prototype]
    in front), both as the language defines them.  A merge that would
    change a prototype, or whose course depends on the names that
    [Date.prototype] holds, leaves the model: it has no result here. *)

(** What [target[key]] finds. *)
Inductive found : Type :=
| Own (v : value)
| Inherited_method
| Inherited_prototype
| Unknown
| Missing.

(** [target[key]]: an own property; or the prototype, under
    [__proto__]; or a function of [Object.prototype]; or, in a plain
    object, nothing.  What else a Date inherits is left open. *)
Definition read_member (kind : objkind) (key : string) (target : props)
    : found :=
  match Obj.lookup key target with
  | Some v => Own v
  | None =>
      if String.eqb key "__proto__" then Inherited_prototype
      else if URI.mem key URI.object_prototype_names then Inherited_method
      else match kind with Plain => Missing | DateObj _ => Unknown end
  end.

(** [Object.assign(target, { [key]: v })], an assignment [target[key] = v].
    The inherited [__proto__] is an accessor: its setter ignores a
    primitive value and takes an object or [null] as the new prototype. *)
Definition assign_member (kind : objkind) (key : string) (v : value)
    (target : props) : option props :=
  match read_member kind key target with
  | Inherited_prototype => if typeof_object v then None else Some target
  | _ => Some (Obj.set key v target)
  end.

(** One round of [mergeDeep]: the body executed for the first source.
    The result is the target after the in-place merge. *)
Fixpoint mergeInto (target source : value) {struct source} : option value :=
  match target, source with
  | VObj kind tps, VObj _ sps =>
      VObj kind <$>
        (fix for_in (entries : props) (target : props) {struct entries}
             : option props :=
            match entries with
            | [] => Some target
            | (key, sv) :: rest =>
                target ←
                  (if isObject sv then
                     match read_member kind key target with
                     | Own tv =>
                         Obj.update (fun tv => mergeInto tv sv) key
                           (if truthy tv then target
                            else Obj.set key (obj []) target)
                     | Missing =>
                         Obj.update (fun tv => mergeInto tv sv) key
                           (Obj.set key (obj []) target)
                     | Inherited_method => Some target
                     | Inherited_prototype | Unknown => None
                     end
                   else assign_member kind key sv target);
                for_in rest target
            end) sps tps
  | _, _ => Some target
  end.

(** The loop of [mergeInto] written apart, for the proofs. *)
Definition merge_key (kind : objkind) (key : string) (sv : value)
    (target : props) : option props :=
  if isObject sv then
    match read_member kind key target with
    | Own tv =>
        Obj.update (fun tv => mergeInto tv sv) key
          (if truthy tv then target else Obj.set key (obj []) target)
    | Missing =>
        Obj.update (fun tv => mergeInto tv sv) key
          (Obj.set key (obj []) target)
    | Inherited_method => Some target
    | Inherited_prototype | Unknown => None
    end
  else assign_member kind key sv target.

Definition merge_props (kind : objkind) : props -> props -> option props :=
  fix for_in (entries : props) (target : props) {struct entries}
      : option props :=
    match entries with
    | [] => Some target
    | (key, sv) :: rest =>
        target ← merge_key kind key sv target;
        for_in rest target
    end.

Fixpoint mergeDeep (target : value) (sources : list value) : option value :=
  match sources with
  | [] => Some target
  | source :: sources =>
      target ← mergeInto target source;
      mergeDeep target sources
  end.

(** ** [Utils]: URLs *)

Definition browserImageTypes : list string :=
  ["image/gif"; "image/jpg"; "image/jpeg"; "image/apng"; "image/png"; "image/webp"].

Definition browserProtocols : list string := ["http"; "https"].

(** [o.k] for any value: reading a property of [null] or [undefined]
    raises a [TypeError]. *)
Definition get_member (o : value) (k : string) : outcome value :=
  match o with
  | VUndefined | VNull => Throw TypeError
  | _ => Ret (get o k)
  end.

(** [URI(href)] and [new URI(href)] for a value that is neither a parts
    object nor a DOM node ([parts_object], [dom_node]): a string is
    parsed, anything else is rejected.  URI.js builds a URI from the
    objects of these two kinds; the model leaves them out, and what it
    says of [URI_new] holds of the other values only. *)
Definition URI_new (href : value) : outcome URI.parts :=
  match href with
  | VStr s => URI.parse s
  | _ => Throw TypeError
  end.

(** A value that URI.js would read as an object of parts: it has a
    truthy [hostname], [path] or [pathname]. *)
Definition parts_object (v : value) : bool :=
  match v with
  | VObj _ _ =>
      truthy (get v "hostname") || truthy (get v "path") || truthy (get v "pathname")
  | _ => false
  end.

(** A value that URI.js would read as a DOM node: it has a truthy
    [nodeName], and the URL is taken from an attribute of the node. *)
Definition dom_node (v : value) : bool :=
  match v with
  | VObj _ _ => truthy (get v "nodeName")
  | _ => false
  end.

(** The values [URI_new] is about. *)
Definition URI_input (v : value) : bool :=
  negb (parts_object v) && negb (dom_node v).

Definition isGdalVfsUri (url : value) : bool :=
  match url with
  | VStr s => Str.startsWith s "/vsi" && negb (Str.startsWith s "/vsicurl/")
  | _ => false
  end.

(** What [normalizeUri] returns: the string, or the URI itself. *)
Inductive normalized : Type :=
| AsString (s : string)
| AsURI (u : URI.parts).

(** [href.replace(/^\/vsicurl\//, '')] on a string that starts with it *)
Definition strip_vsicurl (href : value) : value :=
  match href with
  | VStr s => if Str.startsWith s "/vsicurl/" then VStr (Str.drop 9 s) else href
  | _ => href
  end.

(** [path.replace(/\/$/, '')] *)
Definition strip_trailing_slash (p : string) : string :=
  if Str.endsWith p "/" then Str.take (String.length p - 1) p else p.

Section Utils.

Context (host : Host).

(** [Queryable.formatText] of [./models/queryable], a module that is
    not among these sources: it turns the value of the [filters] key
    into the query parameters to set. *)
Context (Queryable_formatText : value -> outcome value).

(** The base of a resolution: the path of a base URL that ends neither
    in [/] nor in [.json] gets a [/] appended. *)
Definition base_uri (baseUrl : value) : outcome URI.parts :=
  baseUri ← URI_new baseUrl;
  let baseUriPath := URI.get_path baseUri in
  if negb (Str.endsWith baseUriPath "/") && negb (Str.endsWith baseUriPath ".json")
  then URI.path_set (baseUriPath ++ "/") baseUri
  else Ret baseUri.

(** The end of [normalizeUri]: normalisation, then the query and the
    fragment are emptied on request, then the string is built. *)
Definition finish_uri (noParams stringify : bool) (uri : URI.parts)
    : outcome normalized :=
  uri ← URI.normalize host uri;
  let uri :=
    if noParams then URI.set_fragment (Some "") (URI.set_query (Some "") uri)
    else uri in
  Ret (if stringify then AsString (URI.toString uri) else AsURI uri).

(** The steps of [normalizeUri] after the [/vsicurl/] prefix is gone. *)
Definition normalize_href (href baseUrl : value) (noParams stringify : bool)
    : outcome normalized :=
  uri ← URI_new href;
  uri ←
    (if truthy baseUrl && URI.is_relative uri && negb (isGdalVfsUri href)
     then baseUri ← base_uri baseUrl; URI.absoluteTo baseUri uri
     else Ret uri);
  finish_uri noParams stringify uri.

Definition normalizeUri (href baseUrl : value) (noParams stringify : bool)
    : outcome normalized :=
  normalize_href (strip_vsicurl href) baseUrl noParams stringify.

Definition toAbsolute (href baseUrl : value) (stringify : bool)
    : outcome normalized :=
  normalizeUri href baseUrl false stringify.

(** The body of the [try] block of [equalUrl]. *)
Definition equalUrl_body (a b : value) : outcome bool :=
  uri1 ← URI_new a;
  uri2 ← URI_new b;
  uri1 ← URI.path_set (strip_trailing_slash (URI.get_path uri1)) uri1;
  uri2 ← URI.path_set (strip_trailing_slash (URI.get_path uri2)) uri2;
  URI.equals host uri1 uri2.

Definition equalUrl (a b : value) : bool :=
  try_catch (equalUrl_body a b) false.

(** ** [Utils]: images *)

(** The conditions of the decision, in the words of the specification. *)

(** The URL has a scheme and it is neither [http] nor [https]. *)
Definition foreign_scheme (uri : URI.parts) : bool :=
  let protocol := Str.toLowerCase (URI.get_protocol uri) in
  negb (Str.is_empty protocol) && negb (URI.mem protocol browserProtocols).

(** The declared type is one of the image types a browser renders. *)
Definition renderable_type (img : value) : bool :=
  match get img "type" with
  | VStr t => URI.mem t browserImageTypes
  | _ => false
  end.

(** The file extension, behind [image/], is one of these types. *)
Definition renderable_extension (uri : URI.parts) : bool :=
  URI.mem ("image/" ++ Str.toLowerCase (URI.suffix uri)) browserImageTypes.

Definition canBrowserDisplayImage (img : value) : outcome bool :=
  href ← get_member img "href";
  if negb (is_string href) then Ret false
  else
    uri ← URI_new href;
    let protocol := Str.toLowerCase (URI.get_protocol uri) in
    if negb (Str.is_empty protocol) && negb (URI.mem protocol browserProtocols)
    then Ret false
    else if match get img "type" with
            | VStr t => URI.mem t browserImageTypes
            | _ => false
            end
    then Ret true
    else if URI.mem ("image/" ++ Str.toLowerCase (URI.suffix uri)) browserImageTypes
    then Ret true
    else if truthy (get img "type") then Ret false
    else Ret true.

(** ** [Utils]: query construction *)

(** [dt.toISOString()]; an invalid date raises a [RangeError]. *)
Definition toISOString (t : option Z) : outcome string :=
  match t with
  | Some t => Ret (date_toISOString host t)
  | None => Throw RangeError
  end.

Definition format_bound (dt : value) : outcome value :=
  match dt with
  | VObj (DateObj t) _ => VStr <$> toISOString t
  | _ => if truthy dt then Ret dt else Ret (VStr "..")
  end.

Fixpoint map_bounds (l : list value) : outcome (list value) :=
  match l with
  | [] => Ret []
  | dt :: l' =>
      x ← format_bound dt;
      l' ← map_bounds l';
      Ret (x :: l')
  end.

(** [value.map(...).join('/')]; only an array has a [map]. *)
Definition formatDatetimeQuery (v : value) : outcome string :=
  match v with
  | VArr l => join host "/" <$> map_bounds l
  | _ => Throw TypeError
  end.

(** The values for which the parameter is removed. *)
Definition removes_parameter (v : value) : bool :=
  is_null v
  || match v with VNum n => negb (isFinite n) | _ => false end
  || match v with VStr s => Str.is_empty s | _ => false end
  || (typeof_object v && (size v =? 0)%nat).

(** [url.setQuery(params)] for the value that [formatText] returns *)
Definition setQuery_params (params : value) (url : URI.parts)
    : outcome URI.parts :=
  match params with
  | VStr name => Ret (URI.setQuery host name VUndefined url)
  | VObj _ ps => Ret (URI.setQuery_object host ps url)
  | VArr l =>
      Ret (URI.setQuery_object host
             (imap (fun i v => (decimal (Z.of_nat i), v)) l) url)
  | VNull => Ret (URI.setQuery_object host [] url)
  | _ => Throw TypeError
  end.

(** The body of the loop over the keys of [filters]. *)
Definition add_filter (url : URI.parts) (key : string) (v : value)
    : outcome URI.parts :=
  if removes_parameter v then Ret (URI.removeQuery host key url)
  else if String.eqb key "datetime" then
    s ← formatDatetimeQuery v;
    Ret (URI.setQuery host key (VStr s) url)
  else if String.eqb key "bbox" && isArray v then
    Ret (URI.setQuery host key (VStr (join_array host "," v)) url)
  else if (String.eqb key "collections" || String.eqb key "ids") && isArray v then
    Ret (URI.setQuery host key (VStr (join_array host "," v)) url)
  else if String.eqb key "filters" then
    params ← Queryable_formatText v;
    setQuery_params params url
  else Ret (URI.setQuery host key v url).

Fixpoint add_filters (url : URI.parts) (filters : props) : outcome URI.parts :=
  match filters with
  | [] => Ret url
  | (key, v) :: rest =>
      url ← add_filter url key v;
      add_filters url rest
  end.

(** The URL that [addFiltersToLink] computes for the new link. *)
Definition filtered_href (link : value) (filters : props) : outcome string :=
  href ← get_member link "href";
  url ← URI_new href;
  url ← add_filters url filters;
  Ret (URI.toString url).

End Utils.

(** *** Links in the store

    [addFiltersToLink] builds its result with [Object.assign({}, link,
    { href })].  To tell a new object from an updated one, the link lives
    in a store of objects and the function returns the reference of its
    result together with the store it leaves. *)

Definition loc := positive.

Abbreviation store := (gmap loc value).

(** [{}] *)
Definition new_object (h : store) : loc * store :=
  let l := fresh (dom h) in (l, <[l := obj []]> h).

Definition own_properties (v : value) : props :=
  match v with VObj _ ps => ps | _ => [] end.

(** [Object.assign(target, source)]: the properties are written into the
    object at [target]. *)
Definition object_assign (target : loc) (source : props) (h : store) : store :=
  alter (fun v => match v with
                  | VObj kind ps => VObj kind (Obj.assign ps source)
                  | _ => v
                  end) target h.

Definition addFiltersToLink (host : Host)
    (Queryable_formatText : value -> outcome value)
    (link : loc) (filters : props) (h : store) : outcome (loc * store) :=
  match h !! link with
  | None => Throw TypeError
  | Some linkv =>
      href ← filtered_href host Queryable_formatText linkv filters;
      let '(target, h) := new_object h in
      let h := object_assign target (own_properties linkv) h in
      let h := object_assign target [("href", VStr href)] h in
      Ret (target, h)
  end.

(** ** Statements under test *)

(** A relative [href] resolved against [base] once a [/] is appended to
    the path of [base]. *)
Definition resolved_in_directory (host : Host) (href base : string)
    : outcome normalized :=
  uri ← URI.parse href;
  baseUri ← URI.parse base;
  baseUri ← URI.path_set (URI.get_path baseUri ++ "/") baseUri;
  uri ← URI.absoluteTo baseUri uri;
  finish_uri host false true uri.

(** The first statement about [normalizeUri], read literally: every
    relative [href] is resolved that way whenever the path of the base
    ends neither in [/] nor in [.json]. *)
Definition every_relative_href_is_resolved : Prop :=
  forall (host : Host) (href base : string) (uri baseUri : URI.parts),
    URI.parse href = Ret uri ->
    URI.is_relative uri = true ->
    URI.parse base = Ret baseUri ->
    Str.endsWith (URI.get_path baseUri) "/" = false ->
    Str.endsWith (URI.get_path baseUri) ".json" = false ->
    normalizeUri host (VStr href) (VStr base) false true
    = resolved_in_directory host href base.

(** ** A host for the examples

    A machine in the UTC time zone.  Numbers are printed with all their
    digits: without exponent and without rounding to the shortest numeral,
    which is what JavaScript prints for the integers below [10^21]. *)

Fixpoint zeros (n : nat) : string :=
  match n with O => "" | S n => String "0" (zeros n) end.

(** The numeral padded with zeros on the left up to a width. *)
Definition padded (width : nat) (n : Z) : string :=
  let s := decimal n in zeros (width - String.length s) ++ s.

Fixpoint strip_trailing_zeros (fuel : nat) (s : string) : string :=
  match fuel with
  | O => s
  | S fuel =>
      if Str.endsWith s "0"
      then strip_trailing_zeros fuel (Str.take (String.length s - 1) s)
      else s
  end.

Definition sample_number_toString (x : number) : string :=
  match x with
  | S754_nan => "NaN"
  | S754_infinity false => "Infinity"
  | S754_infinity true => "-Infinity"
  | S754_zero _ => "0"
  | S754_finite neg m e =>
      (if neg then "-" else "")
      ++ (if (0 <=? e)%Z then decimal (Z.pos m * 2 ^ e)
          else
            let k := Z.to_nat (- e) in
            let digits := padded (S k) (Z.pos m * 5 ^ Z.of_nat k) in
            let whole := Str.take (String.length digits - k) digits in
            let frac := strip_trailing_zeros k (Str.drop (String.length digits - k) digits) in
            if Str.is_empty frac then whole else whole ++ "." ++ frac)
  end.

(** Year, month and day of a number of days since 1970-01-01. *)
Definition civil_from_days (days : Z) : Z * Z * Z :=
  let z := (days + 719468)%Z in
  let era := (z / 146097)%Z in
  let doe := (z - era * 146097)%Z in
  let yoe := ((doe - doe / 1460 + doe / 36524 - doe / 146096) / 365)%Z in
  let doy := (doe - (365 * yoe + yoe / 4 - yoe / 100))%Z in
  let mp := ((5 * doy + 2) / 153)%Z in
  let d := (doy - (153 * mp + 2) / 5 + 1)%Z in
  let m := (if (mp <? 10)%Z then mp + 3 else mp - 9)%Z in
  let y := (yoe + era * 400 + (if (m <=? 2)%Z then 1 else 0))%Z in
  (y, m, d).

Definition clock (ms : Z) : string :=
  padded 2 (ms / 3600000) ++ ":" ++ padded 2 (ms / 60000 mod 60)
  ++ ":" ++ padded 2 (ms / 1000 mod 60).

Definition sample_date_toISOString (t : Z) : string :=
  let days := (t / 86400000)%Z in
  let ms := (t mod 86400000)%Z in
  let '(y, m, d) := civil_from_days days in
  (if ((0 <=? y) && (y <=? 9999))%Z then padded 4 y
   else (if (y <? 0)%Z then "-" else "+") ++ padded 6 (Z.abs y))
  ++ "-" ++ padded 2 m ++ "-" ++ padded 2 d ++ "T" ++ clock ms
  ++ "." ++ padded 3 (ms mod 1000) ++ "Z".

Definition sample_date_toString (t : option Z) : string :=
  match t with
  | None => "Invalid Date"
  | Some t =>
      let days := (t / 86400000)%Z in
      let ms := (t mod 86400000)%Z in
      let '(y, m, d) := civil_from_days days in
      default "" (["Sun"; "Mon"; "Tue"; "Wed"; "Thu"; "Fri"; "Sat"]
                    !! Z.to_nat ((days + 4) mod 7))
      ++ " "
      ++ default "" (["Jan"; "Feb"; "Mar"; "Apr"; "May"; "Jun"; "Jul"; "Aug";
                      "Sep"; "Oct"; "Nov"; "Dec"] !! Z.to_nat (m - 1))
      ++ " " ++ padded 2 d ++ " "
      ++ (if (y <? 0)%Z then "-" ++ padded 6 (Z.abs y) else padded 4 y)
      ++ " " ++ clock ms ++ " GMT+0000 (Coordinated Universal Time)"
  end.

Definition sample_host : Host :=
  Build_Host sample_number_toString sample_date_toString sample_date_toISOString.

(** A formatter for the examples: the payload is a string and becomes the
    parameter [filter]. *)
Definition sample_formatText (v : value) : outcome value :=
  Ret (obj [("filter", v)]).

(** ** Notions used to state the properties of the query string *)

(** A string that comes back from the query string as it went in: it is
    so for every well-formed string. *)
Definition query_safe (s : string) : Prop :=
  URI.decodeQuery (URI.encodeQuery s) = s.

(** The parameter [k] of the query string of a URI, as URI.js reads it. *)
Definition param (k : string) (url : URI.parts) : option value :=
  Obj.lookup k (URI.parseQuery (URI.text (URI.query url))).

(** The items [name] and [name=value] that [buildQuery] writes for the
    values of a repeated parameter. *)
Fixpoint values_items (host : Host) (name : string) (l : list value)
    (seen : list string) : list string :=
  match l with
  | [] => []
  | v :: l' =>
      if negb (is_undefined v) && negb (URI.mem (ToString host v) seen)
      then URI.buildQueryParameter host name v
           :: values_items host name l' (ToString host v :: seen)
      else values_items host name l' seen
  end.

(** The items that [buildQuery] writes for one entry of the data. *)
Definition entry_items (host : Host) (kv : string * value) : list string :=
  let '(key, v) := kv in
  if String.eqb key "__proto__" then []
  else match v with
       | VArr l => values_items host key l URI.object_prototype_names
       | VUndefined => []
       | _ => [URI.buildQueryParameter host key v]
       end.

(** [items[name]] after one more value for [name] has been read. *)
Definition push_value (existing : option value) (v : value) : option value :=
  match existing with
  | Some (VArr l) => Some (VArr (l ++ [v]))
  | Some e => Some (VArr [e; v])
  | None => Some v
  end.

(** One bound of a [datetime] interval: a [Date] gives its ISO string, a
    missing bound gives [..], any other value is printed as it is. *)
Definition datetime_bound (host : Host) (dt : value) : string :=
  match dt with
  | VObj (DateObj (Some t)) _ => date_toISOString host t
  | VObj (DateObj None) _ => ""
  | _ => if truthy dt then ToString host dt else ".."
  end.

Definition interval (host : Host) (l : list value) : string :=
  Str.join "/" (List.map (datetime_bound host) l).

Definition invalid_date (v : value) : bool :=
  match v with VObj (DateObj None) _ => true | _ => false end.

(** The names that [setQuery(params)] assigns. *)
Definition formatter_keys (params : value) : list string :=
  match params with
  | VStr name => [name]
  | VObj _ ps => Obj.keys ps
  | VArr l => imap (fun i _ => decimal (Z.of_nat i)) l
  | _ => []
  end.

(** Characters that separate nothing in a query string. *)
Definition plain_char (c : ascii) : bool :=
  negb (Ascii.eqb c "&") && negb (Ascii.eqb c "=") && negb (Ascii.eqb c "?").

Definition no_amp (c : ascii) : bool := negb (Ascii.eqb c "&").

Definition no_question (c : ascii) : bool := negb (Ascii.eqb c "?").

Definition no_equals (c : ascii) : bool := negb (Ascii.eqb c "=").

Definition item_ok (item : string) : Prop :=
  Str.forall_chars no_amp item = true /\ Str.forall_chars no_question item = true.

Definition amp_items (items : list string) : string :=
  String.concat "" (List.map (fun item => "&" ++ item) items).

(** *** Notions used to state the properties of the deep merge *)

(** An object of the model stands for a JavaScript object when its keys
    are distinct, and so for the objects among the values of its
    properties. *)
Fixpoint deep_wf (v : value) : Prop :=
  match v with
  | VObj _ ps =>
      NoDup ps.*1
      /\ (fix all (ps : props) : Prop :=
            match ps with
            | [] => True
            | (_, x) :: rest => deep_wf x /\ all rest
            end) ps
  | _ => True
  end.

(** No object of the value has a key [__proto__].  Arrays are not looked
    into: the merge takes an array as it is. *)
Fixpoint no_proto_key (v : value) : bool :=
  match v with
  | VObj _ ps =>
      (fix all (ps : props) : bool :=
         match ps with
         | [] => true
         | (k, x) :: rest =>
             negb (String.eqb k "__proto__") && no_proto_key x && all rest
         end) ps
  | _ => true
  end.

(** No object of the value is a Date. *)
Fixpoint dateless (v : value) : bool :=
  match v with
  | VObj Plain ps =>
      (fix all (ps : props) : bool :=
         match ps with
         | [] => true
         | (_, x) :: rest => dateless x && all rest
         end) ps
  | VObj (DateObj _) _ => false
  | _ => true
  end.

(** [v[k1][k2]...] along a path of keys, among own properties. *)
Fixpoint get_in (v : value) (path : list string) : value :=
  match path with
  | [] => v
  | k :: path => get_in (get v k) path
  end.

(** The leaf that a source holds at the end of a path: the keys before
    the last one hold objects, the last one holds a value that is not an
    object. *)
Fixpoint leaf_at (path : list string) (v : value) : option value :=
  match path, v with
  | k :: rest, VObj _ ps =>
      x ← Obj.lookup k ps;
      match rest with
      | [] => if isObject x then None else Some x
      | _ :: _ => leaf_at rest x
      end
  | _, _ => None
  end.

(** The path is open in a target: under every key before the last one
    the target holds an object in which the rest of the path is open, or
    a falsy value, or nothing at all (then the merge puts a new object
    there); and the last key is not an inherited [__proto__]. *)
Fixpoint open_path (path : list string) (v : value) : bool :=
  match path, v with
  | k :: rest, VObj kind ps =>
      match rest with
      | [] =>
          match read_member kind k ps with
          | Inherited_prototype => false
          | _ => true
          end
      | _ :: _ =>
          match read_member kind k ps with
          | Own tv =>
              if truthy tv then open_path rest tv else open_path rest (obj [])
          | Missing => open_path rest (obj [])
          | _ => false
          end
      end
  | _, _ => false
  end.

(** [target[key]] is truthy and not a plain object; [target[key]] is
    falsy. *)
Definition truthy_scalar (m : found) : bool :=
  match m with
  | Own v => truthy v && negb (isObject v)
  | Inherited_method => true
  | _ => false
  end.

Definition falsy (m : found) : bool :=
  match m with
  | Own v => negb (truthy v)
  | Missing => true
  | _ => false
  end.

(** The words "later sources win on conflicting leaf keys", read
    literally: whatever leaf the last source holds, the result holds it
    at the same place. *)
Definition later_source_always_wins : Prop :=
  forall (target : value) (sources : list value) (source : value)
         (path : list string) (leaf result : value),
    isObject target = true ->
    deep_wf source ->
    leaf_at path source = Some leaf ->
    mergeDeep target (sources ++ [source]) = Some result ->
    get_in result path = leaf.

(** *** Notions used to state the properties of the comparison of URLs *)

(** Two URIs that differ at most in the case of the ASCII letters of the
    scheme and, outside a URN, of the host name. *)
Definition same_up_to_case (u u' : URI.parts) : Prop :=
  Str.toLowerCase <$> URI.protocol u = Str.toLowerCase <$> URI.protocol u'
  /\ (if URI.urn u then URI.hostname u = URI.hostname u'
      else Str.toLowerCase <$> URI.hostname u = Str.toLowerCase <$> URI.hostname u')
  /\ URI.username u = URI.username u'
  /\ URI.password u = URI.password u'
  /\ URI.urn u = URI.urn u'
  /\ URI.port u = URI.port u'
  /\ URI.path u = URI.path u'
  /\ URI.query u = URI.query u'
  /\ URI.fragment u = URI.fragment u'.

(** *** Notions used to state the properties of the search *)

(** A string of ASCII characters. *)
Definition ascii_only (s : string) : bool :=
  Str.forall_chars (fun c => (nat_of_ascii c <? 128)%nat) s.

(** The separators in the words of the specification, "white space and
    punctuation": a run of characters of the class
    [[\s.,;!&({[)}\]]], the closing bracket being one of them. *)
Definition separator_char (s : string) : option nat :=
  match s with
  | String "]" _ => Some 1
  | _ => Regex.class_char s
  end.

Fixpoint separator_run (s : string) (skip : nat) : nat :=
  match s with
  | EmptyString => 0
  | String _ s' =>
      match skip with
      | S k => S (separator_run s' k)
      | O => match separator_char s with
             | Some (S k) => S (separator_run s' k)
             | _ => 0
             end
      end
  end.

Definition separators (s : string) : option nat :=
  match separator_run s 0 with
  | O => None
  | n => Some n
  end.

(** [search] with these separators in the place of [splitChars]. *)
Definition search_as_specified (term target : string) (and : bool) : bool :=
  let searchterm := Regex.split separators (Str.toLowerCase term) in
  let target := Str.toLowerCase (Regex.replace separators " " target) in
  if and
  then forallb (fun term => Str.includes target term) searchterm
  else existsb (fun term => Str.includes target term) searchterm.

Definition not_bracket (c : ascii) : bool := negb (Ascii.eqb c "]").

Definition nonempty (item : string) : bool := negb (Str.is_empty item).

(** The values read for the name [k], in the order of the items. *)
Definition values_for (k : string) (items : list string) : list value :=
  (List.filter
     (fun p : string * value =>
        String.eqb p.1 k && negb (String.eqb p.1 "__proto__"))
     (List.map URI.parse_item items)).*2.

(** The value read back for the name [k] from what [buildQuery] writes
    for the entry [k: v]. *)
Definition read_back (host : Host) (k : string) (v : value) : option value :=
  fold_left push_value
    ((List.map URI.parse_item
        (List.filter nonempty (entry_items host (k, v)))).*2) None.

(** The names in the query string of a URI are well-formed strings. *)
Definition safe_names (url : URI.parts) : Prop :=
  forall k, param k url <> None -> query_safe k.

(** The parameter [k] is in [url'] what it was in [url]: absent, or
    present once with the same (well-formed) value. *)
Definition keeps (k : string) (url url' : URI.parts) : Prop :=
  (param k url = None -> param k url' = None)
  /\ (forall s, param k url = Some (VStr s) -> Pct.utf8 s = true ->
                param k url' = Some (VStr s))
  /\ (param k url = Some VNull -> k <> "" -> param k url' = Some VNull).

(** The parameters that the formatter returns for the [filters] entry of
    a map, if the map has one that is not removed. *)
Definition formatter_output (formatText : value -> outcome value)
    (filters : props) (params : value) : Prop :=
  exists vf, ("filters", vf) ∈ filters
             /\ removes_parameter vf = false
             /\ formatText vf = Ret params.

(** What [setQuery] accepts as an object of parameters. *)
Definition accepted_params (params : value) : bool :=
  match params with
  | VStr _ | VObj _ _ | VArr _ | VNull => true
  | _ => false
  end.

(** [data[name] = ...] for every parameter that the formatter returns. *)
Definition params_data (params : value) (data : props) : outcome props :=
  match params with
  | VStr name => Ret (URI.data_set name VNull data)
  | VObj _ ps => Ret (fold_left (fun d kv => URI.data_set kv.1 kv.2 d) ps data)
  | VArr l =>
      Ret (fold_left (fun d kv => URI.data_set kv.1 kv.2 d)
             (imap (fun i v => (decimal (Z.of_nat i), v)) l) data)
  | VNull => Ret data
  | _ => Throw TypeError
  end.

(** The body of the loop of [addFiltersToLink] on the data of the query
    string. *)
Definition filter_data (host : Host) (formatText : value -> outcome value)
    (key : string) (v : value) (data : props) : outcome props :=
  if removes_parameter v then Ret (URI.data_set key VUndefined data)
  else if String.eqb key "datetime" then
    s ← formatDatetimeQuery host v;
    Ret (URI.data_set key (VStr s) data)
  else if String.eqb key "bbox" && isArray v then
    Ret (URI.data_set key (VStr (join_array host "," v)) data)
  else if (String.eqb key "collections" || String.eqb key "ids") && isArray v then
    Ret (URI.data_set key (VStr (join_array host "," v)) data)
  else if String.eqb key "filters" then
    params ← formatText v;
    params_data params data
  else Ret (URI.data_set key (match v with VUndefined => VNull | _ => v end) data).

(** The data of the query string of a URI. *)
Definition query_data (url : URI.parts) : props :=
  URI.parseQuery (URI.text (URI.query url)).

(** What the rules of the loop promise for the parameter of a filter key
    with the value [v]. *)
Definition filter_rules (host : Host) (url : URI.parts) (k : string) (v : value)
    : Prop :=
  (removes_parameter v = true -> param k url = None)
  /\ (k = "datetime" -> removes_parameter v = false ->
      exists l, v = VArr l /\ param k url = Some (VStr (interval host l)))
  /\ (k = "bbox" \/ k = "collections" \/ k = "ids" ->
      forall l, v = VArr l -> removes_parameter v = false ->
                param k url = Some (VStr (join host "," l))).

(** The statement about the filters, read literally: for every link with
    a parseable [href] and every map of filters there is a result, and
    its query string follows the rules for every key of the map. *)
Definition every_filter_map_is_serialized : Prop :=
  forall (host : Host) (formatText : value -> outcome value)
         (href : string) (url0 : URI.parts) (filters : props),
    Obj.wf filters ->
    URI.parse href = Ret url0 ->
    exists url,
      add_filters host formatText url0 filters = Ret url
      /\ forall k v, Obj.lookup k filters = Some v -> filter_rules host url k v.

(** The statement about the other parameters, read literally: a
    parameter whose key is not in the map of filters is in the result
    what it was in the link. *)
Definition other_parameters_are_untouched : Prop :=
  forall (host : Host) (formatText : value -> outcome value)
         (href : string) (url0 url : URI.parts) (filters : props) (k : string),
    Obj.wf filters ->
    URI.parse href = Ret url0 ->
    add_filters host formatText url0 filters = Ret url ->
    k ∉ Obj.keys filters ->
    param k url = param k url0.

(** * The other helpers of [Utils] and the views that call them *)

(** ** Media types *)

Definition geojsonMediaType : string := "application/geo+json".

Definition stacMediaTypes : list string :=
  ["application/json"; geojsonMediaType; "text/json"].

(** [SameValueZero], the comparison of [Array.prototype.includes]: strict
    equality, except that [NaN] is the same as [NaN]. *)
Definition same_value_zero (a b : value) : bool :=
  strict_eq a b
  || match a, b with
     | VNum x, VNum y => is_nan x && is_nan y
     | _, _ => false
     end.

(** [list.includes(v)] *)
Definition includes (l : list value) (v : value) : bool :=
  existsb (fun element => same_value_zero v element) l.

(** [if (!Array.isArray(types)) types = [types]] *)
Definition listed (types : value) : list value :=
  match types with VArr l => l | _ => [types] end.

Definition isMediaType (type types allowEmpty : value) : bool :=
  let types := listed types in
  if truthy allowEmpty && negb (truthy type) then true
  else match type with
       | VStr s => includes types (VStr (Str.toLowerCase s))
       | _ => false
       end.

Definition isStacMediaType (type allowEmpty : value) : bool :=
  isMediaType type (VArr (VStr <$> stacMediaTypes)) allowEmpty.

(** ** Links by relation type *)

(** [{ href, rel }] *)
Definition createLink (href rel : value) : value :=
  obj [("href", href); ("rel", rel)].

(** [Utils.isObject(link) && Utils.hasText(link.href)] *)
Definition usable_link (link : value) : bool :=
  isObject link && hasText (get link "href").

(** [links.filter(p)] for a test that can raise *)
Fixpoint filter_links (p : value -> outcome bool) (links : list value)
    : outcome (list value) :=
  match links with
  | [] => Ret []
  | link :: rest =>
      keep ← p link;
      rest ← filter_links p rest;
      Ret (if (keep : bool) then link :: rest else rest)
  end.

Section Links.

Context (host : Host).

(** [rels.includes(v)].  An array has [Array.prototype.includes] and a
    string [String.prototype.includes], which searches for the printed
    form of [v]; on every other value of the model the call raises a
    [TypeError] ([undefined] and [null] have no properties, and
    [includes] is not a function on the others). *)
Definition rels_includes (rels v : value) : outcome bool :=
  match rels with
  | VArr l => Ret (includes l v)
  | VStr s => Ret (Str.includes s (ToString host v))
  | _ => Throw TypeError
  end.

Definition getLinksWithRels (links rels : value) : outcome value :=
  match links with
  | VArr l =>
      VArr <$> filter_links
                 (fun link =>
                    if isObject link && hasText (get link "href")
                    then rels_includes rels (get link "rel")
                    else Ret false) l
  | _ => Ret (VArr [])
  end.

Definition getLinksWithOtherRels (links rels : value) : outcome value :=
  match links with
  | VArr l =>
      VArr <$> filter_links
                 (fun link =>
                    if isObject link && hasText (get link "href")
                    then negb <$> rels_includes rels (get link "rel")
                    else Ret false) l
  | _ => Ret (VArr [])
  end.

End Links.

(** ** Values at a path *)

Section Paths.

Context (host : Host).

(** The names that a value inherits from its prototype chain
    ([Object.prototype], [Array.prototype], [Date.prototype]): they
    depend on the version of the language that the engine implements. *)
Context (inherited : value -> string -> bool).

(** [object[key]] on an array or an object.  Own properties come first;
    a property found on the prototype chain is a built-in, which is not a
    value of the model: the result is [None] then. *)
Definition read_property (object : value) (key : string) : option value :=
  match object with
  | VArr items =>
      match Obj.array_index key with
      | Some i =>
          match items !! N.to_nat i with
          | Some v => Some v
          | None => if inherited object key then None else Some VUndefined
          end
      | None =>
          if String.eqb key "length" then Some (VNum (num (Z.of_nat (length items))))
          else if inherited object key then None else Some VUndefined
      end
  | VObj _ ps =>
      match Obj.lookup key ps with
      | Some v => Some v
      | None => if inherited object key then None else Some VUndefined
      end
  | _ => Some VUndefined
  end.

(** [path[0]] as a property key *)
Definition first_key (path : list value) : string :=
  ToString host (default VUndefined (head path)).

(** [path] is an array of keys.  The result is [None] when a step reads
    an inherited property. *)
Fixpoint getValueFromObjectUsingPath (object : value) (path : list value)
    : option value :=
  if is_null object || negb (typeof_object object) then Some VUndefined
  else
    object ← read_property object (first_key path);
    match path with
    | _ :: ((_ :: _) as rest) =>
        if negb (is_undefined object)
        then getValueFromObjectUsingPath object rest
        else Some object
    | _ => Some object
    end.

End Paths.

(** ** Dates of the date picker *)

(** The clock of the machine: the current time and the offset of its
    time zone, in minutes, at a given time ([getTimezoneOffset]).  An
    offset is a whole number of minutes, less than a day. *)
Record TimeZone : Type := {
  current_time : Z;
  offset_at : Z -> Z;
  offset_bound : forall t, (Z.abs (offset_at t) <= 1440)%Z
}.

(** [TimeClip]: a time value is at most [8.64e15] milliseconds away from
    the epoch; beyond that the date is invalid. *)
Definition time_clip (t : Z) : option Z :=
  if (Z.abs t <=? 8640000000000000)%Z then Some t else None.

(** [new Date(t)] for a number, [NaN] when there is none *)
Definition new_Date (t : option Z) : value :=
  VObj (DateObj (t ≫= time_clip)) [].

Section Dates.

Context (zone : TimeZone).

(** [d.getTimezoneOffset()], [NaN] on an invalid date *)
Definition getTimezoneOffset (t : option Z) : option Z :=
  offset_at zone <$> t.

Definition dateFromUTC (dt : value) : value :=
  match dt with
  | VObj (DateObj t) _ =>
      let value := t in
      let offset := getTimezoneOffset value in
      new_Date (t ← value; o ← offset; Some (t + o * 60 * 1000)%Z)
  | _ => dt
  end.

Definition dateToUTC (dt : value) : value :=
  match dt with
  | VObj (DateObj t) _ =>
      let offset := offset_at zone (current_time zone) in
      new_Date (t ← t; Some (t - offset * 60 * 1000)%Z)
  | _ => dt
  end.

End Dates.

(** A zone for the examples: one hour east of Greenwich, and two hours
    from the last Sunday of March 2024 on; the time is a day in
    November 2023. *)
Definition sample_zone : TimeZone :=
  {| current_time := 1700000000000;
     offset_at := fun t => if (t <? 1711846800000)%Z then (-60)%Z else (-120)%Z;
     offset_bound := fun t =>
       ltac:(cbv beta; destruct (t <? 1711846800000)%Z; cbn; lia) |}.

(** ** Titles for links *)

Definition commonFileNames : list string := ["catalog"; "collection"; "item"].

(** [uri.authority()] *)
Definition authority (u : URI.parts) : string :=
  if URI.urn u then ""
  else if URI.present (URI.hostname u) then URI.buildAuthority u else "".

(** The bytes of a line terminator at the head of a string: line feed,
    carriage return, and the line and paragraph separators [U+2028] and
    [U+2029] in UTF-8. *)
Definition line_terminator (s : string) : bool :=
  match s with
  | String c rest =>
      Ascii.eqb c "010" || Ascii.eqb c "013"
      || (Ascii.eqb c "226"
          && match rest with
             | String d (String e _) =>
                 Ascii.eqb d "128" && (Ascii.eqb e "168" || Ascii.eqb e "169")
             | _ => false
             end)
  | EmptyString => false
  end.

(** No line terminator anywhere: what [.] of a regular expression can
    run over. *)
Fixpoint single_line (s : string) : bool :=
  match s with
  | EmptyString => true
  | String _ rest => negb (line_terminator s) && single_line rest
  end.

(** [\w] of a regular expression *)
Definition word_char (c : ascii) : bool :=
  Str.is_alnum c || Ascii.eqb c "_".

(** [name.replace(/^(.{1,})\.\w+$/, '$1')].  The part behind the dot
    has no dot, so the dot of a match is the last one of the string: the
    pattern matches when the text in front of it is not empty and has no
    line terminator and the text behind it is a non-empty run of word
    characters, and the match, the whole string, is replaced by the text
    in front of the dot. *)
Definition strip_extension (name : string) : string :=
  match Str.lastIndexOf "." name with
  | Some pos =>
      let stem := Str.take pos name in
      let extension := Str.drop (S pos) name in
      if negb (Str.is_empty stem) && single_line stem
         && negb (Str.is_empty extension) && Str.forall_chars word_char extension
      then stem else name
  | None => name
  end.

(** [s.replace(/^\//, '')] *)
Definition strip_leading_slash (s : string) : string :=
  if Str.startsWith s "/" then Str.drop 1 s else s.

(** The title once [URI(href)] has parsed the string [href]. *)
Definition title_of (href : string) (uri : URI.parts) (preferFileName : value)
    : string :=
  let auth := authority uri in
  let file := strip_extension (URI.filename uri) in
  let dir := strip_leading_slash (URI.directory uri) in
  if negb (Str.is_empty auth) && negb (Str.is_empty file) && negb (truthy preferFileName)
  then
    let path := strip_leading_slash (URI.get_path uri) in
    if String.eqb auth "doi.org" && Str.startsWith path "10."
    then "DOI " ++ path
    else file ++ " (" ++ auth ++ ")"
  else if negb (Str.is_empty file) && negb (URI.mem file commonFileNames)
  then file
  else if negb (Str.is_empty auth) then auth
  else if negb (Str.is_empty dir) then dir
  else href.

(** [URI(href)] takes a string and raises a [TypeError] on anything
    else; an object of parts and a DOM node are left out, as in
    [URI_new]. *)
Definition titleForHref (href preferFileName : value) : outcome string :=
  match href with
  | VStr s => uri ← URI.parse s; Ret (title_of s uri preferFileName)
  | _ => Throw TypeError
  end.

(** ** The list of items ([components/Items.vue]) *)

Module Items.

(** The props and the data of the component that its computed
    properties read.  [chunkSize] and [shownItems] are whole numbers. *)
Record state : Type := State {
  items : list value;
  api : bool;
  apiFilters : props;
  pagination : props;
  chunkSize : Z;
  shownItems : Z;
  sort : Z
}.

(** [data()] for the given props *)
Definition data (items : list value) (api : bool) (apiFilters pagination : props)
    (chunkSize : Z) : state :=
  State items api apiFilters pagination chunkSize chunkSize 0.

(** An array with an element or an object with a key of its own *)
Definition non_empty_collection (v : value) : bool :=
  match v with
  | VArr (_ :: _) | VObj _ (_ :: _) => true
  | _ => false
  end.

Definition hasMore (this : state) : bool :=
  (shownItems this <? Z.of_nat (length (items this)))%Z.

Definition hasFilters (this : state) : bool :=
  (1 <? length (List.filter
                  (fun filter => negb (is_null filter || (size filter =? 0)%nat))
                  (Obj.values (apiFilters this))))%nat.

(** [list.slice(0, end_)] *)
Definition slice0 (end_ : Z) (l : list value) : list value :=
  let len := Z.of_nat (length l) in
  let final := if (end_ <? 0)%Z then Z.max (len + end_) 0 else Z.min end_ len in
  take (Z.to_nat final) l.

Section Computed.

(** [(a, b) => STAC.getDisplayTitle(a).localeCompare(
    STAC.getDisplayTitle(b), this.uiLanguage)]: the titles come from the
    model of the catalog and their order from the collation of the
    machine. *)
Context (compare_titles : value -> value -> Z).

(** [list.sort(compare)]: the sort is stable, and [undefined] entries
    go to the end without being compared. *)
Fixpoint insert_sorted (x : value) (l : list value) : list value :=
  match l with
  | [] => [x]
  | y :: l' =>
      if (compare_titles x y <=? 0)%Z then x :: l
      else y :: insert_sorted x l'
  end.

Definition sorted (l : list value) : list value :=
  (foldr insert_sorted [] (List.filter (fun x => negb (is_undefined x)) l)
   ++ List.filter is_undefined l)%list.

Definition chunkedItems (this : state) : list value :=
  let items' :=
    if negb (sort this =? 0)%Z then
      let items' := sorted (items this) in
      if (sort this =? -1)%Z then rev items' else items'
    else items this in
  if negb (api this) && (chunkSize this <? Z.of_nat (length (items this)))%Z
  then slice0 (shownItems this) items'
  else items'.

End Computed.

(** Every entry of the list is followed by one that [le] allows behind
    it. *)
Fixpoint in_order (le : value -> value -> Prop) (l : list value) : Prop :=
  match l with
  | a :: rest =>
      match rest with
      | b :: _ => le a b
      | [] => True
      end /\ in_order le rest
  | [] => True
  end.

(** A comparison for the examples: by size. *)
Definition sample_compare (a b : value) : Z :=
  (Z.of_nat (size a) - Z.of_nat (size b))%Z.

Definition showPagination (this : state) : bool :=
  if api this then
    if hasFilters this then true
    else if (0 <? length (items this))%nat
    then existsb truthy (Obj.values (pagination this))
    else false
  else false.

Definition showMore (this : state) : state :=
  State (items this) (api this) (apiFilters this) (pagination this)
        (chunkSize this) (shownItems this + chunkSize this) (sort this).

End Items.

(** ** Notions used to state the properties of the deep merge *)

(** The source does not have the key. *)
Definition lacks (key : string) (source : value) : Prop :=
  match source with
  | VObj _ ps => key ∉ Obj.keys ps
  | _ => True
  end.

(** Where the merge of the entry [key: sv] has nothing left to do. *)
Definition settled (kind : objkind) (target : props) (kv : string * value)
    : Prop :=
  merge_key kind kv.1 kv.2 target = Some target.

(** ** Notions used to state what [noParams] gives *)

(** A character that starts neither a query string nor a fragment *)
Definition no_mark (c : ascii) : bool :=
  negb (Ascii.eqb c "?") && negb (Ascii.eqb c "#").

(** The scheme, the host and the port of a URI have no such character. *)
Definition plain_origin (u : URI.parts) : Prop :=
  Str.forall_chars no_mark (URI.text (URI.protocol u)) = true
  /\ Str.forall_chars no_mark (URI.text (URI.hostname u)) = true
  /\ Str.forall_chars no_mark (URI.text (URI.port u)) = true.

(** ** Notions used to state what the image test looks at *)

(** A visible ASCII character other than [?] and [#]: the text of a URL
    in front of its query string. *)
Definition url_text (c : ascii) : bool :=
  Str.in_range 33 126 c && no_mark c.

(** ** Notions used to state how plain filters are written *)

(** A non-empty string, a finite number or a boolean: a value that the
    loop of [addFiltersToLink] does not remove and hands to [setQuery]
    as it is. *)
Definition plain_value (v : value) : bool :=
  match v with
  | VStr s => negb (Str.is_empty s)
  | VNum n => isFinite n
  | VBool _ => true
  | _ => false
  end.

(** * Properties *)

(** ** Link selection *)

Lemma hasText_spec v : hasText v = true <-> exists h, v = VStr h /\ h <> "".
Proof.
  split.
  - destruct v as [| | | |s| |]; simpl; try discriminate.
    destruct s; simpl; [discriminate|]. intros _. eexists; split; [reflexivity|discriminate].
  - intros (h & -> & Hh). destruct h; [contradiction|reflexivity].
Qed.

Lemma strict_eq_string v r : strict_eq v (VStr r) = true <-> v = VStr r.
Proof.
  split.
  - destruct v; simpl; try discriminate. intros H%String.eqb_eq. by subst.
  - intros ->. simpl. apply String.eqb_refl.
Qed.

Lemma link_has_rel_spec r x :
  link_has_rel (VStr r) x = true <-> well_formed_link_with_rel r x.
Proof.
  unfold link_has_rel, well_formed_link_with_rel. split.
  - intros H. apply andb_prop in H as [H Hrel]. apply andb_prop in H as [Hobj Htext].
    destruct x as [| | | | | |k ps]; try discriminate.
    apply hasText_spec in Htext as (h & Hh & Hne).
    apply strict_eq_string in Hrel.
    simpl in Hh, Hrel.
    destruct (Obj.lookup "href" ps) as [vh|] eqn:E1; simpl in Hh; [|discriminate].
    destruct (Obj.lookup "rel" ps) as [vr|] eqn:E2; simpl in Hrel; [|discriminate].
    subst. by exists k, ps, h.
  - intros (k & ps & h & -> & Hh & Hne & Hr). simpl. rewrite Hh, Hr. simpl.
    rewrite String.eqb_refl. destruct h; [contradiction|reflexivity].
Qed.

(** C5.  On a list of links and a relation given as a string,
    [getLinkWithRel] returns the first entry that is an object with a
    non-empty string [href] and whose [rel] is exactly that string:
    entries in front of it that are not of this form are passed over, and
    the position in the list decides.  When no entry qualifies the result
    is [undefined]; when [links] is not an array it is [null]. *)
Theorem getLinkWithRel_first_match (links : list value) (r : string) :
  (exists before x after,
      links = (before ++ x :: after)%list
      /\ Forall (fun y => ~ well_formed_link_with_rel r y) before
      /\ well_formed_link_with_rel r x
      /\ getLinkWithRel (VArr links) (VStr r) = x)
  \/ (Forall (fun y => ~ well_formed_link_with_rel r y) links
      /\ getLinkWithRel (VArr links) (VStr r) = VUndefined).
Proof.
  unfold getLinkWithRel.
  induction links as [|y links IH]; simpl.
  - right. split; [constructor|reflexivity].
  - destruct (link_has_rel (VStr r) y) eqn:E.
    + left. exists [], y, links. simpl. repeat split; auto.
      by apply link_has_rel_spec.
    + assert (Hy : ~ well_formed_link_with_rel r y).
      { intros H%link_has_rel_spec. congruence. }
      destruct IH as [(before & x & after & -> & Hb & Hx & Hr)|[Hall Hr]].
      * left. exists (y :: before), x, after. repeat split; auto.
      * right. split; auto.
Qed.

(** ** Objects as association lists *)

Section ObjFacts.

Implicit Types (k : string) (v : value) (ps : props).

Lemma lookup_replace_eq k v ps :
  Obj.has k ps = true -> Obj.lookup k (Obj.replace k v ps) = Some v.
Proof.
  unfold Obj.has. induction ps as [|[k' v'] ps IH]; simpl; [discriminate|].
  destruct (String.eqb k k') eqn:E; simpl; rewrite ?String.eqb_refl, ?E; auto.
Qed.

Lemma lookup_replace_ne k k' v ps :
  k <> k' -> Obj.lookup k' (Obj.replace k v ps) = Obj.lookup k' ps.
Proof.
  intros Hne. induction ps as [|[k1 v1] ps IH]; simpl; [reflexivity|].
  destruct (String.eqb k k1) eqn:E; simpl.
  - apply String.eqb_eq in E. subst k1.
    assert (String.eqb k' k = false) as -> by (apply String.eqb_neq; congruence).
    reflexivity.
  - destruct (String.eqb k' k1); auto.
Qed.

Lemma lookup_add_new_eq k v ps :
  Obj.lookup k ps = None -> Obj.lookup k (Obj.add_new k v ps) = Some v.
Proof.
  induction ps as [|[k' v'] ps IH]; simpl.
  - by rewrite String.eqb_refl.
  - destruct (String.eqb k k') eqn:E; [discriminate|]. intros H.
    destruct (Obj.comes_before k k'); simpl.
    + by rewrite String.eqb_refl.
    + rewrite E. auto.
Qed.

Lemma lookup_add_new_ne k k' v ps :
  k <> k' -> Obj.lookup k' (Obj.add_new k v ps) = Obj.lookup k' ps.
Proof.
  intros Hne. induction ps as [|[k1 v1] ps IH]; simpl.
  - assert (String.eqb k' k = false) as -> by (apply String.eqb_neq; congruence).
    reflexivity.
  - destruct (Obj.comes_before k k1); simpl.
    + assert (String.eqb k' k = false) as -> by (apply String.eqb_neq; congruence).
      reflexivity.
    + destruct (String.eqb k' k1); auto.
Qed.

Lemma lookup_set_eq k v ps : Obj.lookup k (Obj.set k v ps) = Some v.
Proof.
  unfold Obj.set. destruct (Obj.has k ps) eqn:E.
  - by apply lookup_replace_eq.
  - apply lookup_add_new_eq. unfold Obj.has in E.
    by destruct (Obj.lookup k ps).
Qed.

Lemma lookup_set_ne k k' v ps :
  k <> k' -> Obj.lookup k' (Obj.set k v ps) = Obj.lookup k' ps.
Proof.
  intros Hne. unfold Obj.set. destruct (Obj.has k ps).
  - by apply lookup_replace_ne.
  - by apply lookup_add_new_ne.
Qed.

Lemma lookup_set k k' v ps :
  Obj.lookup k' (Obj.set k v ps)
  = if String.eqb k k' then Some v else Obj.lookup k' ps.
Proof.
  destruct (String.eqb k k') eqn:E.
  - apply String.eqb_eq in E. subst. apply lookup_set_eq.
  - apply String.eqb_neq in E. by apply lookup_set_ne.
Qed.

Lemma update_lookup_eq f k v ps ps' :
  Obj.update f k ps = Some ps' -> Obj.lookup k ps = Some v ->
  exists v', f v = Some v' /\ Obj.lookup k ps' = Some v'.
Proof.
  revert ps'. induction ps as [|[k' v0] ps IH]; intros ps'; [done|].
  cbn [Obj.update Obj.lookup]. destruct (String.eqb k k') eqn:E.
  - intros Hup [= ->]. destruct (f v) as [v'|]; [|done].
    injection Hup as <-. exists v'. split; [done|].
    cbn [Obj.lookup]. by rewrite E.
  - intros Hup Hk. destruct (Obj.update f k ps) as [ps1|]; [|done].
    injection Hup as <-. destruct (IH ps1 eq_refl Hk) as (v' & Hf & Hl).
    exists v'. split; [done|]. cbn [Obj.lookup]. by rewrite E.
Qed.

Lemma update_lookup_ne f k k' ps ps' :
  Obj.update f k ps = Some ps' -> k <> k' ->
  Obj.lookup k' ps' = Obj.lookup k' ps.
Proof.
  intros Hup Hne. revert ps' Hup.
  induction ps as [|[k1 v1] ps IH]; intros ps'; cbn [Obj.update].
  - by intros [= <-].
  - destruct (String.eqb k k1) eqn:E.
    + apply String.eqb_eq in E as <-.
      destruct (f v1) as [v'|]; [|done]. intros [= <-]. cbn [Obj.lookup].
      assert (String.eqb k' k = false) as -> by (apply String.eqb_neq; congruence).
      reflexivity.
    + destruct (Obj.update f k ps) as [ps1|]; [|done]. intros [= <-].
      cbn [Obj.lookup]. destruct (String.eqb k' k1); [done|]. by apply IH.
Qed.

Lemma update_missing f k ps :
  Obj.lookup k ps = None -> Obj.update f k ps = Some ps.
Proof.
  induction ps as [|[k' v'] ps IH]; [done|]. cbn [Obj.update Obj.lookup].
  destruct (String.eqb k k'); [done|]. intros H. by rewrite IH.
Qed.

Lemma update_result f k v ps :
  Obj.lookup k ps = Some v ->
  Obj.update f k ps = (fun v' => Obj.replace k v' ps) <$> f v.
Proof.
  induction ps as [|[k' v0] ps IH]; [done|]. cbn [Obj.update Obj.lookup Obj.replace].
  destruct (String.eqb k k') eqn:E.
  - intros [= ->]. apply String.eqb_eq in E as <-. by destruct (f v).
  - intros H. rewrite IH by done. by destruct (f v).
Qed.

Lemma lookup_None_keys k ps : Obj.lookup k ps = None <-> k ∉ Obj.keys ps.
Proof.
  unfold Obj.keys. induction ps as [|[k' v'] ps IH]; simpl.
  - split; [intros _; apply not_elem_of_nil|reflexivity].
  - rewrite not_elem_of_cons. destruct (String.eqb k k') eqn:E.
    + apply String.eqb_eq in E. split; [discriminate|]. intros [? _]. contradiction.
    + apply String.eqb_neq in E. rewrite IH. tauto.
Qed.

Lemma lookup_Some_keys k v ps : Obj.lookup k ps = Some v -> k ∈ Obj.keys ps.
Proof.
  intros H. destruct (decide (k ∈ Obj.keys ps)) as [|Hn]; [done|].
  apply lookup_None_keys in Hn. congruence.
Qed.

End ObjFacts.

(** ** Deep merge *)

Ltac solve_wf := unfold Obj.wf, Obj.keys; compute_done.

Section MergeFacts.

Implicit Types (k key : string) (v sv : value) (ps sps tps : props)
  (kind : objkind).

Lemma mergeInto_obj kind kind' tps sps :
  mergeInto (VObj kind tps) (VObj kind' sps)
  = VObj kind <$> merge_props kind sps tps.
Proof. reflexivity. Qed.

Lemma merge_props_cons kind key sv rest tps :
  merge_props kind ((key, sv) :: rest) tps
  = merge_key kind key sv tps ≫= merge_props kind rest.
Proof. reflexivity. Qed.

Lemma mergeInto_not_object target source :
  isObject target = false -> mergeInto target source = Some target.
Proof. destruct target, source; simpl; congruence. Qed.

Lemma mergeInto_source_not_object target source :
  isObject source = false -> mergeInto target source = Some target.
Proof. destruct target, source; simpl; congruence. Qed.

Lemma mergeInto_isObject target source result :
  mergeInto target source = Some result -> isObject result = isObject target.
Proof.
  destruct target as [| | | | | |kind tps];
    try (rewrite mergeInto_not_object by done; by intros [= <-]).
  destruct source as [| | | | | |skind sps];
    try (rewrite mergeInto_source_not_object by done; by intros [= <-]).
  rewrite mergeInto_obj. destruct (merge_props kind sps tps); [|done].
  by intros [= <-].
Qed.

Lemma mergeDeep_app target sources sources' :
  mergeDeep target (sources ++ sources')
  = mergeDeep target sources ≫= fun mid => mergeDeep mid sources'.
Proof.
  revert target. induction sources as [|s ss IH]; intros target; [done|].
  cbn [mergeDeep app]. destruct (mergeInto target s) as [t|]; [|done].
  apply IH.
Qed.

Lemma mergeDeep_isObject target sources result :
  mergeDeep target sources = Some result -> isObject result = isObject target.
Proof.
  revert target. induction sources as [|s ss IH]; intros target; cbn [mergeDeep].
  - by intros [= <-].
  - destruct (mergeInto target s) as [t|] eqn:E; [|done]. cbn. intros H.
    rewrite (IH _ H). by apply (mergeInto_isObject _ s).
Qed.

Lemma read_member_lookup kind key ps ps' :
  Obj.lookup key ps = Obj.lookup key ps' ->
  read_member kind key ps = read_member kind key ps'.
Proof. unfold read_member. by intros ->. Qed.

Lemma assign_member_lookup_ne kind key key' v target target' :
  assign_member kind key v target = Some target' -> key <> key' ->
  Obj.lookup key' target' = Obj.lookup key' target.
Proof.
  unfold assign_member. intros H Hne.
  destruct (read_member kind key target);
    try (injection H as <-; by apply lookup_set_ne).
  destruct (typeof_object v); [done|]. by injection H as <-.
Qed.

Lemma merge_key_lookup_ne kind key key' sv target target' :
  merge_key kind key sv target = Some target' -> key <> key' ->
  Obj.lookup key' target' = Obj.lookup key' target.
Proof.
  unfold merge_key. intros H Hne. destruct (isObject sv).
  - destruct (read_member kind key target) as [tv| | | |]; try done.
    + rewrite (update_lookup_ne _ _ _ _ _ H Hne).
      destruct (truthy tv); [done|]. by apply lookup_set_ne.
    + by injection H as <-.
    + rewrite (update_lookup_ne _ _ _ _ _ H Hne). by apply lookup_set_ne.
  - by apply (assign_member_lookup_ne kind key key' sv).
Qed.

Lemma merge_props_other kind key entries target result :
  key ∉ Obj.keys entries ->
  merge_props kind entries target = Some result ->
  Obj.lookup key result = Obj.lookup key target.
Proof.
  revert target. induction entries as [|[k sv] rest IH]; intros target Hk.
  - by intros [= <-].
  - unfold Obj.keys in Hk. rewrite fmap_cons in Hk.
    apply not_elem_of_cons in Hk as [Hne Hk]. rewrite merge_props_cons.
    destruct (merge_key kind k sv target) as [t|] eqn:E; [|done]. cbn.
    intros H. rewrite (IH _ Hk H).
    apply (merge_key_lookup_ne kind k key sv); [done|]. cbn in Hne. congruence.
Qed.

(** The entry [key: sv] of the source is merged into a target that holds
    under [key] what it held at the start, and what the result holds
    there is what this step leaves. *)
Lemma merge_props_at kind key sv entries target result :
  Obj.wf entries ->
  Obj.lookup key entries = Some sv ->
  merge_props kind entries target = Some result ->
  exists before after,
    Obj.lookup key before = Obj.lookup key target
    /\ merge_key kind key sv before = Some after
    /\ Obj.lookup key result = Obj.lookup key after.
Proof.
  revert target. induction entries as [|[k v] rest IH]; intros target Hwf Hk; [done|].
  unfold Obj.wf, Obj.keys in Hwf. rewrite fmap_cons in Hwf.
  apply NoDup_cons in Hwf as [Hnotin Hwf]. rewrite merge_props_cons.
  destruct (merge_key kind k v target) as [t|] eqn:E; [|done]. cbn.
  intros H. cbn [Obj.lookup] in Hk. destruct (String.eqb key k) eqn:Ek.
  - apply String.eqb_eq in Ek as ->. injection Hk as ->.
    exists target, t. split; [done|]. split; [done|].
    by apply (merge_props_other kind k rest).
  - apply String.eqb_neq in Ek.
    destruct (IH t Hwf Hk H) as (before & after & Hb & Hm & Hr).
    exists before, after. split; [|done]. rewrite Hb.
    apply (merge_key_lookup_ne kind k key v); [done|congruence].
Qed.

Lemma deep_wf_lookup kind k v ps :
  deep_wf (VObj kind ps) -> Obj.lookup k ps = Some v ->
  Obj.wf ps /\ deep_wf v.
Proof.
  cbn [deep_wf]. intros [Hnd Hall] Hk. split; [done|]. clear Hnd.
  induction ps as [|[k' v'] ps IH]; [done|]. destruct Hall as [Hv Hall].
  cbn [Obj.lookup] in Hk. destruct (String.eqb k k'); [by injection Hk as <-|].
  by apply IH.
Qed.

Lemma leaf_at_cons k rest kind ps leaf :
  leaf_at (k :: rest) (VObj kind ps) = Some leaf ->
  exists x, Obj.lookup k ps = Some x
            /\ match rest with
               | [] => isObject x = false /\ leaf = x
               | _ :: _ => isObject x = true /\ leaf_at rest x = Some leaf
               end.
Proof.
  cbn [leaf_at]. destruct (Obj.lookup k ps) as [x|]; [|done]. cbn.
  intros H. exists x. split; [done|]. destruct rest as [|k' rest].
  - destruct (isObject x); [done|]. by injection H as <-.
  - split; [|done]. by destruct x.
Qed.

(** The leaf of a source at the end of an open path is what the target
    holds there after the merge. *)
Lemma mergeInto_leaf path : forall source target result leaf,
  deep_wf source ->
  leaf_at path source = Some leaf ->
  open_path path target = true ->
  mergeInto target source = Some result ->
  get_in result path = leaf.
Proof.
  induction path as [|k rest IH]; intros source target result leaf Hwf Hleaf Hopen Hrun;
    [done|].
  destruct source as [| | | | | |skind sps]; try done.
  destruct target as [| | | | | |kind tps]; try done.
  apply leaf_at_cons in Hleaf as (x & Hx & Hrest).
  destruct (deep_wf_lookup _ _ _ _ Hwf Hx) as [Hwfs Hwfx].
  rewrite mergeInto_obj in Hrun.
  destruct (merge_props kind sps tps) as [rps|] eqn:Hprops; [|done].
  injection Hrun as <-.
  destruct (merge_props_at kind k x sps tps rps Hwfs Hx Hprops)
    as (before & after & Hb & Hkey & Hr).
  cbn [get_in get]. rewrite Hr. clear Hr Hprops.
  cbn [open_path] in Hopen.
  rewrite <- (read_member_lookup kind k before tps Hb) in Hopen.
  unfold merge_key in Hkey. destruct rest as [|k' rest].
  - destruct Hrest as [Hobj ->]. rewrite Hobj in Hkey.
    unfold assign_member in Hkey. cbn [get_in].
    destruct (read_member kind k before); try done;
      injection Hkey as <-; by rewrite lookup_set_eq.
  - destruct Hrest as [Hobj Hleaf]. rewrite Hobj in Hkey.
    unfold read_member in Hkey, Hopen.
    destruct (Obj.lookup k before) as [tv|] eqn:Hown.
    + destruct (truthy tv).
      * destruct (update_lookup_eq _ _ _ _ _ Hkey Hown) as (v' & Hf & ->).
        by apply (IH x tv).
      * destruct (update_lookup_eq _ _ (obj []) _ _ Hkey (lookup_set_eq _ _ _))
          as (v' & Hf & ->).
        by apply (IH x (obj [])).
    + destruct (String.eqb k "__proto__"); [done|].
      destruct (URI.mem k URI.object_prototype_names); [done|].
      destruct kind; [|done].
      destruct (update_lookup_eq _ _ (obj []) _ _ Hkey (lookup_set_eq _ _ _))
        as (v' & Hf & ->).
      by apply (IH x (obj [])).
Qed.

(** *** The merges that stay in the model *)

Lemma dateless_obj ps :
  dateless (obj ps) = forallb (fun kv => dateless kv.2) ps.
Proof.
  cbn [dateless]. induction ps as [|[k v] ps IH]; [done|].
  cbn [forallb snd]. by rewrite IH.
Qed.

Lemma no_proto_key_obj kind ps :
  no_proto_key (VObj kind ps)
  = forallb (fun kv => negb (String.eqb kv.1 "__proto__") && no_proto_key kv.2) ps.
Proof.
  cbn [no_proto_key]. induction ps as [|[k v] ps IH]; [done|].
  cbn [forallb fst snd]. by rewrite IH.
Qed.

Lemma dateless_replace k v ps :
  dateless v = true -> forallb (fun kv => dateless kv.2) ps = true ->
  forallb (fun kv => dateless kv.2) (Obj.replace k v ps) = true.
Proof.
  intros Hv. induction ps as [|[k' v'] ps IH]; [done|].
  cbn [forallb Obj.replace snd]. intros [H1 H2]%andb_prop.
  destruct (String.eqb k k'); cbn [forallb snd].
  - by rewrite Hv, H2.
  - by rewrite H1, IH.
Qed.

Lemma dateless_add_new k v ps :
  dateless v = true -> forallb (fun kv => dateless kv.2) ps = true ->
  forallb (fun kv => dateless kv.2) (Obj.add_new k v ps) = true.
Proof.
  intros Hv. induction ps as [|[k' v'] ps IH]; cbn [forallb Obj.add_new snd].
  - by rewrite Hv.
  - intros H. destruct (Obj.comes_before k k'); cbn [forallb snd].
    + by rewrite Hv, H.
    + apply andb_prop in H as [H1 H2]. by rewrite H1, IH.
Qed.

Lemma dateless_set k v ps :
  dateless v = true -> forallb (fun kv => dateless kv.2) ps = true ->
  forallb (fun kv => dateless kv.2) (Obj.set k v ps) = true.
Proof.
  intros. unfold Obj.set. destruct (Obj.has k ps);
    [by apply dateless_replace|by apply dateless_add_new].
Qed.

Lemma dateless_lookup k v ps :
  forallb (fun kv => dateless kv.2) ps = true -> Obj.lookup k ps = Some v ->
  dateless v = true.
Proof.
  induction ps as [|[k' v'] ps IH]; [done|]. cbn [forallb Obj.lookup snd].
  intros [H1 H2]%andb_prop. destruct (String.eqb k k'); [by intros [= <-]|].
  by apply IH.
Qed.

Lemma replace_set k v v' ps :
  Obj.replace k v' (Obj.set k v ps) = Obj.set k v' ps.
Proof.
  unfold Obj.set. destruct (Obj.has k ps) eqn:E.
  - clear E. induction ps as [|[k1 v1] ps IH]; [done|]. cbn [Obj.replace].
    destruct (String.eqb k k1) eqn:E1; cbn [Obj.replace].
    + by rewrite String.eqb_refl.
    + by rewrite E1, IH.
  - unfold Obj.has in E. destruct (Obj.lookup k ps) eqn:El; [done|]. clear E.
    induction ps as [|[k1 v1] ps IH]; cbn [Obj.add_new Obj.replace].
    + by rewrite String.eqb_refl.
    + cbn [Obj.lookup] in El. destruct (String.eqb k k1) eqn:E1; [done|].
      destruct (Obj.comes_before k k1); cbn [Obj.replace].
      * by rewrite String.eqb_refl.
      * rewrite E1. by rewrite IH.
Qed.

(** A source without a key [__proto__] merges into a target without
    Dates: the merge has a result, again without Dates. *)
Lemma mergeInto_total : forall source target,
  no_proto_key source = true -> dateless target = true ->
  exists result, mergeInto target source = Some result
                 /\ dateless result = true.
Proof.
  fix IH 1. intros source target Hsource Htarget.
  destruct source as [| | | | | |skind sps];
    try (exists target; split; [by apply mergeInto_source_not_object|done]).
  destruct target as [| | | | | |kind tps];
    try (eexists; split; [by apply mergeInto_not_object|done]).
  destruct kind; [|done]. rewrite mergeInto_obj.
  rewrite no_proto_key_obj in Hsource. rewrite dateless_obj in Htarget.
  assert (Hall : Forall (fun kv : string * value =>
                           String.eqb kv.1 "__proto__" = false
                           /\ forall t, dateless t = true ->
                                exists r, mergeInto t kv.2 = Some r
                                          /\ dateless r = true) sps).
  { induction sps as [|[k v] sps IHsps]; [constructor|].
    cbn [forallb fst snd] in Hsource.
    apply andb_prop in Hsource as [[Hk Hv]%andb_prop Hrest].
    constructor; [|by apply IHsps]. cbn [fst snd]. split.
    - by destruct (String.eqb k "__proto__").
    - intros t Ht. exact (IH v t Hv Ht). }
  clear IH Hsource.
  enough (exists rps, merge_props Plain sps tps = Some rps
                      /\ forallb (fun kv => dateless kv.2) rps = true)
    as (rps & -> & Hr).
  { exists (obj rps). split; [done|]. by rewrite dateless_obj. }
  revert tps Htarget. induction Hall as [|[key sv] rest [Hkey Hsv] _ IHrest];
    intros tps Htarget.
  - by exists tps.
  - cbn [fst snd] in Hkey, Hsv. rewrite merge_props_cons.
    enough (exists t, merge_key Plain key sv tps = Some t
                      /\ forallb (fun kv => dateless kv.2) t = true)
      as (t & -> & Ht) by (by apply IHrest).
    unfold merge_key, assign_member, read_member. rewrite Hkey.
    destruct (isObject sv) eqn:Hobj.
    + destruct (Obj.lookup key tps) as [tv|] eqn:Hown.
      * destruct (truthy tv).
        -- destruct (Hsv tv (dateless_lookup _ _ _ Htarget Hown)) as (r & Hr & Hd).
           rewrite (update_result _ _ tv) by done. rewrite Hr.
           eexists. split; [reflexivity|]. by apply dateless_replace.
        -- destruct (Hsv (obj []) eq_refl) as (r & Hr & Hd).
           rewrite (update_result _ _ (obj [])) by apply lookup_set_eq.
           rewrite Hr. cbn [fmap option_fmap option_map]. rewrite replace_set.
           eexists. split; [reflexivity|]. by apply dateless_set.
      * destruct (URI.mem key URI.object_prototype_names); [by exists tps|].
        destruct (Hsv (obj []) eq_refl) as (r & Hr & Hd).
        rewrite (update_result _ _ (obj [])) by apply lookup_set_eq.
        rewrite Hr. cbn [fmap option_fmap option_map]. rewrite replace_set.
        eexists. split; [reflexivity|]. by apply dateless_set.
    + assert (Hd : dateless sv = true) by (by destruct sv).
      destruct (Obj.lookup key tps);
        [|destruct (URI.mem key URI.object_prototype_names)];
        (eexists; split; [reflexivity|by apply dateless_set]).
Qed.

Lemma mergeDeep_total sources : forall target,
  forallb no_proto_key sources = true -> dateless target = true ->
  exists result, mergeDeep target sources = Some result
                 /\ dateless result = true.
Proof.
  induction sources as [|s ss IH]; intros target Hs Ht; [by exists target|].
  cbn [forallb] in Hs. apply andb_prop in Hs as [Hs Hss]. cbn [mergeDeep].
  destruct (mergeInto_total s target Hs Ht) as (t & -> & Hd). by apply IH.
Qed.

End MergeFacts.

(** The words of the statement about the order of the sources fail in
    three ways.  A truthy value that is not an object stays where it is,
    and the leaves that later sources hold below it are dropped; a leaf
    under the key [__proto__] is handed to the setter of the prototype,
    which ignores it; and under a name that every object inherits, such
    as [constructor], the merge finds a function and drops the objects of
    all sources. *)
Lemma later_source_can_lose :
  mergeDeep (obj [("a", VNum (num 5))])
    [obj [("a", obj [("b", VNum (num 1))])]; obj [("a", obj [("b", VNum (num 2))])]]
  = Some (obj [("a", VNum (num 5))])
  /\ mergeDeep (obj [])
       [obj [("__proto__", VNum (num 1))]; obj [("__proto__", VNum (num 5))]]
     = Some (obj [])
  /\ mergeDeep (obj [])
       [obj [("constructor", obj [("a", VNum (num 1))])];
        obj [("constructor", obj [("a", VNum (num 2))])]]
     = Some (obj [])
  /\ ~ later_source_always_wins.
Proof.
  split; [reflexivity|]. split; [reflexivity|]. split; [reflexivity|].
  intros H.
  specialize (H (obj []) [obj [("__proto__", VNum (num 1))]]
                (obj [("__proto__", VNum (num 5))]) ["__proto__"]
                (VNum (num 5)) (obj []) eq_refl).
  assert (Hwf : deep_wf (obj [("__proto__", VNum (num 5))])).
  { cbn. repeat split. apply NoDup_singleton. }
  specialize (H Hwf eq_refl eq_refl). discriminate H.
Qed.

(** C9 (amended).  [mergeDeep] merges its sources into the target one
    after the other, in the order of the arguments: merging a list of
    sources is merging its first part, then the rest into what that gave.
    A leaf that the last source holds at the end of a path of keys is
    what the result holds there, provided the path is open in what the
    earlier sources made of the target: along the path there are objects,
    falsy values or nothing, no truthy value of another kind and no
    inherited name.  For a key of the last source itself this asks only
    that the key is not [__proto__]: then its leaf wins whatever the
    target and the earlier sources held.  Sources without a key
    [__proto__] always merge into a target without Dates.  Merging the
    empty object changes nothing, and [mergeDeep({a:{b:1}}, {a:{c:2}})] is
    [{a:{b:1,c:2}}]. *)
Theorem mergeDeep_order_and_identity :
  (forall target sources sources',
      mergeDeep target (sources ++ sources')
      = mergeDeep target sources ≫= fun mid => mergeDeep mid sources')
  /\ (forall target sources source mid path leaf result,
        deep_wf source ->
        leaf_at path source = Some leaf ->
        mergeDeep target sources = Some mid ->
        open_path path mid = true ->
        mergeDeep target (sources ++ [source]) = Some result ->
        get_in result path = leaf)
  /\ (forall kind tps sources skind sps key v result,
        Obj.wf sps ->
        Obj.lookup key sps = Some v ->
        isObject v = false ->
        key <> "__proto__" ->
        mergeDeep (VObj kind tps) (sources ++ [VObj skind sps]) = Some result ->
        get result key = v)
  /\ (forall target sources,
        forallb no_proto_key sources = true -> dateless target = true ->
        exists result, mergeDeep target sources = Some result)
  /\ (forall t, mergeDeep t [obj []] = Some t)
  /\ mergeDeep (obj [("a", obj [("b", VNum (num 1))])])
               [obj [("a", obj [("c", VNum (num 2))])]]
     = Some (obj [("a", obj [("b", VNum (num 1)); ("c", VNum (num 2))])]).
Proof.
  split; [exact mergeDeep_app|]. split; [|split; [|split; [|split]]].
  - intros target sources source mid path leaf result Hwf Hleaf Hmid Hopen.
    rewrite mergeDeep_app, Hmid. cbn [mbind option_bind mergeDeep].
    destruct (mergeInto mid source) as [r|] eqn:Hrun; [|done]. intros [= <-].
    by apply (mergeInto_leaf path source mid).
  - intros kind tps sources skind sps key v result Hwf Hk Hv Hkey.
    rewrite mergeDeep_app.
    destruct (mergeDeep (VObj kind tps) sources) as [mid|] eqn:Hmid; [|done].
    pose proof (mergeDeep_isObject _ _ _ Hmid) as Hobj.
    destruct mid as [| | | | | |kind' tps']; try done.
    cbn [mbind option_bind mergeDeep]. rewrite mergeInto_obj.
    destruct (merge_props kind' sps tps') as [rps|] eqn:Hprops; [|done].
    intros [= <-].
    destruct (merge_props_at kind' key v sps tps' rps Hwf Hk Hprops)
      as (before & after & Hb & Hstep & Hr).
    cbn [get]. rewrite Hr. unfold merge_key, assign_member, read_member in Hstep.
    rewrite Hv in Hstep.
    assert (String.eqb key "__proto__" = false) as Hne by (by apply String.eqb_neq).
    rewrite Hne in Hstep.
    assert (after = Obj.set key v before) as ->.
    { destruct (Obj.lookup key before); [congruence|].
      destruct (URI.mem key URI.object_prototype_names); [congruence|].
      destruct kind'; congruence. }
    by rewrite lookup_set_eq.
  - intros target sources Hs Ht.
    destruct (mergeDeep_total sources target Hs Ht) as (r & Hr & _). by exists r.
  - intros t. by destruct t as [| | | | | |[]].
  - reflexivity.
Qed.

Lemma mergeDeep_later_source_wins_witness :
  get_in (obj [("a", obj [("b", VStr "z"); ("c", VNull)])]) ["a"; "b"] = VStr "z".
Proof.
  apply (proj1 (proj2 mergeDeep_order_and_identity)
           (obj [("a", obj [("b", VStr "x")])])
           [obj [("a", obj [("b", VStr "y")])]]
           (obj [("a", obj [("b", VStr "z"); ("c", VNull)])])
           (obj [("a", obj [("b", VStr "y")])])
           ["a"; "b"] (VStr "z")).
  - cbn. repeat split; apply NoDup_ListNoDup; repeat constructor;
      cbn; intuition congruence.
  - reflexivity.
  - reflexivity.
  - reflexivity.
  - reflexivity.
Defined.

(** C10.  Take a key that a source holds with an object, and a merge of
    this source that stays in the model.  When what the target holds
    under the key, as an own or an inherited property, is truthy and not
    an object, the own properties of the target keep what they held
    there: the value stays, no property is created, and the object of the
    source is dropped.  When it is falsy (also: nothing at all), the key
    ends with a fresh object into which the object of the source has
    been merged.  The merge stays in the model when no key of the source
    is [__proto__] and the target holds no Date. *)
Theorem mergeDeep_object_onto_scalar :
  (forall kind skind tps sps key sv result,
      Obj.wf sps ->
      Obj.lookup key sps = Some sv ->
      isObject sv = true ->
      mergeDeep (VObj kind tps) [VObj skind sps] = Some result ->
      (truthy_scalar (read_member kind key tps) = true ->
       Obj.lookup key (own_properties result) = Obj.lookup key tps)
      /\ (falsy (read_member kind key tps) = true ->
          exists merged,
            mergeDeep (obj []) [sv] = Some merged
            /\ Obj.lookup key (own_properties result) = Some merged))
  /\ (forall target source,
        no_proto_key source = true -> dateless target = true ->
        exists result, mergeDeep target [source] = Some result).
Proof.
  split.
  - intros kind skind tps sps key sv result Hwf Hk Hobj Hrun.
    cbn [mergeDeep] in Hrun. rewrite mergeInto_obj in Hrun.
    destruct (merge_props kind sps tps) as [rps|] eqn:Hprops; [|done].
    injection Hrun as <-. cbn [own_properties].
    destruct (merge_props_at kind key sv sps tps rps Hwf Hk Hprops)
      as (before & after & Hb & Hstep & ->).
    rewrite <- (read_member_lookup kind key before tps Hb). rewrite <- Hb.
    clear Hb Hprops. unfold merge_key in Hstep. rewrite Hobj in Hstep.
    unfold read_member in *.
    destruct (Obj.lookup key before) as [tv|] eqn:Hown; cbn [truthy_scalar falsy].
    + destruct (truthy tv) eqn:Htruthy; cbn [andb negb]; split; try done.
      * intros Hscalar. apply negb_true_iff in Hscalar.
        destruct (update_lookup_eq _ _ _ _ _ Hstep Hown) as (v' & Hf & ->).
        rewrite mergeInto_not_object in Hf by done. congruence.
      * intros _.
        destruct (update_lookup_eq _ _ (obj []) _ _ Hstep (lookup_set_eq _ _ _))
          as (v' & Hf & ->).
        exists v'. split; [|done]. cbn [mergeDeep]. by rewrite Hf.
    + destruct (String.eqb key "__proto__"); [done|].
      destruct (URI.mem key URI.object_prototype_names); cbn [truthy_scalar falsy].
      * split; [|done]. intros _. injection Hstep as <-. done.
      * destruct kind; [|done]. split; [done|]. intros _.
        destruct (update_lookup_eq _ _ (obj []) _ _ Hstep (lookup_set_eq _ _ _))
          as (v' & Hf & ->).
        exists v'. split; [|done]. cbn [mergeDeep]. by rewrite Hf.
  - intros target source Hs Ht.
    destruct (mergeDeep_total [source] target) as (r & Hr & _); [|done|by exists r].
    cbn [forallb]. by rewrite Hs.
Qed.

Lemma mergeDeep_object_onto_scalar_witness :
  Obj.lookup "a" [("a", VNum (num 5)); ("b", obj [("y", VNull)])]
  = Obj.lookup "a" [("a", VNum (num 5)); ("b", VNum (num 0))]
  /\ Obj.lookup "toString" [("a", VNum (num 5)); ("b", obj [("y", VNull)])]
     = Obj.lookup "toString" [("a", VNum (num 5)); ("b", VNum (num 0))]
  /\ exists merged,
       mergeDeep (obj []) [obj [("y", VNull)]] = Some merged
       /\ Obj.lookup "b" [("a", VNum (num 5)); ("b", obj [("y", VNull)])]
          = Some merged.
Proof.
  pose (tps := [("a", VNum (num 5)); ("b", VNum (num 0))]).
  pose (sps := [("a", obj [("x", VNull)]); ("b", obj [("y", VNull)]);
                ("toString", obj [("z", VNull)])]).
  pose (result := obj [("a", VNum (num 5)); ("b", obj [("y", VNull)])]).
  assert (Hwf : Obj.wf sps) by solve_wf.
  split; [|split].
  - exact (proj1 (proj1 mergeDeep_object_onto_scalar Plain Plain tps sps "a"
                    (obj [("x", VNull)]) result Hwf eq_refl eq_refl eq_refl)
                 eq_refl).
  - exact (proj1 (proj1 mergeDeep_object_onto_scalar Plain Plain tps sps "toString"
                    (obj [("z", VNull)]) result Hwf eq_refl eq_refl eq_refl)
                 eq_refl).
  - exact (proj2 (proj1 mergeDeep_object_onto_scalar Plain Plain tps sps "b"
                    (obj [("y", VNull)]) result Hwf eq_refl eq_refl eq_refl)
                 eq_refl).
Defined.

(** ** Strings *)

Section StrFacts.

Implicit Types (s p q : string) (c : ascii).

Lemma app_cons c p q : String c p ++ q = String c (p ++ q).
Proof. reflexivity. Qed.

Lemma app_empty_r s : s ++ "" = s.
Proof. induction s; [reflexivity|]. rewrite app_cons. congruence. Qed.

Lemma app_assoc_str p q r : (p ++ q) ++ r = p ++ (q ++ r).
Proof. induction p; [reflexivity|]. rewrite !app_cons. congruence. Qed.

Lemma substring_0_length s : String.substring 0 (String.length s) s = s.
Proof. induction s; simpl; congruence. Qed.

Lemma substring_app_r p q n :
  String.substring (String.length p) n (p ++ q) = String.substring 0 n q.
Proof. induction p; simpl; auto. Qed.

Lemma substring_app_l p q :
  String.substring 0 (String.length p) (p ++ q) = p.
Proof. induction p; simpl; [by destruct q|congruence]. Qed.

Lemma length_app p q :
  String.length (p ++ q) = String.length p + String.length q.
Proof. induction p; simpl; auto. Qed.

Lemma drop_app p q : Str.drop (String.length p) (p ++ q) = q.
Proof.
  unfold Str.drop. rewrite substring_app_r, length_app.
  replace (String.length p + String.length q - String.length p)
    with (String.length q) by lia.
  apply substring_0_length.
Qed.

Lemma drop_1_cons c s : Str.drop 1 (String c s) = s.
Proof.
  unfold Str.drop. cbn [String.length].
  replace (S (String.length s) - 1) with (String.length s) by lia.
  cbn [String.substring]. apply substring_0_length.
Qed.

Lemma take_app p q : Str.take (String.length p) (p ++ q) = p.
Proof. apply substring_app_l. Qed.

Lemma endsWith_app p q : Str.endsWith (p ++ q) q = true.
Proof.
  unfold Str.endsWith. rewrite length_app.
  replace (String.length p + String.length q - String.length q)
    with (String.length p) by lia.
  rewrite substring_app_r, substring_0_length, String.eqb_refl.
  rewrite andb_true_r. apply Nat.leb_le. lia.
Qed.

Lemma prefix_app p q : String.prefix p (p ++ q) = true.
Proof.
  induction p as [|c p IH]; simpl; [by destruct q|].
  destruct (ascii_dec c c); [done|contradiction].
Qed.

Lemma startsWith_app p q : Str.startsWith (p ++ q) p = true.
Proof. apply prefix_app. Qed.

Lemma prefix_split p s :
  String.prefix p s = true -> s = p ++ Str.drop (String.length p) s.
Proof.
  revert s. induction p as [|c p IH]; intros s.
  - intros _. unfold Str.drop. simpl. rewrite Nat.sub_0_r. by rewrite substring_0_length.
  - destruct s as [|d s]; simpl; [done|].
    destruct (ascii_dec c d) as [->|]; [|done].
    intros H. unfold Str.drop in *. simpl. rewrite app_cons. f_equal. by apply IH.
Qed.

(** Characters of a substring are characters of the string. *)
Lemma forall_chars_substring f n m s :
  Str.forall_chars f s = true ->
  Str.forall_chars f (String.substring n m s) = true.
Proof.
  revert n m. induction s as [|c s IH]; intros n m; simpl.
  - by destruct n, m.
  - intros [Hc Hs]%andb_prop. destruct n, m; simpl; auto.
    by rewrite Hc, IH.
Qed.

Lemma forall_chars_toLowerCase f s :
  (forall c, f c = true -> f (Str.lower_ascii c) = true) ->
  Str.forall_chars f s = true ->
  Str.forall_chars f (Str.toLowerCase s) = true.
Proof.
  intros Hf. induction s as [|c s IH]; simpl; [done|].
  intros [Hc Hs]%andb_prop. by rewrite Hf, IH.
Qed.

Lemma join_cons2 sep x y (l : list string) :
  Str.join sep (x :: y :: l) = x ++ sep ++ Str.join sep (y :: l).
Proof. reflexivity. Qed.

Lemma drop_S_app p c q : Str.drop (S (String.length p)) (p ++ String c q) = q.
Proof.
  replace (S (String.length p)) with (String.length (p ++ String c "")).
  - replace (p ++ String c q) with ((p ++ String c "") ++ q).
    + apply drop_app.
    + by rewrite app_assoc_str.
  - rewrite length_app. simpl. lia.
Qed.

End StrFacts.

(** ** Token search *)


Lemma lower_not_bracket c :
  not_bracket c = true -> not_bracket (Str.lower_ascii c) = true.
Proof.
  destruct c as [[] [] [] [] [] [] [] []]; vm_compute; congruence.
Qed.

Lemma closing_brackets_none s :
  Str.forall_chars not_bracket s = true -> Regex.closing_brackets s = 0.
Proof.
  destruct s as [|c s]; [reflexivity|]. simpl.
  intros [Hc _]%andb_prop. unfold not_bracket in Hc.
  destruct c as [[] [] [] [] [] [] [] []]; try reflexivity; discriminate.
Qed.

Lemma splitChars_none s :
  Str.forall_chars not_bracket s = true -> Regex.splitChars s = None.
Proof.
  intros H. unfold Regex.splitChars.
  destruct (Regex.class_char s) as [n|]; [|reflexivity].
  rewrite closing_brackets_none; [reflexivity|].
  by apply forall_chars_substring.
Qed.

Lemma scan_none s cur :
  Str.forall_chars not_bracket s = true ->
  Regex.scan Regex.splitChars s 0 cur
  = [string_of_list_ascii (rev cur ++ list_ascii_of_string s)].
Proof.
  revert cur. induction s as [|c s IH]; intros cur H.
  - simpl. by rewrite app_nil_r.
  - cbn [Regex.scan]. rewrite splitChars_none by done.
    simpl in H. apply andb_prop in H as [_ H].
    rewrite IH by done. simpl. by rewrite <- app_assoc.
Qed.

Lemma split_none s :
  Str.forall_chars not_bracket s = true ->
  Regex.split Regex.splitChars s = [s].
Proof.
  intros H. unfold Regex.split. rewrite scan_none by done. simpl.
  by rewrite string_of_list_ascii_of_string.
Qed.

(** C8.  The separator pattern of [search] matches a separator character
    only when one or more [']'] come right after it.  A search term
    without [']'] is therefore one single token, and on a target without
    [']'] the search is a plain substring test of the whole term, whatever
    [matchAll] is.  So [search("foo baz", "a foo value", false)] is false,
    where a search that splits the term on white space and punctuation
    finds the token [foo] and answers true.  [search("foo baz",
    "a foo value", true)] is false either way, and so is
    [search("foo bar", "a foo value", true)]: [bar] is not in the
    target. *)
Theorem search_does_not_tokenize :
  (forall term target and,
      term <> "" ->
      ascii_only term = true -> ascii_only target = true ->
      Str.forall_chars not_bracket term = true ->
      Str.forall_chars not_bracket target = true ->
      search (VStr term) (VStr target) and
      = Str.includes (Str.toLowerCase target) (Str.toLowerCase term))
  /\ (search (VStr "foo baz") (VStr "a foo value") false = false
      /\ search_as_specified "foo baz" "a foo value" false = true)
  /\ (search (VStr "foo baz") (VStr "a foo value") true = false
      /\ search_as_specified "foo baz" "a foo value" true = false)
  /\ (search (VStr "foo bar") (VStr "a foo value") true = false
      /\ search_as_specified "foo bar" "a foo value" true = false)
  /\ Regex.split Regex.splitChars "foo baz" = ["foo baz"]
  /\ Regex.split separators "foo baz" = ["foo"; "baz"].
Proof.
  split; [|by vm_compute].
  intros term target and Hne _ _ Hterm Htarget.
  unfold search. destruct term as [|c term]; [contradiction|].
  cbn [Str.is_empty]. cbv iota.
  rewrite split_none
    by (apply forall_chars_toLowerCase; [apply lower_not_bracket|done]).
  unfold Regex.replace. cbn [string_items omap Str.join String.concat].
  rewrite split_none by done. cbn [String.concat].
  destruct and; simpl; [apply andb_true_r|apply orb_false_r].
Qed.

Lemma search_does_not_tokenize_witness :
  search (VStr "foo bar") (VStr "foo and bar") false
  = Str.includes (Str.toLowerCase "foo and bar") (Str.toLowerCase "foo bar").
Proof.
  apply (proj1 search_does_not_tokenize);
    [discriminate|reflexivity|reflexivity|reflexivity|reflexivity].
Defined.

(** ** The base of a resolution is a directory *)

Section BaseDirectory.

Implicit Types (s p q : string) (c : ascii).

Lemma split_nonempty c s : Str.split c s <> [].
Proof.
  destruct s as [|d s]; [discriminate|]. cbn [Str.split].
  destruct (Ascii.eqb d c); [discriminate|]. by destruct (Str.split c s).
Qed.

Lemma split_snoc c s :
  Str.split c (s ++ String c "") = (Str.split c s ++ [""])%list.
Proof.
  induction s as [|d s IH].
  - change ("" ++ String c "") with (String c ""). cbn [Str.split].
    by rewrite Ascii.eqb_refl.
  - rewrite app_cons. cbn [Str.split]. destruct (Ascii.eqb d c); [by rewrite IH|].
    rewrite IH. pose proof (split_nonempty c s). by destruct (Str.split c s).
Qed.

Lemma recode_segments_snoc enc (l : list string) l' :
  enc "" = "" ->
  URI.recode_segments enc (l ++ [""]) = Ret l' ->
  exists l0, URI.recode_segments enc l = Ret l0 /\ l' = (l0 ++ [""])%list
             /\ length l0 = length l.
Proof.
  intros Henc. revert l'. induction l as [|x l IH]; intros l'.
  - cbn. rewrite Henc. intros [= <-]. by exists [].
  - cbn [app URI.recode_segments]. destruct (Pct.decode x) as [dx|]; [|discriminate].
    cbn [mbind outcome_bind].
    destruct (URI.recode_segments enc (l ++ [""])) as [r|] eqn:E; [|discriminate].
    cbn [mbind outcome_bind]. intros [= <-].
    destruct (IH r eq_refl) as (l0 & -> & -> & Hlen).
    exists (enc dx :: l0). cbn. by rewrite Hlen.
Qed.

Lemma join_snoc_empty sep (l : list string) :
  l <> [] -> Str.join sep (l ++ [""]) = Str.join sep l ++ sep.
Proof.
  induction l as [|x l IH]; [done|]. intros _.
  destruct l as [|y l].
  - cbn. by rewrite app_empty_r.
  - change (Str.join sep ((x :: y :: l) ++ [""]))
      with (x ++ sep ++ Str.join sep ((y :: l) ++ [""])).
    rewrite IH by discriminate. rewrite join_cons2.
    by rewrite !app_assoc_str.
Qed.

Lemma recodePath_slash p q :
  URI.recodePath (p ++ "/") = Ret q -> exists q0, q = q0 ++ "/".
Proof.
  unfold URI.recodePath. rewrite split_snoc.
  destruct (URI.recode_segments URI.encodePathSegment (Str.split "/" p ++ [""]))
    as [l'|] eqn:E; [|discriminate].
  intros [= <-].
  apply recode_segments_snoc in E as (l0 & _ & -> & Hlen); [|reflexivity].
  exists (Str.join "/" l0). apply join_snoc_empty.
  intros ->. pose proof (split_nonempty "/" p). by destruct (Str.split "/" p).
Qed.

Lemma lastIndexOf_snoc c s : Str.lastIndexOf c (s ++ String c "") = Some (String.length s).
Proof.
  induction s as [|d s IH].
  - change ("" ++ String c "") with (String c ""). cbn [Str.lastIndexOf String.length].
    by rewrite Ascii.eqb_refl.
  - rewrite app_cons. cbn [Str.lastIndexOf String.length]. by rewrite IH.
Qed.

Lemma is_empty_app_cons s c t : Str.is_empty (s ++ String c t) = false.
Proof. by destruct s. Qed.

(** A path that ends in [/] has no file name: all of it is directory. *)
Lemma directory_of_slash_path (u : URI.parts) q0 :
  URI.urn u = false ->
  URI.path u = q0 ++ "/" ->
  URI.filename u = ""
  /\ URI.directory u = (if Str.is_empty q0 then "/" else q0).
Proof.
  intros Hurn Hpath.
  destruct q0 as [|c0 q0].
  { unfold URI.filename, URI.directory. rewrite Hurn, Hpath. by split. }
  set (q := String c0 q0) in *.
  assert (Hne : String.eqb (q ++ "/") "/" = false).
  { apply String.eqb_neq. subst q. rewrite app_cons. intros [= -> H]. by destruct q0. }
  assert (Hfile : URI.filename u = "").
  { unfold URI.filename. rewrite Hurn, Hpath, is_empty_app_cons, Hne.
    cbn [orb]. rewrite lastIndexOf_snoc. apply drop_S_app. }
  split; [done|].
  unfold URI.directory. rewrite Hurn, Hfile, Hpath, is_empty_app_cons, Hne.
  cbn [andb]. unfold Str.substring. rewrite length_app. cbn [String.length].
  replace (Z.to_nat _) with 0 by lia.
  replace (Z.to_nat _) with (String.length q) by lia.
  fold (Str.take (String.length q) (q ++ "/")). rewrite take_app.
  done.
Qed.

(** Once [/] is appended, the whole former path of the base is its
    directory. *)
Lemma path_set_directory (u u' : URI.parts) p :
  URI.urn u = false ->
  URI.path_set (p ++ "/") u = Ret u' ->
  URI.filename u' = ""
  /\ exists dir, URI.recodePath (p ++ "/") = Ret (dir ++ "/")
                 /\ URI.path u' = dir ++ "/"
                 /\ URI.directory u' = (if Str.is_empty dir then "/" else dir).
Proof.
  intros Hurn. unfold URI.path_set. rewrite Hurn, is_empty_app_cons.
  destruct (URI.recodePath (p ++ "/")) as [q|] eqn:E; [|discriminate].
  cbn [mbind outcome_bind]. intros [= <-].
  destruct (recodePath_slash _ _ E) as [dir ->].
  destruct (directory_of_slash_path (URI.set_path (dir ++ "/") u) dir) as [Hf Hd];
    [done|done|].
  split; [done|]. by exists dir.
Qed.

End BaseDirectory.

(** ** URL normalisation *)

Lemma strip_vsicurl_prefix rest : strip_vsicurl (VStr ("/vsicurl/" ++ rest)) = VStr rest.
Proof.
  unfold strip_vsicurl.
  rewrite (startsWith_app "/vsicurl/" rest). f_equal.
  apply (drop_app "/vsicurl/" rest).
Qed.

Lemma strip_vsicurl_other href :
  Str.startsWith href "/vsicurl/" = false -> strip_vsicurl (VStr href) = VStr href.
Proof. unfold strip_vsicurl. by intros ->. Qed.



(** The literal reading of the first statement fails on a GDAL path: it
    is relative, the path of the base ends neither in [/] nor in [.json],
    and yet the path is returned as it is.  And a base that URI.js reads
    as a URN (a scheme without [//]) has no directory: the [href] takes
    the place of its whole path. *)
Lemma gdal_path_is_not_resolved :
  normalizeUri sample_host
    (VStr "/vsizip/data.zip") (VStr "https://ex.com/api/v1.0") false true
  = Ret (AsString "/vsizip/data.zip")
  /\ resolved_in_directory sample_host "/vsizip/data.zip" "https://ex.com/api/v1.0"
     = Ret (AsString "https://ex.com/vsizip/data.zip")
  /\ normalizeUri sample_host
       (VStr "b.json") (VStr "localhost:8080/api/v1.0") false true
     = Ret (AsString "localhost:///b.json")
  /\ ~ every_relative_href_is_resolved.
Proof.
  split; [reflexivity|split; [reflexivity|split; [reflexivity|]]].
  intros H.
  specialize (H sample_host
                "/vsizip/data.zip" "https://ex.com/api/v1.0"
                _ _ eq_refl eq_refl eq_refl eq_refl eq_refl).
  vm_compute in H. discriminate.
Qed.

(** C1 (amended).  Take a [href] that, once a leading [/vsicurl/] is gone,
    is a relative URL and not a GDAL path, and a base URL that is not the
    empty string, is not a URN and has a path that ends neither in [/]
    nor in [.json].  Then [normalizeUri] resolves the [href] against the
    base with a [/] appended to the path of the base.  The base so
    obtained has no file name, and its directory is its whole path: the
    last segment of the path of the base is kept, as a directory.  A
    [href] made of a relative path is placed behind this directory, in
    front of the normalisation of the path.  So [normalizeUri("b.json",
    "https://ex.com/api/v1.0")] is ["https://ex.com/api/v1.0/b.json"],
    where the resolution against the base as it is gives
    ["https://ex.com/api/b.json"]. *)
Theorem normalizeUri_base_is_directory (host : Host) :
  (forall href href' base uri baseUri,
      strip_vsicurl (VStr href) = VStr href' ->
      URI.parse href' = Ret uri ->
      URI.is_relative uri = true ->
      isGdalVfsUri (VStr href') = false ->
      base <> "" ->
      URI.parse base = Ret baseUri ->
      URI.urn baseUri = false ->
      Str.endsWith (URI.get_path baseUri) "/" = false ->
      Str.endsWith (URI.get_path baseUri) ".json" = false ->
      normalizeUri host (VStr href) (VStr base) false true
      = resolved_in_directory host href' base
      /\ forall baseUri',
          URI.path_set (URI.get_path baseUri ++ "/") baseUri = Ret baseUri' ->
          URI.filename baseUri' = ""
          /\ exists dir,
              URI.recodePath (URI.get_path baseUri ++ "/") = Ret (dir ++ "/")
              /\ URI.path baseUri' = dir ++ "/"
              /\ URI.directory baseUri' = (if Str.is_empty dir then "/" else dir)
              /\ (URI.present (URI.protocol uri) = false ->
                  Str.is_empty (URI.path uri) = false ->
                  Str.startsWith (URI.path uri) "/" = false ->
                  URI.path uri <> ".." ->
                  URI.absoluteTo baseUri' uri
                  = URI.normalizePath
                      (URI.Parts (URI.protocol baseUri) (URI.username baseUri)
                         (URI.password baseUri) (URI.hostname baseUri) false
                         (URI.port baseUri)
                         ((if Str.is_empty dir then "/" else dir)
                          ++ "/" ++ URI.path uri)
                         (URI.query uri) (URI.fragment uri))))
  /\ normalizeUri host (VStr "b.json") (VStr "https://ex.com/api/v1.0") false true
     = Ret (AsString "https://ex.com/api/v1.0/b.json")
  /\ (uri ← URI.parse "b.json";
      baseUri ← URI.parse "https://ex.com/api/v1.0";
      uri ← URI.absoluteTo baseUri uri;
      finish_uri host false true uri)
     = Ret (AsString "https://ex.com/api/b.json").
Proof.
  split; [|split; reflexivity].
  intros href href' base uri baseUri Hstrip Hparse Hrel Hgdal Hbase Hb Hurn Hslash Hjson.
  split.
  - unfold normalizeUri, resolved_in_directory. rewrite Hstrip.
    unfold normalize_href, base_uri. cbn [URI_new]. rewrite Hparse, Hb.
    cbn [mbind outcome_bind]. rewrite Hrel, Hgdal, Hslash, Hjson.
    destruct base; [contradiction|]. cbn [truthy Str.is_empty negb andb].
    by destruct (URI.path_set _ baseUri).
  - intros baseUri' Hset.
    destruct (path_set_directory baseUri baseUri' _ Hurn Hset)
      as (Hfile & dir & Hrecode & Hpath & Hdir).
    split; [done|]. exists dir. repeat split; try done.
    intros Hproto Hne Hrelpath Hdots.
    unfold URI.is_relative in Hrel. apply andb_prop in Hrel as [Hu Hh].
    apply negb_true_iff in Hu, Hh.
    assert (Hparts : URI.protocol baseUri' = URI.protocol baseUri
                     /\ URI.username baseUri' = URI.username baseUri
                     /\ URI.password baseUri' = URI.password baseUri
                     /\ URI.hostname baseUri' = URI.hostname baseUri
                     /\ URI.port baseUri' = URI.port baseUri).
    { unfold URI.path_set in Hset. rewrite Hurn in Hset.
      destruct (Str.is_empty _); [by injection Hset as <-|].
      destruct (URI.recodePath _); [|done]. by injection Hset as <-. }
    destruct Hparts as (Hp1 & Hp2 & Hp3 & Hp4 & Hp5).
    unfold URI.absoluteTo. rewrite Hu, Hproto, Hp1, Hp2, Hp3, Hp4, Hp5.
    cbn [URI.set_protocol URI.hostname URI.path URI.urn URI.query URI.fragment].
    rewrite Hh, Hne.
    assert (String.eqb (URI.path uri) ".." = false) as ->
      by (by apply String.eqb_neq).
    unfold URI.get_path at 1. cbn [URI.path URI.hostname]. rewrite Hne, Hrelpath.
    cbn [negb]. rewrite Hdir.
    assert (Str.is_empty (if Str.is_empty dir then "/" else dir) = false) as HD
      by (by destruct dir).
    rewrite HD. cbn [negb]. rewrite HD. unfold URI.set_path.
    cbn [URI.protocol URI.username URI.password URI.hostname
         URI.urn URI.port URI.query URI.fragment URI.path].
    rewrite Hu. do 2 f_equal.
    first [apply app_assoc_str|symmetry; apply app_assoc_str].
Qed.

Lemma normalizeUri_base_is_directory_witness :
  normalizeUri sample_host
    (VStr "/vsicurl/items/b.json") (VStr "https://ex.com/api/v1.0") false true
  = resolved_in_directory sample_host
      "items/b.json" "https://ex.com/api/v1.0".
Proof.
  refine (proj1 (proj1 (normalizeUri_base_is_directory sample_host)
                   "/vsicurl/items/b.json" "items/b.json"
                   "https://ex.com/api/v1.0"
                   (URI.Parts None None None None false None "items/b.json"
                      None None)
                   (URI.Parts (Some "https") None None (Some "ex.com") false
                      None "/api/v1.0" None None)
                   eq_refl eq_refl eq_refl eq_refl _ eq_refl eq_refl eq_refl
                   eq_refl)).
  discriminate.
Defined.

(** ** URL comparison *)

Lemma strip_trailing_slash_one p : strip_trailing_slash (p ++ "/") = p.
Proof.
  unfold strip_trailing_slash. rewrite endsWith_app, length_app. simpl.
  replace (String.length p + 1 - 1) with (String.length p) by lia.
  apply take_app.
Qed.

Lemma strip_trailing_slash_none p :
  Str.endsWith p "/" = false -> strip_trailing_slash p = p.
Proof. unfold strip_trailing_slash. by intros ->. Qed.

Section Comparison.

Context (host : Host).

Implicit Types (u : URI.parts) (a b : value).

Lemma set_path_set_path p q u :
  URI.set_path p (URI.set_path q u) = URI.set_path p u.
Proof. reflexivity. Qed.

Lemma path_set_set_path p q u :
  URI.path_set p (URI.set_path q u) = URI.path_set p u.
Proof.
  unfold URI.path_set. cbn [URI.set_path URI.urn].
  by destruct (URI.urn u), (Str.is_empty p).
Qed.

Lemma get_path_slash u :
  URI.get_path (URI.set_path (URI.get_path u ++ "/") u) = URI.get_path u ++ "/".
Proof.
  unfold URI.get_path at 1. cbn [URI.set_path URI.path].
  by rewrite is_empty_app_cons.
Qed.

(** The step of [equalUrl] on one URL does not see a [/] appended to a
    path that has none at its end. *)
Lemma strip_step_slash u :
  Str.endsWith (URI.get_path u) "/" = false ->
  URI.path_set
    (strip_trailing_slash
       (URI.get_path (URI.set_path (URI.get_path u ++ "/") u)))
    (URI.set_path (URI.get_path u ++ "/") u)
  = URI.path_set (strip_trailing_slash (URI.get_path u)) u.
Proof.
  intros H. rewrite get_path_slash, strip_trailing_slash_one.
  rewrite strip_trailing_slash_none by done. apply path_set_set_path.
Qed.

Lemma is_empty_toLowerCase s : Str.is_empty (Str.toLowerCase s) = Str.is_empty s.
Proof. by destruct s. Qed.

Lemma present_lower (p q : option string) :
  Str.toLowerCase <$> p = Str.toLowerCase <$> q -> URI.present p = URI.present q.
Proof.
  destruct p as [s|], q as [t|]; try done. cbn. intros [= H].
  by rewrite <- (is_empty_toLowerCase s), <- (is_empty_toLowerCase t), H.
Qed.

Lemma lower_absent (p q : option string) :
  Str.toLowerCase <$> p = Str.toLowerCase <$> q -> URI.present p = false -> p = q.
Proof.
  destruct p as [s|], q as [t|]; try done. cbn. intros [= H] Hs.
  apply negb_false_iff in Hs. destruct s; [|done]. by destruct t.
Qed.

Lemma same_up_to_case_get_path u u' :
  same_up_to_case u u' -> URI.get_path u = URI.get_path u'.
Proof.
  intros (_ & Hh & _ & _ & Hurn & _ & Hpath & _). unfold URI.get_path.
  rewrite <- Hpath. destruct (Str.is_empty (URI.path u)); [|done].
  destruct (URI.urn u); [by rewrite Hh|]. by rewrite (present_lower _ _ Hh).
Qed.

Lemma same_up_to_case_path_set p u u' s :
  same_up_to_case u u' -> URI.path_set p u = Ret s ->
  exists s', URI.path_set p u' = Ret s' /\ same_up_to_case s s'.
Proof.
  intros (H1 & H2 & H3 & H4 & H5 & H6 & H7 & H8 & H9). unfold URI.path_set.
  rewrite <- H5.
  destruct (URI.urn u) eqn:Hurn, (Str.is_empty p).
  - intros [= <-]. eexists. split; [done|]. unfold same_up_to_case.
    cbn [URI.set_path URI.protocol URI.hostname URI.username URI.password
         URI.urn URI.port URI.path URI.query URI.fragment]. by rewrite Hurn.
  - destruct (URI.recodeUrnPath p); [|done]. intros [= <-].
    eexists. split; [done|]. unfold same_up_to_case.
    cbn [URI.set_path URI.protocol URI.hostname URI.username URI.password
         URI.urn URI.port URI.path URI.query URI.fragment]. by rewrite Hurn.
  - intros [= <-]. eexists. split; [done|]. unfold same_up_to_case.
    cbn [URI.set_path URI.protocol URI.hostname URI.username URI.password
         URI.urn URI.port URI.path URI.query URI.fragment]. by rewrite Hurn.
  - destruct (URI.recodePath p); [|done]. intros [= <-].
    eexists. split; [done|]. unfold same_up_to_case.
    cbn [URI.set_path URI.protocol URI.hostname URI.username URI.password
         URI.urn URI.port URI.path URI.query URI.fragment]. by rewrite Hurn.
Qed.

Lemma path_set_throw p u u' e :
  URI.urn u = URI.urn u' -> URI.path_set p u = Throw e -> URI.path_set p u' = Throw e.
Proof.
  unfold URI.path_set. intros <-.
  destruct (URI.urn u), (Str.is_empty p); try done.
  - by destruct (URI.recodeUrnPath p).
  - by destruct (URI.recodePath p).
Qed.

(** The first steps of the normalisation write the scheme and the host
    name in lower case: two URIs that differ in the case of these have
    the same normal form. *)
Lemma same_up_to_case_normalize u u' :
  same_up_to_case u u' -> URI.normalize host u = URI.normalize host u'.
Proof.
  intros (H1 & H2 & H3 & H4 & H5 & H6 & H7 & H8 & H9).
  destruct u as [p1 un1 pw1 h1 urn1 po1 pa1 q1 f1].
  destruct u' as [p2 un2 pw2 h2 urn2 po2 pa2 q2 f2].
  cbn [URI.protocol URI.hostname URI.username URI.password URI.urn URI.port
       URI.path URI.query URI.fragment] in *.
  subst un2 pw2 urn2 po2 pa2 q2 f2.
  unfold URI.normalize. cbn [URI.urn]. destruct urn1.
  - subst h2. unfold URI.normalizeProtocol, URI.set_protocol.
    cbn [URI.protocol URI.hostname URI.username URI.password URI.urn URI.port
         URI.path URI.query URI.fragment]. by rewrite H1.
  - unfold URI.normalizeProtocol, URI.normalizeHostname, URI.set_protocol,
      URI.set_hostname.
    cbn [URI.protocol URI.hostname URI.username URI.password URI.urn URI.port
         URI.path URI.query URI.fragment].
    rewrite <- (present_lower _ _ H2), H1.
    destruct (URI.present h1) eqn:Hp.
    + cbn [URI.protocol URI.hostname URI.username URI.password URI.urn URI.port
           URI.path URI.query URI.fragment]. by rewrite H2.
    + by rewrite (lower_absent _ _ H2 Hp).
Qed.

Lemma equals_same_up_to_case_l u u' v :
  same_up_to_case u u' -> URI.equals host u v = URI.equals host u' v.
Proof.
  intros H. unfold URI.equals. by rewrite (same_up_to_case_normalize u u' H).
Qed.

Lemma equals_same_up_to_case_r u u' v :
  same_up_to_case u u' -> URI.equals host v u = URI.equals host v u'.
Proof.
  intros H. unfold URI.equals. by rewrite (same_up_to_case_normalize u u' H).
Qed.

Lemma equalUrl_body_case_l (x x' : string) b u u' :
  URI.parse x = Ret u -> URI.parse x' = Ret u' -> same_up_to_case u u' ->
  equalUrl_body host (VStr x) b = equalUrl_body host (VStr x') b.
Proof.
  intros Hx Hx' Hcase. unfold equalUrl_body. cbn [URI_new]. rewrite Hx, Hx'.
  cbn [mbind outcome_bind]. destruct (URI_new b) as [u2|]; [|done].
  cbn [mbind outcome_bind]. rewrite <- (same_up_to_case_get_path u u' Hcase).
  destruct (URI.path_set _ u) as [s|e] eqn:Hs.
  - destruct (same_up_to_case_path_set _ u u' s Hcase Hs) as (s' & -> & Hss).
    cbn [mbind outcome_bind]. destruct (URI.path_set _ u2); [|done].
    cbn [mbind outcome_bind]. by apply equals_same_up_to_case_l.
  - destruct Hcase as (_ & _ & _ & _ & Hurn & _).
    by rewrite (path_set_throw _ u u' e Hurn Hs).
Qed.

Lemma equalUrl_body_case_r (x x' : string) a u u' :
  URI.parse x = Ret u -> URI.parse x' = Ret u' -> same_up_to_case u u' ->
  equalUrl_body host a (VStr x) = equalUrl_body host a (VStr x').
Proof.
  intros Hx Hx' Hcase. unfold equalUrl_body. cbn [URI_new]. rewrite Hx, Hx'.
  destruct (URI_new a) as [u1|]; [|done].
  cbn [mbind outcome_bind]. destruct (URI.path_set _ u1) as [s1|]; [|done].
  cbn [mbind outcome_bind]. rewrite <- (same_up_to_case_get_path u u' Hcase).
  destruct (URI.path_set _ u) as [s|e] eqn:Hs.
  - destruct (same_up_to_case_path_set _ u u' s Hcase Hs) as (s' & -> & Hss).
    cbn [mbind outcome_bind]. by apply equals_same_up_to_case_r.
  - destruct Hcase as (_ & _ & _ & _ & Hurn & _).
    by rewrite (path_set_throw _ u u' e Hurn Hs).
Qed.

Lemma equalUrl_body_slash_l (x x' : string) b u :
  URI.parse x = Ret u ->
  URI.parse x' = Ret (URI.set_path (URI.get_path u ++ "/") u) ->
  Str.endsWith (URI.get_path u) "/" = false ->
  equalUrl_body host (VStr x) b = equalUrl_body host (VStr x') b.
Proof.
  intros Hx Hx' Hend. unfold equalUrl_body. cbn [URI_new]. rewrite Hx, Hx'.
  cbn [mbind outcome_bind]. destruct (URI_new b) as [u2|]; [|done].
  cbn [mbind outcome_bind]. by rewrite strip_step_slash.
Qed.

Lemma equalUrl_body_slash_r (x x' : string) a u :
  URI.parse x = Ret u ->
  URI.parse x' = Ret (URI.set_path (URI.get_path u ++ "/") u) ->
  Str.endsWith (URI.get_path u) "/" = false ->
  equalUrl_body host a (VStr x) = equalUrl_body host a (VStr x').
Proof.
  intros Hx Hx' Hend. unfold equalUrl_body. cbn [URI_new]. rewrite Hx, Hx'.
  destruct (URI_new a) as [u1|]; [|done].
  cbn [mbind outcome_bind]. destruct (URI.path_set _ u1) as [s1|]; [|done].
  cbn [mbind outcome_bind]. by rewrite strip_step_slash.
Qed.

(** A URL is equal to itself exactly when URI.js can parse it, set its
    path and normalise it. *)
Lemma equalUrl_refl_iff (x : string) :
  equalUrl host (VStr x) (VStr x) = true
  <-> exists uri uri' n,
        URI.parse x = Ret uri
        /\ URI.path_set (strip_trailing_slash (URI.get_path uri)) uri = Ret uri'
        /\ URI.normalize host uri' = Ret n.
Proof.
  unfold equalUrl, equalUrl_body. cbn [URI_new].
  destruct (URI.parse x) as [uri|e] eqn:Hparse; cbn [mbind outcome_bind try_catch].
  - destruct (URI.path_set _ uri) as [uri'|e] eqn:Hset;
      cbn [mbind outcome_bind try_catch].
    + unfold URI.equals.
      destruct (URI.normalize host uri') as [n|e] eqn:Hnorm;
        cbn [mbind outcome_bind try_catch].
      * rewrite String.eqb_refl. cbn [try_catch]. split; [|done].
        intros _. by exists uri, uri', n.
      * split; [done|]. intros (? & ? & ? & [= <-] & H2 & H3).
        rewrite Hset in H2. injection H2 as <-. congruence.
    + split; [done|]. intros (? & ? & ? & [= <-] & H2 & _). congruence.
  - split; [done|]. intros (? & ? & ? & [=] & _).
Qed.

End Comparison.



(** ** Images *)

(** Not every link gets an answer: a [href] that URI.js rejects, for an
    invalid port or for a malformed escape in the user name, makes the
    call raise, whatever type the link declares. *)
Lemma rejected_href_raises :
  canBrowserDisplayImage
    (obj [("href", VStr "https://ex.com:x/a.png"); ("type", VStr "image/png")])
  = Throw TypeError
  /\ canBrowserDisplayImage
       (obj [("href", VStr "https://%zz@ex.com/a.png"); ("type", VStr "image/png")])
     = Throw URIError
  /\ renderable_type
       (obj [("href", VStr "https://ex.com:x/a.png"); ("type", VStr "image/png")])
     = true.
Proof. repeat split; reflexivity. Qed.

(** C4 (amended).  For a link whose [href] is not a string or is a string
    that URI.js parses, [canBrowserDisplayImage] decides in this order: a
    [href] that is not a string gives false; a URL with a scheme other
    than [http] and [https] gives false; a declared type of the list of
    image types gives true; otherwise an extension that, behind [image/],
    is in the list gives true; otherwise a declared type gives false;
    otherwise (no type, unknown extension) the answer is true.  The URL
    is the parsed [href]; a [href] that URI.js rejects makes the call
    raise the exception of the parser. *)
Theorem canBrowserDisplayImage_decision_order (kind : objkind) (ps : props) :
  let img := VObj kind ps in
  (is_string (get img "href") = false -> canBrowserDisplayImage img = Ret false)
  /\ (forall href e,
        get img "href" = VStr href -> URI.parse href = Throw e ->
        canBrowserDisplayImage img = Throw e)
  /\ (forall href uri,
        get img "href" = VStr href -> URI.parse href = Ret uri ->
        (foreign_scheme uri = true -> canBrowserDisplayImage img = Ret false)
        /\ (foreign_scheme uri = false -> renderable_type img = true ->
            canBrowserDisplayImage img = Ret true)
        /\ (foreign_scheme uri = false -> renderable_type img = false ->
            renderable_extension uri = true ->
            canBrowserDisplayImage img = Ret true)
        /\ (foreign_scheme uri = false -> renderable_type img = false ->
            renderable_extension uri = false ->
            truthy (get img "type") = true ->
            canBrowserDisplayImage img = Ret false)
        /\ (foreign_scheme uri = false -> renderable_type img = false ->
            renderable_extension uri = false ->
            truthy (get img "type") = false ->
            canBrowserDisplayImage img = Ret true)).
Proof.
  intros img. subst img. unfold canBrowserDisplayImage.
  cbn [get_member mbind outcome_bind].
  split; [|split].
  - by intros ->.
  - intros href e -> Hparse. cbn [is_string negb URI_new]. by rewrite Hparse.
  - intros href uri -> Hparse. cbn [is_string negb URI_new]. rewrite Hparse.
    cbn [mbind outcome_bind].
    fold (foreign_scheme uri) (renderable_type (VObj kind ps))
         (renderable_extension uri).
    repeat split.
    + by intros ->.
    + by intros -> ->.
    + by intros -> -> ->.
    + by intros -> -> -> ->.
    + by intros -> -> -> ->.
Qed.

Lemma canBrowserDisplayImage_decision_order_witness :
  canBrowserDisplayImage (obj [("href", VNum (num 1))]) = Ret false
  /\ canBrowserDisplayImage (obj [("href", VStr "http://ex.com:x/a.png")]) = Throw TypeError
  /\ canBrowserDisplayImage (obj [("href", VStr "s3://bucket/a.png"); ("type", VStr "image/png")])
     = Ret false
  /\ canBrowserDisplayImage (obj [("href", VStr "https://ex.com/a"); ("type", VStr "image/png")])
     = Ret true
  /\ canBrowserDisplayImage (obj [("href", VStr "a.JPG"); ("type", VStr "image/x")])
     = Ret true
  /\ canBrowserDisplayImage (obj [("href", VStr "a.tif"); ("type", VStr "image/tiff")])
     = Ret false
  /\ canBrowserDisplayImage (obj [("href", VStr "a.tif")]) = Ret true.
Proof.
  pose (relative p := URI.Parts None None None None false None p None None).
  pose (absolute s h p := URI.Parts (Some s) None None (Some h) false None p None None).
  split; [|split; [|split; [|split; [|split; [|split]]]]].
  - apply (proj1 (canBrowserDisplayImage_decision_order Plain
                    [("href", VNum (num 1))])).
    reflexivity.
  - apply (proj1 (proj2 (canBrowserDisplayImage_decision_order Plain
                           [("href", VStr "http://ex.com:x/a.png")]))
             "http://ex.com:x/a.png" TypeError); by vm_compute.
  - apply (proj1 (proj2 (proj2 (canBrowserDisplayImage_decision_order Plain
                    [("href", VStr "s3://bucket/a.png"); ("type", VStr "image/png")]))
                    "s3://bucket/a.png" (absolute "s3" "bucket" "/a.png")
                    ltac:(by vm_compute) ltac:(by vm_compute))).
    by vm_compute.
  - apply (proj1 (proj2 (proj2 (proj2 (canBrowserDisplayImage_decision_order Plain
                    [("href", VStr "https://ex.com/a"); ("type", VStr "image/png")]))
                    "https://ex.com/a" (absolute "https" "ex.com" "/a")
                    ltac:(by vm_compute) ltac:(by vm_compute))));
      by vm_compute.
  - apply (proj1 (proj2 (proj2 (proj2 (proj2
                    (canBrowserDisplayImage_decision_order Plain
                       [("href", VStr "a.JPG"); ("type", VStr "image/x")]))
                    "a.JPG" (relative "a.JPG")
                    ltac:(by vm_compute) ltac:(by vm_compute)))));
      by vm_compute.
  - apply (proj1 (proj2 (proj2 (proj2 (proj2 (proj2
                    (canBrowserDisplayImage_decision_order Plain
                       [("href", VStr "a.tif"); ("type", VStr "image/tiff")]))
                    "a.tif" (relative "a.tif")
                    ltac:(by vm_compute) ltac:(by vm_compute))))));
      by vm_compute.
  - apply (proj2 (proj2 (proj2 (proj2 (proj2 (proj2
                    (canBrowserDisplayImage_decision_order Plain
                       [("href", VStr "a.tif")]))
                    "a.tif" (relative "a.tif")
                    ltac:(by vm_compute) ltac:(by vm_compute))))));
      by vm_compute.
Defined.

(** ** Percent-encoding: a well-formed string is read back as written *)

Section PctFacts.

Implicit Types (s t : string) (a b c d : ascii).

Lemma hex_byte_escape c :
  Pct.hex_byte (Pct.hex_digit (N_of_ascii c / 16))
               (Pct.hex_digit (N_of_ascii c mod 16)) = Some c.
Proof. destruct c as [[] [] [] [] [] [] [] []]; reflexivity. Qed.

Lemma unreserved_not_percent c : Pct.unreserved c = true -> Ascii.eqb c "%" = false.
Proof. destruct c as [[] [] [] [] [] [] [] []]; vm_compute; congruence. Qed.

Lemma unreserved_ascii c :
  (nat_of_ascii c <? 128)%nat = false -> Pct.unreserved c = false.
Proof. destruct c as [[] [] [] [] [] [] [] []]; vm_compute; congruence. Qed.

Lemma leading_ones_2 c : Str.in_range 194 223 c = true -> Pct.leading_ones c = 2.
Proof. destruct c as [[] [] [] [] [] [] [] []]; vm_compute; congruence. Qed.

Lemma leading_ones_3 c : Str.in_range 224 239 c = true -> Pct.leading_ones c = 3.
Proof. destruct c as [[] [] [] [] [] [] [] []]; vm_compute; congruence. Qed.

Lemma leading_ones_4 c : Str.in_range 240 244 c = true -> Pct.leading_ones c = 4.
Proof. destruct c as [[] [] [] [] [] [] [] []]; vm_compute; congruence. Qed.

Lemma continuation_not_ascii c :
  Pct.is_continuation c = true -> (nat_of_ascii c <? 128)%nat = false.
Proof. destruct c as [[] [] [] [] [] [] [] []]; vm_compute; congruence. Qed.

(** One step of [decodeURIComponent] on an escape. *)
Lemma decode_from_escape c t pending need :
  Pct.decode_from (Pct.escape c ++ t) pending need
  = match need with
    | O =>
        if (nat_of_ascii c <? 128)%nat then
          r ← Pct.decode_from t [] 0; Ret (String c r)
        else
          match Pct.leading_ones c with
          | 2 => Pct.decode_from t [c] 1
          | 3 => Pct.decode_from t [c] 2
          | 4 => Pct.decode_from t [c] 3
          | _ => Throw URIError
          end
    | S k =>
        if Pct.is_continuation c then
          match k with
          | O =>
              if Pct.utf8_code_point (pending ++ [c]) then
                r ← Pct.decode_from t [] 0;
                Ret (string_of_list_ascii (pending ++ [c]) ++ r)
              else Throw URIError
          | S _ => Pct.decode_from t (pending ++ [c]) k
          end
        else Throw URIError
    end.
Proof.
  unfold Pct.escape.
  rewrite !app_cons. change ("" ++ t) with t.
  cbn [Pct.decode_from]. change (Ascii.eqb "%" "%") with true. cbv iota.
  by rewrite hex_byte_escape.
Qed.

Lemma decode_from_plain c t :
  Pct.unreserved c = true ->
  Pct.decode_from (String c t) [] 0 = (r ← Pct.decode_from t [] 0; Ret (String c r)).
Proof.
  intros H. cbn [Pct.decode_from]. by rewrite (unreserved_not_percent c H).
Qed.

Lemma encode_cons c s :
  Pct.encode (String c s)
  = (if Pct.unreserved c then String c EmptyString else Pct.escape c) ++ Pct.encode s.
Proof. reflexivity. Qed.

Lemma decode_encode_bounded n s :
  String.length s <= n -> Pct.utf8 s = true ->
  Pct.decode_from (Pct.encode s) [] 0 = Ret s.
Proof.
  revert s. induction n as [|n IH]; intros s Hlen Hutf.
  { destruct s; [reflexivity|simpl in Hlen; lia]. }
  destruct s as [|a s1]; [reflexivity|].
  cbn [String.length] in Hlen. rewrite encode_cons.
  cbn [Pct.utf8] in Hutf.
  destruct (nat_of_ascii a <? 128)%nat eqn:Ha.
  { (* one byte *)
    destruct (Pct.unreserved a) eqn:Hun.
    - rewrite app_cons. change ("" ++ ?r) with r.
      rewrite decode_from_plain, IH by (done || lia). reflexivity.
    - rewrite decode_from_escape, Ha, IH by (done || lia). reflexivity. }
  rewrite (unreserved_ascii a Ha).
  destruct s1 as [|b s2]; [discriminate|].
  cbn [String.length] in Hlen.
  destruct (Pct.utf8_code_point [a; b]) eqn:H2.
  { (* two bytes *)
    pose proof H2 as H2'. cbn [Pct.utf8_code_point] in H2'.
    apply andb_prop in H2' as [Hra Hcb].
    rewrite encode_cons, (unreserved_ascii b (continuation_not_ascii b Hcb)).
    rewrite decode_from_escape, Ha, (leading_ones_2 a Hra).
    rewrite decode_from_escape, Hcb. cbn [app]. rewrite H2.
    rewrite IH by (done || lia). reflexivity. }
  destruct s2 as [|c s3]; [discriminate|].
  cbn [String.length] in Hlen.
  destruct (Pct.utf8_code_point [a; b; c]) eqn:H3.
  { (* three bytes *)
    pose proof H3 as H3'. cbn [Pct.utf8_code_point] in H3'.
    apply andb_prop in H3' as [H3' _]. apply andb_prop in H3' as [H3' Hcc].
    apply andb_prop in H3' as [Hra Hcb].
    rewrite encode_cons, (unreserved_ascii b (continuation_not_ascii b Hcb)).
    rewrite encode_cons, (unreserved_ascii c (continuation_not_ascii c Hcc)).
    rewrite decode_from_escape, Ha, (leading_ones_3 a Hra).
    rewrite decode_from_escape, Hcb.
    rewrite decode_from_escape, Hcc. cbn [app]. rewrite H3.
    rewrite IH by (done || lia). reflexivity. }
  destruct s3 as [|d s4]; [discriminate|].
  cbn [String.length] in Hlen.
  apply andb_prop in Hutf as [H4 Hutf].
  pose proof H4 as H4'. cbn [Pct.utf8_code_point] in H4'.
  apply andb_prop in H4' as [H4' _]. apply andb_prop in H4' as [H4' Hcd].
  apply andb_prop in H4' as [H4' Hcc]. apply andb_prop in H4' as [Hra Hcb].
  rewrite encode_cons, (unreserved_ascii b (continuation_not_ascii b Hcb)).
  rewrite encode_cons, (unreserved_ascii c (continuation_not_ascii c Hcc)).
  rewrite encode_cons, (unreserved_ascii d (continuation_not_ascii d Hcd)).
  rewrite decode_from_escape, Ha, (leading_ones_4 a Hra).
  rewrite decode_from_escape, Hcb.
  rewrite decode_from_escape, Hcc.
  rewrite decode_from_escape, Hcd. cbn [app]. rewrite H4.
  rewrite IH by (done || lia). reflexivity.
Qed.

(** [decodeURIComponent(encodeURIComponent(s))] is [s]. *)
Lemma decode_encode s : Pct.utf8 s = true -> Pct.decode (Pct.encode s) = Ret s.
Proof. apply (decode_encode_bounded (String.length s)). lia. Qed.

Lemma flat_map_app (g : ascii -> string) s t :
  Str.flat_map g (s ++ t) = Str.flat_map g s ++ Str.flat_map g t.
Proof.
  induction s as [|c s IH]; [reflexivity|].
  rewrite app_cons. cbn [Str.flat_map]. by rewrite IH, app_assoc_str.
Qed.

Lemma plus_of_encodeQuery_char c :
  Str.flat_map (fun c => if Ascii.eqb c "+" then "%20" else String c EmptyString)
    (if Ascii.eqb c " " then "+"
     else if Pct.unreserved c then String c EmptyString else Pct.escape c)
  = (if Pct.unreserved c then String c EmptyString else Pct.escape c).
Proof. destruct c as [[] [] [] [] [] [] [] []]; reflexivity. Qed.

Lemma plus_of_encodeQuery s :
  Str.flat_map (fun c => if Ascii.eqb c "+" then "%20" else String c EmptyString)
    (URI.encodeQuery s)
  = Pct.encode s.
Proof.
  induction s as [|c s IH]; [reflexivity|].
  unfold URI.encodeQuery. cbn [Str.flat_map].
  rewrite flat_map_app, plus_of_encodeQuery_char.
  fold (URI.encodeQuery s). by rewrite IH.
Qed.

(** Every well-formed string is safe in a query string. *)
Lemma utf8_query_safe s : Pct.utf8 s = true -> query_safe s.
Proof.
  intros H. unfold query_safe, URI.decodeQuery.
  by rewrite plus_of_encodeQuery, decode_encode.
Qed.

End PctFacts.

(** ** Query strings: what is written is what is read *)

Section QueryFacts.

Context (host : Host).

Implicit Types (s p q : string) (c : ascii) (items : list string) (d : props).

Lemma forall_chars_app f p q :
  Str.forall_chars f (p ++ q) = Str.forall_chars f p && Str.forall_chars f q.
Proof.
  induction p as [|c p IH]; [reflexivity|].
  rewrite app_cons. simpl. by rewrite IH, andb_assoc.
Qed.

Lemma forall_chars_flat_map f g s :
  (forall c, Str.forall_chars f (g c) = true) ->
  Str.forall_chars f (Str.flat_map g s) = true.
Proof.
  intros Hg. induction s as [|c s IH]; [reflexivity|].
  simpl. by rewrite forall_chars_app, Hg, IH.
Qed.



Lemma encodeQuery_char_plain c :
  Str.forall_chars plain_char
    (if Ascii.eqb c " " then "+"
     else if Pct.unreserved c then String c EmptyString else Pct.escape c) = true.
Proof. destruct c as [[] [] [] [] [] [] [] []]; vm_compute; reflexivity. Qed.

Lemma encodeQuery_plain s : Str.forall_chars plain_char (URI.encodeQuery s) = true.
Proof. apply forall_chars_flat_map, encodeQuery_char_plain. Qed.

Lemma forall_chars_impl (f g : ascii -> bool) s :
  (forall c, f c = true -> g c = true) ->
  Str.forall_chars f s = true -> Str.forall_chars g s = true.
Proof.
  intros Hfg. induction s as [|c s IH]; [done|]. simpl.
  intros [Hc Hs]%andb_prop. by rewrite Hfg, IH.
Qed.

Lemma plain_no_amp c : plain_char c = true -> no_amp c = true.
Proof. unfold plain_char, no_amp. by intros [[-> _]%andb_prop _]%andb_prop. Qed.
Lemma plain_no_equals c : plain_char c = true -> no_equals c = true.
Proof. unfold plain_char, no_equals. by intros [[_ ->]%andb_prop _]%andb_prop. Qed.
Lemma plain_no_question c : plain_char c = true -> no_question c = true.
Proof. unfold plain_char, no_question. by intros [_ ->]%andb_prop. Qed.

(** *** Items *)


Lemma buildQueryParameter_chars (f : ascii -> bool) name v :
  (forall c, plain_char c = true -> f c = true) ->
  f "="%char = true ->
  Str.forall_chars f (URI.buildQueryParameter host name v) = true.
Proof.
  intros Hf Heq. unfold URI.buildQueryParameter.
  assert (Henc : forall s, Str.forall_chars f (URI.encodeQuery s) = true).
  { intros s. apply (forall_chars_impl plain_char f), encodeQuery_plain. done. }
  rewrite forall_chars_app, Henc.
  destruct v; try reflexivity;
    rewrite forall_chars_app, Henc; change (f "="%char && true && true = true);
    by rewrite Heq.
Qed.

Lemma buildQueryParameter_ok name v : item_ok (URI.buildQueryParameter host name v).
Proof.
  split; apply buildQueryParameter_chars; auto using plain_no_amp, plain_no_question.
Qed.

Lemma values_items_ok name l seen :
  Forall item_ok (values_items host name l seen).
Proof.
  revert seen. induction l as [|v l IH]; intros seen; simpl; [constructor|].
  destruct (_ && _); [constructor|]; auto using buildQueryParameter_ok.
Qed.

Lemma entry_items_ok kv : Forall item_ok (entry_items host kv).
Proof.
  destruct kv as [key v]. unfold entry_items.
  destruct (String.eqb key "__proto__"); [constructor|].
  destruct v; try (constructor; [apply buildQueryParameter_ok|constructor]).
  - constructor.
  - apply values_items_ok.
Qed.

(** *** [buildQuery] joins the items with [&] *)


Lemma concat_empty_app (l1 l2 : list string) :
  String.concat "" (l1 ++ l2) = String.concat "" l1 ++ String.concat "" l2.
Proof.
  induction l1 as [|x l1 IH]; [reflexivity|].
  destruct l1 as [|y l1].
  - simpl. destruct l2; simpl; [by rewrite app_empty_r|reflexivity].
    (* a single piece: nothing is put between the pieces *)
  - change (String.concat "" ((x :: y :: l1) ++ l2))
      with (x ++ "" ++ String.concat "" ((y :: l1) ++ l2)).
    rewrite IH.
    change (String.concat "" (x :: y :: l1))
      with (x ++ "" ++ String.concat "" (y :: l1)).
    simpl. by rewrite app_assoc_str.
Qed.

Lemma concat_empty_cons x (l : list string) :
  String.concat "" (x :: l) = x ++ String.concat "" l.
Proof.
  change (x :: l) with ([x] ++ l)%list. rewrite concat_empty_app. simpl.
  reflexivity.
Qed.

Lemma amp_items_app l1 l2 : amp_items (l1 ++ l2) = amp_items l1 ++ amp_items l2.
Proof. unfold amp_items. by rewrite map_app, concat_empty_app. Qed.

Lemma build_values_items name l seen :
  URI.build_values host name l seen = amp_items (values_items host name l seen).
Proof.
  revert seen. induction l as [|v l IH]; intros seen; simpl; [reflexivity|].
  destruct (_ && _); [|apply IH].
  unfold amp_items. simpl List.map. rewrite concat_empty_cons.
  fold (amp_items (values_items host name l (ToString host v :: seen))).
  rewrite <- IH. by rewrite app_assoc_str.
Qed.

Lemma build_entry_items kv :
  URI.build_entry host kv = amp_items (entry_items host kv).
Proof.
  destruct kv as [key v]. unfold URI.build_entry, entry_items.
  destruct (String.eqb key "__proto__"); [reflexivity|].
  destruct v; try reflexivity.
  apply build_values_items.
Qed.

Lemma buildQuery_amp_items d :
  URI.buildQuery host d
  = Str.drop 1 (amp_items (flat_map (entry_items host) d)).
Proof.
  unfold URI.buildQuery. f_equal.
  induction d as [|kv d IH]; [reflexivity|].
  simpl flat_map. rewrite amp_items_app. simpl List.map.
  rewrite concat_empty_cons, IH. by rewrite build_entry_items.
Qed.

Lemma amp_items_join items :
  Str.drop 1 (amp_items items) = Str.join "&" items.
Proof.
  destruct items as [|x items]; [reflexivity|].
  unfold amp_items. simpl List.map. rewrite concat_empty_cons.
  rewrite (app_assoc_str "&" x), (app_cons "&" ""), drop_1_cons.
  change ("" ++ ?r) with r.
  unfold Str.join. revert x. induction items as [|y items IH]; intros x.
  - simpl. by rewrite app_empty_r.
  - simpl List.map. rewrite concat_empty_cons.
    change (String.concat "&" (x :: y :: items))
      with (x ++ "&" ++ String.concat "&" (y :: items)).
    rewrite <- IH. by rewrite app_assoc_str.
Qed.

Lemma buildQuery_join d :
  URI.buildQuery host d = Str.join "&" (flat_map (entry_items host) d).
Proof. by rewrite buildQuery_amp_items, amp_items_join. Qed.

(** *** Reading the items back *)

Lemma dropWhile_question s :
  Str.forall_chars no_question s = true ->
  Str.dropWhile (Ascii.eqb "?") s = s.
Proof.
  destruct s as [|c s]; [reflexivity|]. cbn [Str.forall_chars Str.dropWhile Str.split Str.indexOf].
  intros [Hc _]%andb_prop. unfold no_question in Hc.
  rewrite Ascii.eqb_sym. by destruct (Ascii.eqb c "?").
Qed.

Lemma split_no_amp s :
  Str.forall_chars no_amp s = true -> Str.split "&" s = [s].
Proof.
  induction s as [|c s IH]; [reflexivity|]. cbn [Str.forall_chars Str.dropWhile Str.split Str.indexOf].
  intros [Hc Hs]%andb_prop. unfold no_amp in Hc.
  destruct (Ascii.eqb c "&"); [discriminate|]. by rewrite IH.
Qed.

Lemma split_app_amp p q :
  Str.forall_chars no_amp p = true ->
  Str.split "&" (p ++ String "&" q) = p :: Str.split "&" q.
Proof.
  induction p as [|c p IH]; [reflexivity|]. rewrite app_cons. cbn [Str.forall_chars Str.dropWhile Str.split Str.indexOf].
  intros [Hc Hp]%andb_prop. unfold no_amp in Hc.
  destruct (Ascii.eqb c "&"); [discriminate|]. by rewrite IH.
Qed.

Lemma split_join items :
  items <> [] ->
  Forall (fun item => Str.forall_chars no_amp item = true) items ->
  Str.split "&" (Str.join "&" items) = items.
Proof.
  intros Hne Hall. induction Hall as [|x l Hx Hl IH]; [contradiction|].
  destruct l as [|y l].
  - by apply split_no_amp.
  - rewrite join_cons2. change ("&" ++ ?r) with (String "&" r).
    rewrite split_app_amp by done. f_equal. by apply IH.
Qed.

Lemma forall_chars_join f items :
  f "&"%char = true ->
  Forall (fun item => Str.forall_chars f item = true) items ->
  Str.forall_chars f (Str.join "&" items) = true.
Proof.
  intros Hf Hall. induction Hall as [|x l Hx Hl IH]; [reflexivity|].
  destruct l as [|y l]; [done|].
  rewrite join_cons2, forall_chars_app, Hx. change ("&" ++ ?r) with (String "&" r).
  cbn [Str.forall_chars andb]. by rewrite Hf.
Qed.


Lemma query_items_join items :
  Forall item_ok items ->
  URI.query_items (Str.join "&" items) = List.filter nonempty items.
Proof.
  intros Hall. unfold URI.query_items. fold nonempty.
  rewrite dropWhile_question.
  - destruct items as [|x l]; [reflexivity|].
    rewrite split_join; [reflexivity|discriminate|].
    eapply Forall_impl; [exact Hall|]. by intros item [? _].
  - apply forall_chars_join; [reflexivity|].
    eapply Forall_impl; [exact Hall|]. by intros item [_ ?].
Qed.

Lemma indexOf_equals_none s :
  Str.forall_chars no_equals s = true -> Str.indexOf "=" s = None.
Proof.
  induction s as [|c s IH]; [reflexivity|]. cbn [Str.forall_chars Str.dropWhile Str.split Str.indexOf].
  intros [Hc Hs]%andb_prop. unfold no_equals in Hc.
  rewrite Ascii.eqb_sym. destruct (Ascii.eqb c "="); [discriminate|].
  by rewrite IH.
Qed.

Lemma indexOf_equals_app p q :
  Str.forall_chars no_equals p = true ->
  Str.indexOf "=" (p ++ String "=" q) = Some (String.length p).
Proof.
  induction p as [|c p IH]; [reflexivity|]. rewrite app_cons. cbn [Str.forall_chars Str.dropWhile Str.split Str.indexOf].
  intros [Hc Hp]%andb_prop. unfold no_equals in Hc.
  rewrite Ascii.eqb_sym. destruct (Ascii.eqb c "="); [discriminate|].
  by rewrite IH.
Qed.

Lemma encodeQuery_no_equals s :
  Str.forall_chars no_equals (URI.encodeQuery s) = true.
Proof.
  apply (forall_chars_impl plain_char); [apply plain_no_equals|apply encodeQuery_plain].
Qed.

Lemma parse_item_parameter name v :
  URI.parse_item (URI.buildQueryParameter host name v)
  = (URI.decodeQuery (URI.encodeQuery name),
     match v with
     | VNull => VNull
     | _ => VStr (URI.decodeQuery (URI.encodeQuery (ToString host v)))
     end).
Proof.
  unfold URI.parse_item, URI.buildQueryParameter.
  assert (Hnull : Str.indexOf "=" (URI.encodeQuery name ++ "") = None).
  { rewrite app_empty_r. apply indexOf_equals_none, encodeQuery_no_equals. }
  destruct v; rewrite ?Hnull, ?app_empty_r; try reflexivity;
    change ("=" ++ ?r) with (String "=" r);
    rewrite indexOf_equals_app by apply encodeQuery_no_equals;
    by rewrite take_app, drop_S_app.
Qed.

Lemma add_item_lookup k acc item :
  Obj.lookup k (URI.add_item acc item)
  = if String.eqb (URI.parse_item item).1 k
       && negb (String.eqb (URI.parse_item item).1 "__proto__")
    then push_value (Obj.lookup k acc) (URI.parse_item item).2
    else Obj.lookup k acc.
Proof.
  unfold URI.add_item. destruct (URI.parse_item item) as [name v]. simpl.
  destruct (String.eqb name "__proto__"); [by rewrite andb_false_r|].
  rewrite andb_true_r.
  destruct (String.eqb name k) eqn:E.
  - apply String.eqb_eq in E. subst k.
    destruct (Obj.lookup name acc) as [[]|]; simpl; by rewrite lookup_set_eq.
  - apply String.eqb_neq in E.
    destruct (Obj.lookup name acc) as [[]|]; simpl; by rewrite lookup_set_ne.
Qed.


Lemma fold_add_item_lookup k items acc :
  Obj.lookup k (fold_left URI.add_item items acc)
  = fold_left push_value (values_for k items) (Obj.lookup k acc).
Proof.
  revert acc. induction items as [|item items IH]; intros acc; [reflexivity|].
  simpl fold_left. rewrite IH, add_item_lookup. unfold values_for. simpl.
  by destruct (_ && _).
Qed.

Lemma values_for_app k l1 l2 :
  values_for k (l1 ++ l2) = (values_for k l1 ++ values_for k l2)%list.
Proof. unfold values_for. by rewrite List.map_app, List.filter_app, fmap_app. Qed.

Lemma parseQuery_buildQuery_lookup k d :
  Obj.lookup k (URI.parseQuery (URI.buildQuery host d))
  = fold_left push_value
      (values_for k (List.filter nonempty (flat_map (entry_items host) d))) None.
Proof.
  unfold URI.parseQuery. rewrite buildQuery_join, query_items_join.
  - by rewrite fold_add_item_lookup.
  - induction d as [|kv d IH]; simpl; [constructor|].
    apply Forall_app. split; [apply entry_items_ok|done].
Qed.

(** *** One entry, one name *)

Lemma values_items_parameters name l seen :
  Forall (fun item => exists e, item = URI.buildQueryParameter host name e)
         (values_items host name l seen).
Proof.
  revert seen. induction l as [|v l IH]; intros seen; simpl; [constructor|].
  destruct (_ && _); [constructor|]; eauto.
Qed.

Lemma entry_items_parameters key v :
  Forall (fun item => exists e, item = URI.buildQueryParameter host key e)
         (entry_items host (key, v)).
Proof.
  unfold entry_items. destruct (String.eqb key "__proto__"); [constructor|].
  destruct v; try (constructor; [eauto|constructor]).
  - constructor.
  - apply values_items_parameters.
Qed.

Lemma entry_items_names key v :
  query_safe key ->
  Forall (fun item => (URI.parse_item item).1 = key)
         (List.filter nonempty (entry_items host (key, v))).
Proof.
  intros Hsafe. apply Forall_forall. intros item Hin.
  apply list_elem_of_In, List.filter_In in Hin as [Hin _].
  pose proof (entry_items_parameters key v) as Hall.
  rewrite Forall_forall in Hall. apply list_elem_of_In, Hall in Hin as [e ->].
  by rewrite parse_item_parameter.
Qed.

Lemma values_for_same k items :
  k <> "__proto__" ->
  Forall (fun item => (URI.parse_item item).1 = k) items ->
  values_for k items = (List.map URI.parse_item items).*2.
Proof.
  intros Hk Hall. unfold values_for. induction Hall as [|item items Hi Hl IH]; [reflexivity|].
  cbn [List.map List.filter]. rewrite Hi, String.eqb_refl.
  assert (String.eqb k "__proto__" = false) as -> by by apply String.eqb_neq.
  cbn [negb andb]. rewrite !fmap_cons. by rewrite IH.
Qed.

Lemma values_for_other k k' items :
  k' <> k ->
  Forall (fun item => (URI.parse_item item).1 = k') items ->
  values_for k items = [].
Proof.
  intros Hk Hall. unfold values_for. induction Hall as [|item items Hi Hl IH]; [reflexivity|].
  cbn [List.map List.filter]. rewrite Hi.
  assert (String.eqb k' k = false) as -> by by apply String.eqb_neq.
  cbn [andb]. by rewrite IH.
Qed.

Lemma entry_items_proto v : entry_items host ("__proto__", v) = [].
Proof. reflexivity. Qed.

Lemma values_for_entries k d :
  Obj.wf d ->
  (forall k', k' ∈ Obj.keys d -> query_safe k') ->
  values_for k (List.filter nonempty (flat_map (entry_items host) d))
  = match Obj.lookup k d with
    | Some v =>
        (List.map URI.parse_item
           (List.filter nonempty (entry_items host (k, v)))).*2
    | None => []
    end.
Proof.
  intros Hwf Hsafe. induction d as [|[k1 v1] d IH]; [reflexivity|].
  unfold Obj.wf, Obj.keys in Hwf. simpl in Hwf. apply NoDup_cons in Hwf as [Hnotin Hwf].
  assert (Hsafe1 : query_safe k1).
  { apply Hsafe. unfold Obj.keys. simpl. apply elem_of_cons. by left. }
  assert (Hsafe' : forall k', k' ∈ Obj.keys d -> query_safe k').
  { intros k' Hk'. apply Hsafe. unfold Obj.keys in *. simpl. apply elem_of_cons. by right. }
  simpl flat_map. rewrite List.filter_app, values_for_app, IH by done.
  simpl Obj.lookup. destruct (String.eqb k k1) eqn:E.
  - apply String.eqb_eq in E. subst k1.
    assert (Obj.lookup k d = None) as -> by by apply lookup_None_keys.
    rewrite app_nil_r.
    destruct (decide (k = "__proto__")) as [->|Hproto]; [reflexivity|].
    apply values_for_same; [done|]. by apply entry_items_names.
  - apply String.eqb_neq in E.
    rewrite (values_for_other k k1); [reflexivity|congruence|].
    by apply entry_items_names.
Qed.

(** What [parseQuery] reads for a name in the string that [buildQuery]
    wrote for the data [d]. *)
Lemma lookup_reparsed k d :
  Obj.wf d ->
  (forall k', k' ∈ Obj.keys d -> query_safe k') ->
  Obj.lookup k (URI.parseQuery (URI.buildQuery host d))
  = Obj.lookup k d ≫= read_back host k.
Proof.
  intros Hwf Hsafe. rewrite parseQuery_buildQuery_lookup, values_for_entries by done.
  by destruct (Obj.lookup k d).
Qed.

Lemma read_back_undefined k : read_back host k VUndefined = None.
Proof. unfold read_back, entry_items. by destruct (String.eqb k "__proto__"). Qed.

Lemma nonempty_app_cons p c q : nonempty (p ++ String c q) = true.
Proof. by destruct p. Qed.

Lemma read_back_string k s :
  k <> "__proto__" -> query_safe s ->
  read_back host k (VStr s) = Some (VStr s).
Proof.
  intros Hk Hs. unfold read_back, entry_items.
  assert (String.eqb k "__proto__" = false) as -> by by apply String.eqb_neq.
  cbn [List.filter].
  assert (nonempty (URI.buildQueryParameter host k (VStr s)) = true) as ->.
  { unfold URI.buildQueryParameter. change ("=" ++ ?r) with (String "=" r).
    apply nonempty_app_cons. }
  cbn [List.map]. rewrite parse_item_parameter. cbn [ToString].
  unfold query_safe in Hs. by rewrite Hs.
Qed.

Lemma encodeQuery_nonempty s : s <> "" -> nonempty (URI.encodeQuery s) = true.
Proof.
  destruct s as [|c s]; [done|]. intros _. unfold URI.encodeQuery.
  cbn [Str.flat_map].
  destruct (Ascii.eqb c " "); [reflexivity|].
  destruct (Pct.unreserved c); reflexivity.
Qed.

Lemma read_back_null k :
  k <> "__proto__" -> k <> "" ->
  read_back host k VNull = Some VNull.
Proof.
  intros Hk Hne. unfold read_back, entry_items.
  assert (String.eqb k "__proto__" = false) as -> by by apply String.eqb_neq.
  cbn [List.filter].
  assert (nonempty (URI.buildQueryParameter host k VNull) = true) as ->.
  { unfold URI.buildQueryParameter. rewrite app_empty_r. by apply encodeQuery_nonempty. }
  cbn [List.map]. by rewrite parse_item_parameter.
Qed.

(** *** The data stay well-formed *)

Lemma keys_cons k v d : Obj.keys ((k, v) :: d) = k :: Obj.keys d.
Proof. reflexivity. Qed.

Lemma keys_replace k v d : Obj.keys (Obj.replace k v d) = Obj.keys d.
Proof.
  induction d as [|[k1 v1] d IH]; [reflexivity|]. cbn [Obj.replace].
  destruct (String.eqb k k1) eqn:E.
  - apply String.eqb_eq in E. by subst.
  - by rewrite !keys_cons, IH.
Qed.

Lemma keys_add_new k v d : Obj.keys (Obj.add_new k v d) ≡ₚ k :: Obj.keys d.
Proof.
  induction d as [|[k1 v1] d IH]; [reflexivity|]. cbn [Obj.add_new].
  destruct (Obj.comes_before k k1); [reflexivity|].
  rewrite !keys_cons, IH. apply Permutation_swap.
Qed.

Lemma wf_set k v d : Obj.wf d -> Obj.wf (Obj.set k v d).
Proof.
  unfold Obj.wf, Obj.set. intros Hwf. destruct (Obj.has k d) eqn:E.
  - by rewrite keys_replace.
  - rewrite keys_add_new. apply NoDup_cons. split; [|done].
    apply lookup_None_keys. unfold Obj.has in E. by destruct (Obj.lookup k d).
Qed.

Lemma keys_set k v d k' : k' ∈ Obj.keys (Obj.set k v d) -> k' = k \/ k' ∈ Obj.keys d.
Proof.
  unfold Obj.set. destruct (Obj.has k d).
  - rewrite keys_replace. auto.
  - rewrite keys_add_new. intros [->|?]%elem_of_cons; auto.
Qed.

Lemma wf_add_item acc item : Obj.wf acc -> Obj.wf (URI.add_item acc item).
Proof.
  intros Hwf. unfold URI.add_item. destruct (URI.parse_item item) as [name v].
  destruct (String.eqb name "__proto__"); [done|].
  destruct (Obj.lookup name acc) as [[]|]; by apply wf_set.
Qed.

Lemma wf_parseQuery q : Obj.wf (URI.parseQuery q).
Proof.
  unfold URI.parseQuery.
  assert (H : forall items acc, Obj.wf acc -> Obj.wf (fold_left URI.add_item items acc)).
  { induction items as [|item items IH]; intros acc Hacc; [done|].
    simpl. by apply IH, wf_add_item. }
  apply H. constructor.
Qed.

Lemma wf_data_set k v d : Obj.wf d -> Obj.wf (URI.data_set k v d).
Proof. unfold URI.data_set. destruct (String.eqb k "__proto__"); auto using wf_set. Qed.

Lemma keys_data_set k v d k' :
  k' ∈ Obj.keys (URI.data_set k v d) -> k' = k \/ k' ∈ Obj.keys d.
Proof.
  unfold URI.data_set. destruct (String.eqb k "__proto__"); [by right|].
  apply keys_set.
Qed.

Lemma lookup_data_set_ne k k' v d :
  k <> k' -> Obj.lookup k' (URI.data_set k v d) = Obj.lookup k' d.
Proof.
  intros Hne. unfold URI.data_set.
  destruct (String.eqb k "__proto__"); [reflexivity|]. by apply lookup_set_ne.
Qed.

Lemma lookup_data_set_eq k v d :
  k <> "__proto__" -> Obj.lookup k (URI.data_set k v d) = Some v.
Proof.
  intros Hne. unfold URI.data_set.
  assert (String.eqb k "__proto__" = false) as -> by by apply String.eqb_neq.
  apply lookup_set_eq.
Qed.

Lemma param_proto url : param "__proto__" url = None.
Proof.
  unfold param, URI.parseQuery. rewrite fold_add_item_lookup.
  unfold values_for.
  assert (H : forall l : list (string * value),
             List.filter (fun nv => String.eqb nv.1 "__proto__"
                                    && negb (String.eqb nv.1 "__proto__")) l = []).
  { induction l as [|nv l IH]; [reflexivity|]. cbn [List.filter].
    destruct (String.eqb nv.1 "__proto__"); exact IH. }
  by rewrite H.
Qed.

End QueryFacts.

(** ** The loop of [addFiltersToLink] *)

Section Filters.

Context (host : Host) (formatText : value -> outcome value).

Implicit Types (url : URI.parts) (d : props) (k key : string) (v : value).

Lemma add_filter_data url key v :
  add_filter host formatText url key v
  = (d ← filter_data host formatText key v (query_data url);
     Ret (URI.set_query (Some (URI.buildQuery host d)) url)).
Proof.
  unfold add_filter, filter_data.
  destruct (removes_parameter v); [reflexivity|].
  destruct (String.eqb key "datetime").
  { by destruct (formatDatetimeQuery host v). }
  destruct (String.eqb key "bbox" && isArray v); [reflexivity|].
  destruct ((String.eqb key "collections" || String.eqb key "ids") && isArray v);
    [reflexivity|].
  destruct (String.eqb key "filters"); [|reflexivity].
  destruct (formatText v) as [params|e]; [|reflexivity].
  by destruct params.
Qed.

Lemma query_data_set_query url q :
  query_data (URI.set_query (Some q) url) = URI.parseQuery q.
Proof. reflexivity. Qed.

Lemma wf_fold_data_set (ps : props) d :
  Obj.wf d -> Obj.wf (fold_left (fun d kv => URI.data_set kv.1 kv.2 d) ps d).
Proof.
  revert d. induction ps as [|kv ps IH]; intros d Hd; [done|].
  simpl. by apply IH, wf_data_set.
Qed.

Lemma keys_fold_data_set (ps : props) d k :
  k ∈ Obj.keys (fold_left (fun d kv => URI.data_set kv.1 kv.2 d) ps d) ->
  k ∈ Obj.keys ps \/ k ∈ Obj.keys d.
Proof.
  revert d. induction ps as [|[k1 v1] ps IH]; intros d; [by right|].
  cbn [fold_left fst snd]. intros [H|H]%IH.
  - left. rewrite keys_cons. apply elem_of_cons. by right.
  - apply keys_data_set in H as [->|H]; [|by right].
    left. rewrite keys_cons. apply elem_of_cons. by left.
Qed.

Lemma lookup_fold_data_set (ps : props) d k :
  k ∉ Obj.keys ps ->
  Obj.lookup k (fold_left (fun d kv => URI.data_set kv.1 kv.2 d) ps d)
  = Obj.lookup k d.
Proof.
  revert d. induction ps as [|[k1 v1] ps IH]; intros d Hk; [reflexivity|].
  rewrite keys_cons in Hk. apply not_elem_of_cons in Hk as [Hne Hk].
  cbn [fold_left fst snd]. rewrite IH by done. apply lookup_data_set_ne. congruence.
Qed.

Lemma keys_imap_decimal (l : list value) :
  Obj.keys (imap (fun i v => (decimal (Z.of_nat i), v)) l)
  = imap (fun i _ => decimal (Z.of_nat i)) l.
Proof.
  unfold Obj.keys. rewrite fmap_imap. reflexivity.
Qed.

Lemma params_data_wf params d d' :
  params_data params d = Ret d' -> Obj.wf d -> Obj.wf d'.
Proof.
  destruct params; simpl; intros [= <-] Hd;
    auto using wf_data_set, wf_fold_data_set.
Qed.

Lemma params_data_keys params d d' k :
  params_data params d = Ret d' ->
  k ∈ Obj.keys d' -> k ∈ formatter_keys params \/ k ∈ Obj.keys d.
Proof.
  destruct params; simpl; intros [= <-] Hk; auto.
  - apply keys_data_set in Hk as [->|]; [left; apply elem_of_cons; by left|by right].
  - apply keys_fold_data_set in Hk. by rewrite keys_imap_decimal in Hk.
  - by apply keys_fold_data_set in Hk.
Qed.

Lemma params_data_lookup params d d' k :
  params_data params d = Ret d' ->
  k ∉ formatter_keys params -> Obj.lookup k d' = Obj.lookup k d.
Proof.
  destruct params; simpl; intros [= <-] Hk; auto.
  - apply lookup_data_set_ne. intros ->. apply Hk, elem_of_cons. by left.
  - apply lookup_fold_data_set. by rewrite keys_imap_decimal.
  - by apply lookup_fold_data_set.
Qed.

(** The step on the data: well-formedness, names and the frame. *)
Lemma filter_data_wf key v d d' :
  filter_data host formatText key v d = Ret d' -> Obj.wf d -> Obj.wf d'.
Proof.
  unfold filter_data. intros H Hd.
  repeat match type of H with
         | (if ?b then _ else _) = _ => destruct b
         | (?m ≫= _) = _ => let E := fresh "E" in destruct m eqn:E; simpl in H
         | Ret _ = Ret _ => injection H as <-
         end;
    try discriminate; eauto using wf_data_set, params_data_wf.
Qed.

Lemma filter_data_keys key v d d' k :
  filter_data host formatText key v d = Ret d' ->
  k ∈ Obj.keys d' ->
  k ∈ Obj.keys d \/ k = key
  \/ exists params, key = "filters" /\ removes_parameter v = false
                    /\ formatText v = Ret params /\ k ∈ formatter_keys params.
Proof.
  unfold filter_data. intros H Hk.
  destruct (removes_parameter v) eqn:Hrem.
  { injection H as <-. apply keys_data_set in Hk as [->|]; auto. }
  destruct (String.eqb key "datetime").
  { destruct (formatDatetimeQuery host v); [|discriminate]. injection H as <-.
    apply keys_data_set in Hk as [->|]; auto. }
  destruct (String.eqb key "bbox" && isArray v).
  { injection H as <-. apply keys_data_set in Hk as [->|]; auto. }
  destruct ((String.eqb key "collections" || String.eqb key "ids") && isArray v).
  { injection H as <-. apply keys_data_set in Hk as [->|]; auto. }
  destruct (String.eqb key "filters") eqn:Hkey.
  - apply String.eqb_eq in Hkey. destruct (formatText v) as [params|] eqn:Hft; [|discriminate].
    simpl in H. apply (params_data_keys _ _ _ k) in H as [H|H]; auto.
    right. right. by exists params.
  - injection H as <-. apply keys_data_set in Hk as [->|]; auto.
Qed.

Lemma filter_data_lookup key v d d' k :
  filter_data host formatText key v d = Ret d' ->
  k <> key ->
  (forall params, key = "filters" -> removes_parameter v = false ->
                  formatText v = Ret params -> k ∉ formatter_keys params) ->
  Obj.lookup k d' = Obj.lookup k d.
Proof.
  unfold filter_data. intros H Hne Hft.
  assert (Hset : forall x, Obj.lookup k (URI.data_set key x d) = Obj.lookup k d).
  { intros x. apply lookup_data_set_ne. congruence. }
  destruct (removes_parameter v) eqn:Hrem.
  { by injection H as <-. }
  destruct (String.eqb key "datetime").
  { destruct (formatDatetimeQuery host v); [|discriminate]. by injection H as <-. }
  destruct (String.eqb key "bbox" && isArray v).
  { by injection H as <-. }
  destruct ((String.eqb key "collections" || String.eqb key "ids") && isArray v).
  { by injection H as <-. }
  destruct (String.eqb key "filters") eqn:Hkey.
  - apply String.eqb_eq in Hkey. destruct (formatText v) as [params|] eqn:Hp; [|discriminate].
    simpl in H. eapply params_data_lookup; eauto.
  - by injection H as <-.
Qed.

(** *** One step on the URI *)

Lemma keeps_refl k url : keeps k url url.
Proof. unfold keeps. auto. Qed.

Lemma keeps_trans k url1 url2 url3 :
  keeps k url1 url2 -> keeps k url2 url3 -> keeps k url1 url3.
Proof.
  intros (A1 & A2 & A3) (B1 & B2 & B3). unfold keeps. repeat split; auto.
Qed.

Lemma param_not_None_keys k url :
  param k url <> None <-> k ∈ Obj.keys (query_data url).
Proof.
  unfold param. fold (query_data url). rewrite lookup_None_keys.
  destruct (decide (k ∈ Obj.keys (query_data url))); tauto.
Qed.

Lemma add_filter_inv url key v url' :
  add_filter host formatText url key v = Ret url' ->
  exists d', filter_data host formatText key v (query_data url) = Ret d'
             /\ url' = URI.set_query (Some (URI.buildQuery host d')) url.
Proof.
  rewrite add_filter_data.
  destruct (filter_data host formatText key v (query_data url)) as [d'|];
    [|discriminate].
  intros [= <-]. eauto.
Qed.

Lemma step_names_safe url key v d' :
  filter_data host formatText key v (query_data url) = Ret d' ->
  safe_names url ->
  query_safe key ->
  (forall params, key = "filters" -> removes_parameter v = false ->
                  formatText v = Ret params ->
                  Forall query_safe (formatter_keys params)) ->
  forall k', k' ∈ Obj.keys d' -> query_safe k'.
Proof.
  intros Hd Hsafe Hkey Hft k' Hk'.
  destruct (filter_data_keys key v _ _ k' Hd Hk')
    as [H|[->|(params & -> & Hrem & Hp & Hin)]]; [|done|].
  - by apply Hsafe, param_not_None_keys.
  - specialize (Hft params eq_refl Hrem Hp). rewrite Forall_forall in Hft.
    by apply Hft.
Qed.

Lemma param_step url d' k :
  Obj.wf d' ->
  (forall k', k' ∈ Obj.keys d' -> query_safe k') ->
  param k (URI.set_query (Some (URI.buildQuery host d')) url)
  = Obj.lookup k d' ≫= read_back host k.
Proof. intros. unfold param. by apply lookup_reparsed. Qed.

Lemma add_filter_safe url key v url' :
  add_filter host formatText url key v = Ret url' ->
  safe_names url ->
  query_safe key ->
  (forall params, key = "filters" -> removes_parameter v = false ->
                  formatText v = Ret params ->
                  Forall query_safe (formatter_keys params)) ->
  safe_names url'.
Proof.
  intros (d' & Hd & ->)%add_filter_inv Hsafe Hkey Hft k' Hk'.
  pose proof (step_names_safe _ _ _ _ Hd Hsafe Hkey Hft) as Hnames.
  rewrite param_step in Hk' by eauto using filter_data_wf, wf_parseQuery.
  apply Hnames.
  destruct (Obj.lookup k' d') eqn:E; [|done]. by eapply lookup_Some_keys.
Qed.

Lemma add_filter_keeps url key v url' k :
  add_filter host formatText url key v = Ret url' ->
  safe_names url ->
  query_safe key ->
  (forall params, key = "filters" -> removes_parameter v = false ->
                  formatText v = Ret params ->
                  Forall query_safe (formatter_keys params)) ->
  k <> key ->
  (forall params, key = "filters" -> removes_parameter v = false ->
                  formatText v = Ret params -> k ∉ formatter_keys params) ->
  keeps k url url'.
Proof.
  intros (d' & Hd & ->)%add_filter_inv Hsafe Hkey Hft Hne Havoid.
  pose proof (step_names_safe _ _ _ _ Hd Hsafe Hkey Hft) as Hnames.
  assert (Hk : forall x, param k url = x ->
             param k (URI.set_query (Some (URI.buildQuery host d')) url)
             = x ≫= read_back host k).
  { intros x <-. rewrite param_step by eauto using filter_data_wf, wf_parseQuery.
    by rewrite (filter_data_lookup key v _ _ k Hd). }
  assert (Hproto : param k url <> None -> k <> "__proto__").
  { intros H ->. by rewrite param_proto in H. }
  unfold keeps. repeat split.
  - intros H. by rewrite (Hk _ H).
  - intros s H Hs. rewrite (Hk _ H). simpl.
    apply read_back_string; [|by apply utf8_query_safe]. apply Hproto. by rewrite H.
  - intros H Hk0. rewrite (Hk _ H). simpl.
    apply read_back_null; [|done]. apply Hproto. by rewrite H.
Qed.

Lemma add_filter_removes url key v url' :
  add_filter host formatText url key v = Ret url' ->
  safe_names url -> query_safe key ->
  removes_parameter v = true ->
  param key url' = None.
Proof.
  intros (d' & Hd & ->)%add_filter_inv Hsafe Hkey Hrem.
  assert (Hft : forall params, key = "filters" -> removes_parameter v = false ->
                 formatText v = Ret params -> Forall query_safe (formatter_keys params))
    by (intros; congruence).
  pose proof (step_names_safe _ _ _ _ Hd Hsafe Hkey Hft) as Hnames.
  destruct (decide (key = "__proto__")) as [->|Hproto]; [apply param_proto|].
  rewrite param_step by eauto using filter_data_wf, wf_parseQuery.
  unfold filter_data in Hd. rewrite Hrem in Hd. injection Hd as <-.
  rewrite lookup_data_set_eq by done. apply read_back_undefined.
Qed.

Lemma add_filter_string url key v url' s :
  add_filter host formatText url key v = Ret url' ->
  safe_names url -> query_safe key -> query_safe s ->
  key <> "__proto__" -> key <> "filters" ->
  filter_data host formatText key v (query_data url)
  = Ret (URI.data_set key (VStr s) (query_data url)) ->
  param key url' = Some (VStr s).
Proof.
  intros (d' & Hd & ->)%add_filter_inv Hsafe Hkey Hs Hproto Hfilters Hset.
  assert (Hft : forall params, key = "filters" -> removes_parameter v = false ->
                 formatText v = Ret params -> Forall query_safe (formatter_keys params))
    by (intros; congruence).
  pose proof (step_names_safe _ _ _ _ Hd Hsafe Hkey Hft) as Hnames.
  rewrite param_step by eauto using filter_data_wf, wf_parseQuery.
  rewrite Hset in Hd. injection Hd as <-.
  rewrite lookup_data_set_eq by done. by apply read_back_string.
Qed.

(** *** The whole loop *)

Lemma formatter_output_cons kv (fs : props) params :
  formatter_output formatText fs params ->
  formatter_output formatText (kv :: fs) params.
Proof.
  intros (vf & Hin & Hrem & Hp). exists vf. repeat split; auto.
  apply elem_of_cons. by right.
Qed.

Lemma formatter_output_head v (fs : props) params :
  removes_parameter v = false -> formatText v = Ret params ->
  formatter_output formatText (("filters", v) :: fs) params.
Proof. intros. exists v. repeat split; auto. apply elem_of_cons. by left. Qed.

Lemma add_filters_keeps (fs : props) url url' :
  add_filters host formatText url fs = Ret url' ->
  safe_names url ->
  Forall query_safe (Obj.keys fs) ->
  (forall params, formatter_output formatText fs params ->
                  Forall query_safe (formatter_keys params)) ->
  safe_names url'
  /\ forall k, k ∉ Obj.keys fs ->
               (forall params, formatter_output formatText fs params ->
                               k ∉ formatter_keys params) ->
               keeps k url url'.
Proof.
  revert url. induction fs as [|[key v] fs IH]; intros url Hrun Hsafe Hkeys Hft.
  - injection Hrun as <-. split; [done|]. intros. apply keeps_refl.
  - cbn [add_filters] in Hrun.
    destruct (add_filter host formatText url key v) as [url1|] eqn:Hstep; [|discriminate].
    cbn [mbind outcome_bind] in Hrun.
    rewrite keys_cons in Hkeys. apply Forall_cons in Hkeys as [Hkey Hkeys].
    assert (Hft1 : forall params, key = "filters" -> removes_parameter v = false ->
                     formatText v = Ret params ->
                     Forall query_safe (formatter_keys params)).
    { intros params -> Hrem Hp. by apply Hft, formatter_output_head. }
    pose proof (add_filter_safe _ _ _ _ Hstep Hsafe Hkey Hft1) as Hsafe1.
    destruct (IH url1 Hrun Hsafe1 Hkeys) as [Hsafe' Hkeep].
    { intros params Hp. by apply Hft, formatter_output_cons. }
    split; [done|]. intros k Hk Havoid.
    rewrite keys_cons in Hk. apply not_elem_of_cons in Hk as [Hne Hk].
    apply (keeps_trans k url url1 url').
    + apply (add_filter_keeps url key v url1 k); auto.
      intros params -> Hrem Hp. by apply Havoid, formatter_output_head.
    + apply Hkeep; [done|]. intros params Hp. by apply Havoid, formatter_output_cons.
Qed.

Lemma add_filters_at (fs : props) url url' k v :
  Obj.wf fs ->
  Obj.lookup k fs = Some v ->
  add_filters host formatText url fs = Ret url' ->
  safe_names url ->
  Forall query_safe (Obj.keys fs) ->
  (forall params, formatter_output formatText fs params ->
                  Forall query_safe (formatter_keys params)) ->
  (forall params, formatter_output formatText fs params ->
                  k ∉ formatter_keys params) ->
  exists url1 url2,
    safe_names url1
    /\ add_filter host formatText url1 k v = Ret url2
    /\ keeps k url2 url'.
Proof.
  revert url. induction fs as [|[key v1] fs IH];
    intros url Hwf Hk Hrun Hsafe Hkeys Hft Havoid; [discriminate|].
  cbn [add_filters] in Hrun.
  destruct (add_filter host formatText url key v1) as [url1|] eqn:Hstep; [|discriminate].
  cbn [mbind outcome_bind] in Hrun.
  unfold Obj.wf in Hwf. rewrite keys_cons in Hwf, Hkeys.
  apply NoDup_cons in Hwf as [Hnotin Hwf].
  apply Forall_cons in Hkeys as [Hkey Hkeys].
  assert (Hft1 : forall params, key = "filters" -> removes_parameter v1 = false ->
                   formatText v1 = Ret params ->
                   Forall query_safe (formatter_keys params)).
  { intros params -> Hrem Hp. by apply Hft, formatter_output_head. }
  assert (Hft' : forall params, formatter_output formatText fs params ->
                   Forall query_safe (formatter_keys params)).
  { intros params Hp. by apply Hft, formatter_output_cons. }
  assert (Havoid' : forall params, formatter_output formatText fs params ->
                      k ∉ formatter_keys params).
  { intros params Hp. by apply Havoid, formatter_output_cons. }
  pose proof (add_filter_safe _ _ _ _ Hstep Hsafe Hkey Hft1) as Hsafe1.
  cbn [Obj.lookup] in Hk. destruct (String.eqb k key) eqn:E.
  - apply String.eqb_eq in E. subst key. injection Hk as ->.
    exists url, url1. split; [done|]. split; [done|].
    by apply (add_filters_keeps fs url1 url' Hrun Hsafe1 Hkeys Hft').
  - by apply (IH url1).
Qed.

End Filters.

(** ** Query construction *)

Section AddFilters.

Context (host : Host) (formatText : value -> outcome value).

Lemma format_bound_valid dt :
  invalid_date dt = false ->
  exists x, format_bound host dt = Ret x
            /\ join_item host x = datetime_bound host dt.
Proof.
  intros Hvalid.
  destruct dt as [| |b|n|s|l|[|[t|]] ps]; try discriminate Hvalid;
    unfold format_bound, datetime_bound;
    try (destruct (truthy _) eqn:E; try discriminate E);
    eexists; (split; [reflexivity|reflexivity]).
Qed.

Lemma map_bounds_valid l :
  Forall (fun dt => invalid_date dt = false) l ->
  exists l', map_bounds host l = Ret l'
             /\ List.map (join_item host) l' = List.map (datetime_bound host) l.
Proof.
  induction 1 as [|dt l Hdt Hl (l' & Hl' & Hmap)]; [by exists []|].
  destruct (format_bound_valid dt Hdt) as (x & Hx & Hjoin).
  exists (x :: l'). cbn [map_bounds]. rewrite Hx, Hl'. split; [reflexivity|].
  cbn [List.map]. by rewrite Hjoin, Hmap.
Qed.

Lemma formatDatetimeQuery_interval l :
  Forall (fun dt => invalid_date dt = false) l ->
  formatDatetimeQuery host (VArr l) = Ret (interval host l).
Proof.
  intros (l' & Hl' & Hmap)%map_bounds_valid.
  unfold formatDatetimeQuery, interval, join. rewrite Hl'. cbn. by rewrite Hmap.
Qed.

(** The loop returns when every [datetime] is an array without invalid
    dates and the formatter returns parameters that [setQuery] takes. *)
Lemma add_filters_returns (fs : props) url :
  (forall dv, ("datetime", dv) ∈ fs -> removes_parameter dv = false ->
              exists l, dv = VArr l /\ Forall (fun dt => invalid_date dt = false) l) ->
  (forall vf, ("filters", vf) ∈ fs -> removes_parameter vf = false ->
              exists params, formatText vf = Ret params
                             /\ accepted_params params = true) ->
  exists url', add_filters host formatText url fs = Ret url'.
Proof.
  revert url. induction fs as [|[key v] fs IH]; intros url Hdt Hft; [by eexists|].
  cbn [add_filters].
  assert (Hstep : exists url1, add_filter host formatText url key v = Ret url1).
  { unfold add_filter. destruct (removes_parameter v) eqn:Hrem; [by eexists|].
    destruct (String.eqb key "datetime") eqn:E.
    { apply String.eqb_eq in E. subst key.
      destruct (Hdt v) as (l & -> & Hl); [apply elem_of_cons; by left|done|].
      rewrite formatDatetimeQuery_interval by done. by eexists. }
    destruct (String.eqb key "bbox" && isArray v); [by eexists|].
    destruct ((String.eqb key "collections" || String.eqb key "ids") && isArray v);
      [by eexists|].
    destruct (String.eqb key "filters") eqn:E2; [|by eexists].
    apply String.eqb_eq in E2. subst key.
    destruct (Hft v) as (params & -> & Hacc); [apply elem_of_cons; by left|done|].
    destruct params; try discriminate; by eexists. }
  destruct Hstep as [url1 ->]. cbn [mbind outcome_bind].
  apply IH.
  - intros dv Hin. apply Hdt, elem_of_cons. by right.
  - intros vf Hin. apply Hft, elem_of_cons. by right.
Qed.

Lemma filtered_href_run link href url0 (fs : props) url :
  get_member link "href" = Ret (VStr href) ->
  URI.parse href = Ret url0 ->
  add_filters host formatText url0 fs = Ret url ->
  filtered_href host formatText link fs = Ret (URI.toString url).
Proof.
  intros Hget Hparse Hrun. unfold filtered_href. rewrite Hget.
  cbn [mbind outcome_bind URI_new]. rewrite Hparse.
  cbn [mbind outcome_bind]. by rewrite Hrun.
Qed.


End AddFilters.

Ltac concrete_member H :=
  repeat (apply elem_of_cons in H as [H|H]);
  try (by apply elem_of_nil in H); try discriminate H.



(** ** The new link *)

Lemma lookup_assign k (target source : props) :
  Obj.wf source ->
  Obj.lookup k (Obj.assign target source)
  = match Obj.lookup k source with
    | Some v => Some v
    | None => Obj.lookup k target
    end.
Proof.
  unfold Obj.assign. revert target.
  induction source as [|[k1 v1] source IH]; intros target Hwf; [reflexivity|].
  unfold Obj.wf in Hwf. rewrite keys_cons in Hwf. apply NoDup_cons in Hwf as [Hnotin Hwf].
  cbn [fold_left fst snd Obj.lookup]. rewrite IH by done.
  destruct (String.eqb k k1) eqn:E.
  - apply String.eqb_eq in E. subst k1.
    assert (Obj.lookup k source = None) as -> by by apply lookup_None_keys.
    apply lookup_set_eq.
  - apply String.eqb_neq in E. destruct (Obj.lookup k source); [reflexivity|].
    apply lookup_set_ne. congruence.
Qed.

Lemma filtered_href_inv host formatText link (fs : props) s :
  filtered_href host formatText link fs = Ret s ->
  exists href url0 url,
    get_member link "href" = Ret (VStr href)
    /\ URI.parse href = Ret url0
    /\ add_filters host formatText url0 fs = Ret url
    /\ s = URI.toString url.
Proof.
  unfold filtered_href.
  destruct (get_member link "href") as [hv|] eqn:Hget; [|discriminate].
  cbn [mbind outcome_bind]. destruct hv as [| | | |href| |]; try discriminate.
  cbn [URI_new]. destruct (URI.parse href) as [url0|] eqn:Hparse; [|discriminate].
  cbn [mbind outcome_bind].
  destruct (add_filters host formatText url0 fs) as [url|] eqn:Hrun; [|discriminate].
  intros [= <-]. by exists href, url0, url.
Qed.




(** * Properties of the other helpers *)

(** ** Media types *)

Lemma lower_ascii_idem c : Str.lower_ascii (Str.lower_ascii c) = Str.lower_ascii c.
Proof. by destruct c as [[] [] [] [] [] [] [] []]. Qed.

Lemma toLowerCase_idem s : Str.toLowerCase (Str.toLowerCase s) = Str.toLowerCase s.
Proof.
  induction s as [|c s IH]; cbn [Str.toLowerCase]; [done|].
  by rewrite lower_ascii_idem, IH.
Qed.

Lemma toLowerCase_is_empty s : Str.is_empty (Str.toLowerCase s) = Str.is_empty s.
Proof. by destruct s. Qed.

Lemma same_value_zero_string v s : same_value_zero (VStr s) v = true <-> v = VStr s.
Proof.
  unfold same_value_zero. destruct v as [| | | |x| |]; cbn; split; try done.
  - rewrite ?orb_false_r. by intros ->%String.eqb_eq.
  - intros [= ->]. by rewrite String.eqb_refl.
Qed.

Lemma includes_string l s : includes l (VStr s) = true <-> VStr s ∈ l.
Proof.
  unfold includes. rewrite existsb_exists. split.
  - intros (x & Hin & Hx). apply same_value_zero_string in Hx as ->.
    by apply list_elem_of_In.
  - intros Hin. exists (VStr s). split; [by apply list_elem_of_In|].
    by apply same_value_zero_string.
Qed.

(** X1.  [isMediaType(type, types, allowEmpty)] is true in two cases
    only: [allowEmpty] is truthy and [type] is falsy; or [type] is a
    string whose lower-case form is one of [types], where a [types] that
    is not an array counts as the list of that one value.  A [type] that
    is not a string and not accepted as empty is never a media type. *)
Theorem isMediaType_spec (type types allowEmpty : value) :
  isMediaType type types allowEmpty = true
  <-> (truthy allowEmpty = true /\ truthy type = false)
      \/ (exists s, type = VStr s /\ VStr (Str.toLowerCase s) ∈ listed types).
Proof.
  unfold isMediaType.
  destruct (truthy allowEmpty) eqn:He, (truthy type) eqn:Ht; cbn [andb negb].
  - destruct type as [| | | |s| |]; try rewrite includes_string; split;
      try done; try (intros [[_ [=]]|(s' & [=] & _)]; fail).
    + intros H. right. by exists s.
    + by intros [[_ [=]]|(s' & [= <-] & H)].
  - split; [by left|done].
  - destruct type as [| | | |s| |]; try rewrite includes_string; split;
      try done; try (intros [[[=] _]|(s' & [=] & _)]; fail).
    + intros H. right. by exists s.
    + by intros [[[=] _]|(s' & [= <-] & H)].
  - destruct type as [| | | |s| |]; try rewrite includes_string; split;
      try done; try (intros [[[=] _]|(s' & [=] & _)]; fail).
    + intros H. right. by exists s.
    + by intros [[[=] _]|(s' & [= <-] & H)].
Qed.

(** X2.  The comparison ignores the case of [type] but not the case of
    the entries of [types]: two strings with the same lower-case form get
    the same answer, and an entry that is not in lower case is matched by
    no string at all.  The entries of [stacMediaTypes] are in lower
    case, so that [isStacMediaType] accepts a string exactly when its
    lower-case form is [application/json], [application/geo+json] or
    [text/json], or when it is empty and [allowEmpty] is truthy. *)
Theorem isMediaType_case :
  (forall s t types allowEmpty,
      Str.toLowerCase s = Str.toLowerCase t ->
      isMediaType (VStr s) types allowEmpty = isMediaType (VStr t) types allowEmpty)
  /\ (forall s entry,
        Str.toLowerCase entry <> entry ->
        isMediaType (VStr s) (VStr entry) (VBool false) = false)
  /\ (forall s allowEmpty,
        isStacMediaType (VStr s) allowEmpty = true
        <-> Str.toLowerCase s ∈ stacMediaTypes
            \/ (s = "" /\ truthy allowEmpty = true)).
Proof.
  split; [|split].
  - intros s t types allowEmpty H. unfold isMediaType. cbn [truthy].
    rewrite H. f_equal. f_equal.
    by rewrite <- (toLowerCase_is_empty s), <- (toLowerCase_is_empty t), H.
  - intros s entry H. unfold isMediaType, listed, includes, same_value_zero. cbn.
    rewrite ?orb_false_r. apply String.eqb_neq. intros Heq.
    rewrite <- Heq in H. by rewrite toLowerCase_idem in H.
  - intros s allowEmpty. unfold isStacMediaType, isMediaType.
    cbn [listed truthy].
    assert (Hin : includes (VStr <$> stacMediaTypes) (VStr (Str.toLowerCase s)) = true
                  <-> Str.toLowerCase s ∈ stacMediaTypes).
    { rewrite includes_string. split.
      - by intros (x & [= ->] & Hx)%list_elem_of_fmap.
      - intros Hx. by apply list_elem_of_fmap_2. }
    destruct (truthy allowEmpty), s as [|c s]; cbn [Str.is_empty negb andb].
    + split; [by right|done].
    + rewrite Hin. split; [by left|]. by intros [H|[[=] _]].
    + rewrite Hin. split; [by left|]. by intros [H|[_ [=]]].
    + rewrite Hin. split; [by left|]. by intros [H|[[=] _]].
Qed.

Lemma isMediaType_case_witness :
  isMediaType (VStr "Application/GEO+JSON") (VArr (VStr <$> stacMediaTypes)) VNull
  = isMediaType (VStr "application/geo+json") (VArr (VStr <$> stacMediaTypes)) VNull
  /\ isMediaType (VStr "image/png") (VStr "image/PNG") (VBool false) = false.
Proof.
  split.
  - apply (proj1 isMediaType_case). reflexivity.
  - apply (proj1 (proj2 isMediaType_case)). discriminate.
Defined.

(** ** Links by relation type *)

Lemma filter_links_ext (p q : value -> outcome bool) links :
  (forall x, p x = q x) -> filter_links p links = filter_links q links.
Proof.
  intros H. induction links as [|x links IH]; [done|].
  cbn [filter_links]. by rewrite H, IH.
Qed.

Lemma filter_links_pure (f : value -> bool) links :
  filter_links (fun x => Ret (f x)) links = Ret (List.filter f links).
Proof.
  induction links as [|x links IH]; [done|].
  cbn [filter_links List.filter]. rewrite IH. cbn. by destruct (f x).
Qed.

Lemma filter_sublist (f : value -> bool) (l : list value) :
  sublist (List.filter f l) l.
Proof.
  induction l as [|x l IH]; cbn [List.filter]; [constructor|].
  destruct (f x); by constructor.
Qed.

Lemma elem_of_filter_bool (f : value -> bool) (l : list value) x :
  x ∈ List.filter f l <-> x ∈ l /\ f x = true.
Proof. rewrite !list_elem_of_In. apply filter_In. Qed.

Lemma filter_split_length (f g : value -> bool) (l : list value) :
  length (List.filter (fun x => f x && g x) l)
  + length (List.filter (fun x => f x && negb (g x)) l)
  = length (List.filter f l).
Proof.
  induction l as [|x l IH]; [done|]. cbn [List.filter].
  destruct (f x), (g x); cbn [andb negb length]; lia.
Qed.

(** X3.  On an array of links and an array of relation types,
    [getLinksWithRels] and [getLinksWithOtherRels] split the usable
    links (objects with a non-empty string [href]) in two: each usable
    link is in exactly one of the two results, according to whether its
    [rel] is among [rels]; both results keep the order of [links], and
    nothing else is in them. *)
Theorem getLinksWithRels_partition (host : Host) (links rels : list value) :
  exists found others,
    getLinksWithRels host (VArr links) (VArr rels) = Ret (VArr found)
    /\ getLinksWithOtherRels host (VArr links) (VArr rels) = Ret (VArr others)
    /\ sublist found links /\ sublist others links
    /\ (forall x, x ∈ found <->
                  x ∈ links /\ usable_link x = true
                  /\ includes rels (get x "rel") = true)
    /\ (forall x, x ∈ others <->
                  x ∈ links /\ usable_link x = true
                  /\ includes rels (get x "rel") = false)
    /\ length found + length others = length (List.filter usable_link links).
Proof.
  exists (List.filter (fun x => usable_link x && includes rels (get x "rel")) links),
         (List.filter (fun x => usable_link x && negb (includes rels (get x "rel"))) links).
  split; [|split; [|split; [|split; [|split; [|split]]]]].
  - unfold getLinksWithRels.
    rewrite (filter_links_ext _
               (fun x => Ret (usable_link x && includes rels (get x "rel")))).
    + by rewrite filter_links_pure.
    + intros x. unfold usable_link, rels_includes.
      by destruct (isObject x && hasText (get x "href")).
  - unfold getLinksWithOtherRels.
    rewrite (filter_links_ext _
               (fun x => Ret (usable_link x && negb (includes rels (get x "rel"))))).
    + by rewrite filter_links_pure.
    + intros x. unfold usable_link, rels_includes.
      by destruct (isObject x && hasText (get x "href")).
  - apply filter_sublist.
  - apply filter_sublist.
  - intros x. rewrite elem_of_filter_bool, andb_true_iff. tauto.
  - intros x. rewrite elem_of_filter_bool, andb_true_iff, negb_true_iff. tauto.
  - apply filter_split_length.
Qed.

Lemma find_head_filter (f : value -> bool) (l : list value) :
  List.find f l = head (List.filter f l).
Proof.
  induction l as [|x l IH]; [done|]. cbn [List.find List.filter].
  by destruct (f x).
Qed.

Lemma same_value_zero_strict a b :
  (forall n, b = VNum n -> is_nan n = false) ->
  same_value_zero a b = strict_eq a b.
Proof.
  intros H. unfold same_value_zero.
  destruct a as [| | |x| | |], b as [| | |y| | |]; cbn; try done; try apply orb_false_r.
  rewrite (H y eq_refl). by rewrite andb_false_r, orb_false_r.
Qed.

(** X4.  [getLinkWithRel(links, rel)] is the first element of
    [getLinksWithRels(links, [rel])], and [undefined] when that array is
    empty, for every [rel] other than [NaN] (which [===] never finds and
    [includes] does). *)
Theorem getLinkWithRel_is_first (host : Host) (links : list value) (rel : value) :
  (forall n, rel = VNum n -> is_nan n = false) ->
  exists found,
    getLinksWithRels host (VArr links) (VArr [rel]) = Ret (VArr found)
    /\ getLinkWithRel (VArr links) rel = default VUndefined (head found).
Proof.
  intros Hrel.
  exists (List.filter (link_has_rel rel) links). split.
  - unfold getLinksWithRels.
    rewrite (filter_links_ext _ (fun x => Ret (link_has_rel rel x))).
    + by rewrite filter_links_pure.
    + intros x. unfold link_has_rel, rels_includes, includes. cbn [existsb].
      rewrite orb_false_r, same_value_zero_strict by done.
      by destruct (isObject x && hasText (get x "href")).
  - unfold getLinkWithRel. by rewrite find_head_filter.
Qed.

Lemma getLinkWithRel_is_first_witness :
  exists found,
    getLinksWithRels sample_host
      (VArr [obj [("rel", VStr "self")];
             obj [("href", VStr "a.json"); ("rel", VStr "child")];
             obj [("href", VStr "b.json"); ("rel", VStr "child")]])
      (VArr [VStr "child"])
    = Ret (VArr found)
    /\ getLinkWithRel
         (VArr [obj [("rel", VStr "self")];
                obj [("href", VStr "a.json"); ("rel", VStr "child")];
                obj [("href", VStr "b.json"); ("rel", VStr "child")]])
         (VStr "child")
       = default VUndefined (head found).
Proof.
  apply (getLinkWithRel_is_first sample_host). discriminate.
Defined.

Lemma filter_links_raises (p : value -> outcome bool) (links : list value) :
  (forall x, usable_link x = true -> p x = Throw TypeError) ->
  (forall x, usable_link x = false -> p x = Ret false) ->
  filter_links p links
  = if existsb usable_link links then Throw TypeError else Ret [].
Proof.
  intros Hyes Hno. induction links as [|x links IH]; [done|].
  cbn [filter_links existsb]. destruct (usable_link x) eqn:E.
  - by rewrite Hyes.
  - rewrite Hno by done. cbn. rewrite IH.
    by destruct (existsb usable_link links).
Qed.

(** X5.  When [links] is not an array both functions return an empty
    array, whatever [rels] is.  When [links] is an array and [rels] is
    neither an array nor a string, the call raises a [TypeError] as soon
    as one link is usable, and returns an empty array otherwise: [rels]
    is only looked at for usable links. *)
Theorem getLinksWithRels_errors (host : Host) :
  (forall links rels,
      isArray links = false ->
      getLinksWithRels host links rels = Ret (VArr [])
      /\ getLinksWithOtherRels host links rels = Ret (VArr []))
  /\ (forall links rels,
        isArray rels = false ->
        is_string rels = false ->
        getLinksWithRels host (VArr links) rels
        = (if existsb usable_link links then Throw TypeError else Ret (VArr []))
        /\ getLinksWithOtherRels host (VArr links) rels
           = (if existsb usable_link links then Throw TypeError else Ret (VArr []))).
Proof.
  split.
  - intros links rels H. by destruct links.
  - intros links rels Harr Hstr.
    assert (Hraise : forall v, rels_includes host rels v = Throw TypeError).
    { intros v. by destruct rels. }
    unfold getLinksWithRels, getLinksWithOtherRels. split.
    + rewrite filter_links_raises.
      * by destruct (existsb usable_link links).
      * intros x Hx. unfold usable_link in Hx. by rewrite Hx, Hraise.
      * intros x Hx. unfold usable_link in Hx. by rewrite Hx.
    + rewrite filter_links_raises.
      * by destruct (existsb usable_link links).
      * intros x Hx. unfold usable_link in Hx. by rewrite Hx, Hraise.
      * intros x Hx. unfold usable_link in Hx. by rewrite Hx.
Qed.

Lemma getLinksWithRels_errors_witness :
  getLinksWithRels sample_host VNull VUndefined = Ret (VArr [])
  /\ getLinksWithRels sample_host
       (VArr [VNull; obj [("href", VStr "a.json")]]) VUndefined
     = Throw TypeError
  /\ getLinksWithOtherRels sample_host
       (VArr [VNull; obj [("href", VStr "")]]) VUndefined
     = Ret (VArr []).
Proof.
  split; [|split].
  - apply (proj1 (getLinksWithRels_errors sample_host)). reflexivity.
  - apply (proj1 (proj2 (getLinksWithRels_errors sample_host)
                    [VNull; obj [("href", VStr "a.json")]] VUndefined
                    eq_refl eq_refl)).
  - apply (proj2 (proj2 (getLinksWithRels_errors sample_host)
                    [VNull; obj [("href", VStr "")]] VUndefined
                    eq_refl eq_refl)).
Defined.

(** X6.  A link made by [createLink(href, rel)] with a string [rel] is
    found again under that relation type exactly when [href] is a
    non-empty string: [getLinkWithRel] returns it, and
    [getLinksWithRels] keeps it when [rel] is among [rels]. *)
Theorem createLink_is_found (host : Host) (href : value) (r : string)
    (rels : list value) :
  getLinkWithRel (VArr [createLink href (VStr r)]) (VStr r)
  = (if hasText href then createLink href (VStr r) else VUndefined)
  /\ getLinksWithRels host (VArr [createLink href (VStr r)]) (VArr rels)
     = Ret (VArr (if hasText href && includes rels (VStr r)
                  then [createLink href (VStr r)] else [])).
Proof.
  split.
  - unfold getLinkWithRel, link_has_rel, createLink. cbn.
    rewrite String.eqb_refl. by destruct (hasText href).
  - unfold getLinksWithRels, createLink. cbn.
    destruct (hasText href); [|done]. cbn.
    by destruct (includes rels (VStr r)).
Qed.

Lemma includes_substring s needle :
  Str.includes s needle = true <-> exists p q, s = p ++ needle ++ q.
Proof.
  split.
  - induction s as [|c s IH].
    + cbn [Str.includes]. rewrite orb_false_r. intros H%prefix_split.
      by exists "", (Str.drop (String.length needle) "").
    + cbn [Str.includes]. intros [H%prefix_split|H]%orb_prop.
      * by exists "", (Str.drop (String.length needle) (String c s)).
      * destruct (IH H) as (p & q & ->). by exists (String c p), q.
  - intros (p & q & ->). induction p as [|c p IH].
    + change ("" ++ needle ++ q) with (needle ++ q).
      destruct (needle ++ q) eqn:E; cbn [Str.includes];
        rewrite <- E, prefix_app; done.
    + rewrite app_cons. cbn [Str.includes]. rewrite IH. apply orb_true_r.
Qed.



(** ** Values at a path *)

Section PathFacts.

Context (host : Host) (inherited : value -> string -> bool).

Lemma getValue_not_object o path :
  is_null o || negb (typeof_object o) = true ->
  getValueFromObjectUsingPath host inherited o path = Some VUndefined.
Proof. intros H. destruct path; cbn [getValueFromObjectUsingPath]; by rewrite H. Qed.

Lemma getValue_undefined (x : value) path :
  is_undefined x = true ->
  Some x = getValueFromObjectUsingPath host inherited x path.
Proof. destruct x; try discriminate. intros _. by rewrite getValue_not_object. Qed.

Lemma getValue_compose o p q :
  p <> [] -> q <> [] ->
  getValueFromObjectUsingPath host inherited o (p ++ q)
  = getValueFromObjectUsingPath host inherited o p
      ≫= fun v => getValueFromObjectUsingPath host inherited v q.
Proof.
  revert o. induction p as [|k p IH]; intros o Hp Hq; [done|].
  destruct q as [|k' q]; [done|].
  destruct (is_null o || negb (typeof_object o)) eqn:Ho.
  { rewrite !getValue_not_object by done. cbn [mbind option_bind].
    by rewrite getValue_not_object. }
  destruct p as [|k2 p].
  - cbn [app getValueFromObjectUsingPath]. rewrite Ho.
    change (first_key host (k :: k' :: q)) with (first_key host [k]).
    destruct (read_property inherited o (first_key host [k])) as [x|];
      cbn [mbind option_bind]; [|done].
    destruct (is_undefined x) eqn:Hx; cbn [negb]; [|done].
    by destruct x.
  - change ((k :: k2 :: p) ++ k' :: q)%list with (k :: k2 :: (p ++ k' :: q))%list.
    cbn [getValueFromObjectUsingPath]. rewrite Ho.
    change (first_key host (k :: k2 :: p ++ k' :: q)) with (first_key host (k :: k2 :: p)).
    destruct (read_property inherited o (first_key host (k :: k2 :: p))) as [x|];
      cbn [mbind option_bind]; [|done].
    destruct (is_undefined x) eqn:Hx; cbn [negb].
    + by destruct x.
    + by apply (IH x).
Qed.

End PathFacts.

(** X7.  [getValueFromObjectUsingPath] reads a path step by step: for
    two non-empty paths, the value at [p] followed by [q] is the value
    at [q] in the value at [p].  As soon as a step gives [undefined],
    [null] or a value that is not an object, every longer path gives
    [undefined]: the function never raises.  An empty path reads the
    property named [undefined]. *)
Theorem getValueFromObjectUsingPath_steps (host : Host)
    (inherited : value -> string -> bool) :
  (forall o p q,
      p <> [] -> q <> [] ->
      getValueFromObjectUsingPath host inherited o (p ++ q)
      = getValueFromObjectUsingPath host inherited o p
          ≫= fun v => getValueFromObjectUsingPath host inherited v q)
  /\ (forall o p q v,
        p <> [] -> q <> [] ->
        getValueFromObjectUsingPath host inherited o p = Some v ->
        is_null v || negb (typeof_object v) = true ->
        getValueFromObjectUsingPath host inherited o (p ++ q) = Some VUndefined)
  /\ (forall o,
        getValueFromObjectUsingPath host inherited o []
        = getValueFromObjectUsingPath host inherited o [VStr "undefined"]).
Proof.
  split; [|split].
  - apply getValue_compose.
  - intros o p q v Hp Hq Hv Hscalar.
    rewrite getValue_compose, Hv by done. cbn [mbind option_bind].
    by apply getValue_not_object.
  - intros o. reflexivity.
Qed.

Lemma getValueFromObjectUsingPath_steps_witness :
  getValueFromObjectUsingPath sample_host (fun _ _ => false)
    (obj [("assets", obj [("thumbnail", obj [("href", VStr "t.png")])])])
    ([VStr "assets"; VStr "thumbnail"] ++ [VStr "href"])
  = Some (VStr "t.png")
  /\ getValueFromObjectUsingPath sample_host (fun _ _ => false)
       (obj [("assets", VNull)])
       ([VStr "assets"] ++ [VStr "thumbnail"; VStr "href"])
     = Some VUndefined.
Proof.
  split.
  - rewrite (proj1 (getValueFromObjectUsingPath_steps sample_host (fun _ _ => false)))
      by discriminate.
    reflexivity.
  - apply (proj1 (proj2 (getValueFromObjectUsingPath_steps sample_host (fun _ _ => false)))
             _ _ _ VNull); [discriminate|discriminate|reflexivity|reflexivity].
Defined.

(** ** Dates of the date picker *)

Lemma time_clip_Some t :
  (Z.abs t <= 8640000000000000)%Z -> time_clip t = Some t.
Proof. intros H. unfold time_clip. by rewrite (proj2 (Z.leb_le _ _) H). Qed.

Lemma time_clip_inv t t' : time_clip t = Some t' -> t' = t.
Proof. unfold time_clip. by destruct (_ <=? _)%Z; intros [=]. Qed.

(** X8.  [dateToUTC(dateFromUTC(d))] moves a date [d] by the difference
    between the offset of the time zone at [d] and its offset now: it is
    [d] again exactly when the two offsets are the same.  (The dates are
    taken inside the range of time values, so that no step gives an
    invalid date.) *)
Theorem dateToUTC_dateFromUTC (zone : TimeZone) (t : Z) :
  (Z.abs t <= 8640000000000000)%Z ->
  (Z.abs (t + offset_at zone t * 60 * 1000) <= 8640000000000000)%Z ->
  dateToUTC zone (dateFromUTC zone (VObj (DateObj (Some t)) []))
  = new_Date (Some (t + (offset_at zone t - offset_at zone (current_time zone))
                        * 60 * 1000)%Z)
  /\ (dateToUTC zone (dateFromUTC zone (VObj (DateObj (Some t)) []))
      = VObj (DateObj (Some t)) []
      <-> offset_at zone t = offset_at zone (current_time zone)).
Proof.
  intros Ht Hlocal.
  assert (Hrun : dateToUTC zone (dateFromUTC zone (VObj (DateObj (Some t)) []))
                 = new_Date (Some (t + (offset_at zone t
                                        - offset_at zone (current_time zone))
                                       * 60 * 1000)%Z)).
  { unfold dateFromUTC, dateToUTC, new_Date, getTimezoneOffset.
    cbn [fmap option_fmap option_map mbind option_bind].
    rewrite (time_clip_Some _ Hlocal). cbn [mbind option_bind].
    do 2 f_equal. f_equal. lia. }
  split; [done|]. rewrite Hrun. unfold new_Date. cbn [mbind option_bind]. split.
  - intros [= H]. apply time_clip_inv in H. lia.
  - intros ->. rewrite Z.sub_diag, Z.add_0_r. by rewrite time_clip_Some.
Qed.

Lemma dateToUTC_dateFromUTC_witness :
  dateToUTC sample_zone (dateFromUTC sample_zone (VObj (DateObj (Some 1720000000000%Z)) []))
  = new_Date (Some (1720000000000
                    + (offset_at sample_zone 1720000000000
                       - offset_at sample_zone (current_time sample_zone))
                      * 60 * 1000)%Z).
Proof.
  apply (proj1 (dateToUTC_dateFromUTC sample_zone 1720000000000
                  ltac:(vm_compute; discriminate) ltac:(vm_compute; discriminate))).
Defined.

(** X9.  In the other direction, [dateFromUTC(dateToUTC(d))] first
    moves [d] back by the offset of now and then forward by the offset
    at the date it has reached: it is [d] again exactly when the offset
    at that date is the offset of now. *)
Theorem dateFromUTC_dateToUTC (zone : TimeZone) (t : Z) :
  let shifted := (t - offset_at zone (current_time zone) * 60 * 1000)%Z in
  (Z.abs t <= 8640000000000000)%Z ->
  (Z.abs shifted <= 8640000000000000)%Z ->
  dateFromUTC zone (dateToUTC zone (VObj (DateObj (Some t)) []))
  = new_Date (Some (shifted + offset_at zone shifted * 60 * 1000)%Z)
  /\ (dateFromUTC zone (dateToUTC zone (VObj (DateObj (Some t)) []))
      = VObj (DateObj (Some t)) []
      <-> offset_at zone shifted = offset_at zone (current_time zone)).
Proof.
  intros shifted Ht Hshifted.
  assert (Hrun : dateFromUTC zone (dateToUTC zone (VObj (DateObj (Some t)) []))
                 = new_Date (Some (shifted + offset_at zone shifted * 60 * 1000)%Z)).
  { unfold dateFromUTC, dateToUTC, new_Date, getTimezoneOffset.
    cbn [fmap option_fmap option_map mbind option_bind].
    fold shifted. by rewrite (time_clip_Some _ Hshifted). }
  split; [done|]. rewrite Hrun. unfold new_Date. cbn [mbind option_bind]. split.
  - intros [= H]. apply time_clip_inv in H. unfold shifted in H at 1. lia.
  - intros Heq. rewrite Heq. unfold shifted at 1.
    replace (_ + _)%Z with t by lia. by rewrite time_clip_Some.
Qed.

Lemma dateFromUTC_dateToUTC_witness :
  dateFromUTC sample_zone (dateToUTC sample_zone (VObj (DateObj (Some 1000%Z)) []))
  = VObj (DateObj (Some 1000%Z)) [].
Proof.
  apply (proj2 (dateFromUTC_dateToUTC sample_zone 1000
                  ltac:(vm_compute; discriminate) ltac:(vm_compute; discriminate))).
  reflexivity.
Defined.

(** ** The list of items *)

Lemma counted_filter v :
  negb (is_null v || (size v =? 0)%nat) = Items.non_empty_collection v.
Proof. destruct v as [| | | | |[|x l]|k [|p ps]]; reflexivity. Qed.

Lemma filter_ext_bool {A} (f g : A -> bool) (l : list A) :
  (forall x, f x = g x) -> List.filter f l = List.filter g l.
Proof.
  intros H. induction l as [|x l IH]; [done|]. cbn [List.filter].
  by rewrite H, IH.
Qed.

Lemma filter_none {A} (f : A -> bool) (l : list A) :
  Forall (fun x => f x = false) l -> List.filter f l = [].
Proof.
  induction 1 as [|x l Hx _ IH]; [done|]. cbn [List.filter]. by rewrite Hx.
Qed.

(** X10.  [hasFilters] counts the filters whose value is an array with
    an element or an object with a key of its own, and is true when
    there are two or more of them.  Strings, numbers, booleans and dates
    never count, whatever their value: with one array or object among
    any number of such values, and with none, [hasFilters] is false.
    When it is false and the list has no item, no pagination is shown. *)
Theorem hasFilters_counts_collections (this : Items.state) :
  (Items.hasFilters this = true
   <-> 2 <= length (List.filter Items.non_empty_collection
                      (Obj.values (Items.apiFilters this))))
  /\ (forall before key v after,
        Items.apiFilters this = (before ++ (key, v) :: after)%list ->
        Forall (fun kv => Items.non_empty_collection kv.2 = false) before ->
        Forall (fun kv => Items.non_empty_collection kv.2 = false) after ->
        Items.hasFilters this = false)
  /\ (Forall (fun kv => Items.non_empty_collection kv.2 = false) (Items.apiFilters this) ->
      Items.hasFilters this = false)
  /\ (Items.hasFilters this = false -> Items.items this = [] ->
      Items.showPagination this = false).
Proof.
  assert (Hcount : Items.hasFilters this
                   = (1 <? length (List.filter Items.non_empty_collection
                                     (Obj.values (Items.apiFilters this))))%nat).
  { unfold Items.hasFilters. do 2 f_equal.
    apply filter_ext_bool, counted_filter. }
  assert (Hnone : forall l : props,
             Forall (fun kv => Items.non_empty_collection kv.2 = false) l ->
             List.filter Items.non_empty_collection (Obj.values l) = []).
  { intros l H. apply filter_none. unfold Obj.values.
    by apply Forall_fmap. }
  split; [|split; [|split]].
  - rewrite Hcount. rewrite Nat.ltb_lt. lia.
  - intros before key v after Heq Hb Ha. rewrite Hcount, Heq.
    unfold Obj.values in *. rewrite fmap_app, fmap_cons, List.filter_app.
    cbn [List.filter].
    rewrite (Hnone before Hb), (Hnone after Ha).
    by destruct (Items.non_empty_collection (key, v).2).
  - intros H. by rewrite Hcount, (Hnone _ H).
  - intros Hf Hi. unfold Items.showPagination. rewrite Hf, Hi.
    by destruct (Items.api this).
Qed.

Lemma hasFilters_counts_collections_witness :
  Items.hasFilters
    (Items.data [] true
       [("limit", VNum (num 10));
        ("bbox", VArr [VNum (num 1); VNum (num 2); VNum (num 3); VNum (num 4)]);
        ("q", VStr "landsat")] [] 90)
  = false.
Proof.
  apply (proj1 (proj2 (hasFilters_counts_collections _))
           [("limit", VNum (num 10))] "bbox"
           (VArr [VNum (num 1); VNum (num 2); VNum (num 3); VNum (num 4)])
           [("q", VStr "landsat")]);
    [reflexivity|by repeat constructor|by repeat constructor].
Defined.

Section ItemsFacts.

Context (compare_titles : value -> value -> Z).

Lemma iter_showMore k (this : Items.state) :
  Nat.iter k Items.showMore this
  = Items.State (Items.items this) (Items.api this) (Items.apiFilters this)
      (Items.pagination this) (Items.chunkSize this)
      (Items.shownItems this + Z.of_nat k * Items.chunkSize this)
      (Items.sort this).
Proof.
  induction k as [|k IH].
  - destruct this. cbn. f_equal. lia.
  - change (Nat.iter (S k) Items.showMore this)
      with (Items.showMore (Nat.iter k Items.showMore this)).
    rewrite IH. unfold Items.showMore. cbn.
    f_equal. lia.
Qed.

Lemma take_all_iff {A} (l : list A) n : take n l = l <-> length l <= n.
Proof.
  split.
  - intros H. apply (f_equal length) in H. rewrite length_take in H. lia.
  - apply take_ge.
Qed.

Lemma slice0_take (l : list value) (n : Z) :
  (0 <= n)%Z -> Items.slice0 n l = take (Z.to_nat n) l.
Proof.
  intros Hn. unfold Items.slice0.
  destruct (n <? 0)%Z eqn:E; [apply Z.ltb_lt in E; lia|].
  destruct (Z.le_ge_cases n (Z.of_nat (length l))) as [H|H].
  - by rewrite Z.min_l.
  - rewrite Z.min_r by done. rewrite Nat2Z.id.
    rewrite take_ge by done. symmetry. apply take_ge. lia.
Qed.

Lemma insert_sorted_perm x (l : list value) :
  Items.insert_sorted compare_titles x l ≡ₚ x :: l.
Proof.
  induction l as [|y l IH]; [done|]. cbn [Items.insert_sorted].
  destruct (_ <=? _)%Z; [done|]. rewrite IH. apply Permutation_swap.
Qed.

Lemma filter_partition_perm (f : value -> bool) (l : list value) :
  (List.filter (fun x => negb (f x)) l ++ List.filter f l)%list ≡ₚ l.
Proof.
  induction l as [|x l IH]; [done|]. cbn [List.filter].
  destruct (f x); cbn [negb].
  - rewrite <- Permutation_middle. by rewrite IH.
  - cbn [app]. by rewrite IH.
Qed.

Lemma sorted_perm (l : list value) : Items.sorted compare_titles l ≡ₚ l.
Proof.
  unfold Items.sorted.
  rewrite <- (filter_partition_perm is_undefined l) at 3.
  apply Permutation_app; [|done].
  induction (List.filter (fun x => negb (is_undefined x)) l) as [|x l' IH]; [done|].
  cbn [foldr]. by rewrite insert_sorted_perm, IH.
Qed.

End ItemsFacts.

(** X11.  The list of a catalog grows by [chunkSize] with every
    [showMore]: starting from the initial state of a list that does not
    come from an API and is not sorted, with a [chunkSize] above zero,
    after [k] calls the items shown are the first [(k + 1) * chunkSize]
    items, [hasMore] is false exactly when all items are shown, and it
    is false after [length / chunkSize] calls (rounded down). *)
Theorem showMore_reaches_all_items (compare_titles : value -> value -> Z)
    (items : list value) (apiFilters pagination : props) (chunkSize : Z) :
  (0 < chunkSize)%Z ->
  let this k :=
    Nat.iter k Items.showMore (Items.data items false apiFilters pagination chunkSize) in
  (forall k, Items.chunkedItems compare_titles (this k)
             = take (Z.to_nat ((Z.of_nat k + 1) * chunkSize)) items)
  /\ (forall k, Items.hasMore (this k) = false
                <-> Items.chunkedItems compare_titles (this k) = items)
  /\ Items.hasMore (this (Z.to_nat (Z.of_nat (length items) / chunkSize))) = false.
Proof.
  intros Hc this.
  assert (Hshown : forall k, Items.shownItems (this k) = ((Z.of_nat k + 1) * chunkSize)%Z).
  { intros k. unfold this. rewrite iter_showMore. cbn. lia. }
  assert (Hchunk : forall k, Items.chunkedItems compare_titles (this k)
                             = take (Z.to_nat ((Z.of_nat k + 1) * chunkSize)) items).
  { intros k. unfold Items.chunkedItems. rewrite Hshown.
    unfold this. rewrite iter_showMore. cbn [Items.sort Items.data Items.api
      Items.items Items.chunkSize Z.eqb negb andb].
    destruct (chunkSize <? Z.of_nat (length items))%Z eqn:E.
    - apply slice0_take. nia.
    - apply Z.ltb_ge in E. symmetry. apply take_ge. nia. }
  assert (Hmore : forall k, Items.hasMore (this k) = false
                            <-> (Z.of_nat (length items) <= (Z.of_nat k + 1) * chunkSize)%Z).
  { intros k. unfold Items.hasMore. rewrite Hshown.
    unfold this. rewrite iter_showMore. cbn [Items.items Items.data].
    apply Z.ltb_ge. }
  split; [done|split].
  - intros k. rewrite Hmore, Hchunk, take_all_iff. nia.
  - apply Hmore. rewrite Z2Nat.id by (apply Z.div_pos; lia).
    pose proof (Z.mul_succ_div_gt (Z.of_nat (length items)) chunkSize Hc). lia.
Qed.

Lemma showMore_reaches_all_items_witness :
  Items.hasMore
    (Nat.iter (Z.to_nat (Z.of_nat (length [VNull; VNull; VNull; VNull; VNull]) / 2))
       Items.showMore (Items.data [VNull; VNull; VNull; VNull; VNull] false [] [] 2))
  = false.
Proof.
  apply (proj2 (proj2 (showMore_reaches_all_items (fun _ _ => 0%Z)
                         [VNull; VNull; VNull; VNull; VNull] [] [] 2 eq_refl))).
Defined.

(** X12.  [chunkedItems] only selects and reorders: whatever the sort
    order, every item shown is an item of the list, as many times at
    most.  A list that comes from an API, or one that is not longer than
    [chunkSize], is shown whole: the result is a permutation of the
    items, and the items themselves when the list is not sorted. *)
Theorem chunkedItems_of_items (compare_titles : value -> value -> Z)
    (this : Items.state) :
  Items.chunkedItems compare_titles this ⊆+ Items.items this
  /\ (Items.api this = true
      \/ (Z.of_nat (length (Items.items this)) <= Items.chunkSize this)%Z ->
      Items.chunkedItems compare_titles this ≡ₚ Items.items this
      /\ (Items.sort this = 0%Z ->
          Items.chunkedItems compare_titles this = Items.items this)).
Proof.
  set (items' := if negb (Items.sort this =? 0)%Z
                 then (if (Items.sort this =? -1)%Z
                       then rev (Items.sorted compare_titles (Items.items this))
                       else Items.sorted compare_titles (Items.items this))
                 else Items.items this).
  assert (Hperm : items' ≡ₚ Items.items this).
  { unfold items'. destruct (negb _); [|done].
    destruct (_ =? -1)%Z; [rewrite <- Permutation_rev|]; apply sorted_perm. }
  assert (Hdef : Items.chunkedItems compare_titles this
                 = if negb (Items.api this)
                      && (Items.chunkSize this <? Z.of_nat (length (Items.items this)))%Z
                   then Items.slice0 (Items.shownItems this) items' else items').
  { reflexivity. }
  split.
  - rewrite Hdef. destruct (_ && _).
    + rewrite <- Hperm. unfold Items.slice0.
      apply sublist_submseteq, sublist_take.
    + by rewrite Hperm.
  - intros Hall.
    assert (Hcond : negb (Items.api this)
                    && (Items.chunkSize this <? Z.of_nat (length (Items.items this)))%Z
                    = false).
    { destruct Hall as [-> | H]; [done|].
      apply andb_false_iff. right. by apply Z.ltb_ge. }
    rewrite Hdef, Hcond. split; [done|].
    intros Hsort. unfold items'. by rewrite Hsort.
Qed.

Lemma chunkedItems_of_items_witness :
  Items.chunkedItems (fun _ _ => 1%Z)
    (Items.State [VStr "b"; VStr "a"; VStr "c"] true [] [] 2 2 1)
  ≡ₚ [VStr "b"; VStr "a"; VStr "c"].
Proof.
  apply (proj2 (chunkedItems_of_items (fun _ _ => 1%Z)
                  (Items.State [VStr "b"; VStr "a"; VStr "c"] true [] [] 2 2 1))).
  by left.
Defined.

Section SortFacts.

Context (compare_titles : value -> value -> Z).

Let ascending (a b : value) : Prop := (compare_titles a b <= 0)%Z.
Let descending (a b : value) : Prop := (compare_titles b a <= 0)%Z.

Hypothesis total : forall a b, (0 < compare_titles a b)%Z -> (compare_titles b a <= 0)%Z.

Lemma insert_sorted_order x (l : list value) :
  Items.in_order ascending l ->
  Items.in_order ascending (Items.insert_sorted compare_titles x l).
Proof.
  induction l as [|y l IH]; [done|]. intros [Hy Hl].
  cbn [Items.insert_sorted]. destruct (compare_titles x y <=? 0)%Z eqn:E.
  - apply Z.leb_le in E. by repeat split.
  - apply Z.leb_gt in E. split; [|by apply IH].
    destruct l as [|z l]; cbn [Items.insert_sorted].
    + by apply total.
    + destruct (compare_titles x z <=? 0)%Z; [by apply total|done].
Qed.

Lemma foldr_insert_order (l : list value) :
  Items.in_order ascending (foldr (Items.insert_sorted compare_titles) [] l).
Proof.
  induction l as [|x l IH]; [done|]. cbn [foldr]. by apply insert_sorted_order.
Qed.

Lemma filter_all_defined (l : list value) :
  Forall (fun x => is_undefined x = false) l ->
  List.filter (fun x => negb (is_undefined x)) l = l
  /\ List.filter is_undefined l = [].
Proof.
  induction 1 as [|x l Hx _ [IH1 IH2]]; [done|]. cbn [List.filter].
  by rewrite Hx, IH1, IH2.
Qed.

Lemma in_order_take (le : value -> value -> Prop) n (l : list value) :
  Items.in_order le l -> Items.in_order le (take n l).
Proof.
  revert n. induction l as [|a l IH]; intros n; [by destruct n|].
  intros [Ha Hl]. destruct n as [|n]; [done|]. cbn [take].
  split; [|by apply IH]. destruct l as [|b l]; [by destruct n|].
  by destruct n.
Qed.

Lemma in_order_snoc (le : value -> value -> Prop) (l : list value) a :
  Items.in_order le l ->
  (forall y, last l = Some y -> le y a) ->
  Items.in_order le (l ++ [a]).
Proof.
  induction l as [|b l IH]; [done|]. intros [Hb Hl] Hlast.
  cbn [app]. split.
  - destruct l as [|c l]; [by apply Hlast|done].
  - apply IH; [done|]. intros y Hy. apply Hlast.
    destruct l; [done|exact Hy].
Qed.

Lemma in_order_rev (l : list value) :
  Items.in_order ascending l -> Items.in_order descending (rev l).
Proof.
  induction l as [|a l IH]; [done|]. intros [Ha Hl]. cbn [rev].
  apply in_order_snoc; [by apply IH|].
  intros y Hy. destruct l as [|b l]; [done|].
  cbn [rev] in Hy. rewrite last_snoc in Hy. by injection Hy as <-.
Qed.

End SortFacts.

(** X26.  A sorted list is in the order of the titles.  When the
    comparison of the titles is total (of two items, one may come
    first) and no item is [undefined], the items shown are in ascending
    order for every [sort] other than [0] and [-1], and in descending
    order for [-1]: each item is followed by one that the comparison
    allows behind it. *)
Theorem chunkedItems_in_title_order (compare_titles : value -> value -> Z)
    (this : Items.state) :
  (forall a b, (0 < compare_titles a b)%Z -> (compare_titles b a <= 0)%Z) ->
  Forall (fun x => is_undefined x = false) (Items.items this) ->
  (Items.sort this <> 0%Z -> Items.sort this <> (-1)%Z ->
   Items.in_order (fun a b => (compare_titles a b <= 0)%Z)
     (Items.chunkedItems compare_titles this))
  /\ (Items.sort this = (-1)%Z ->
      Items.in_order (fun a b => (compare_titles b a <= 0)%Z)
        (Items.chunkedItems compare_titles this)).
Proof.
  intros Htotal Hdef. destruct (filter_all_defined _ Hdef) as [H1 H2].
  assert (Hsorted : Items.in_order (fun a b => (compare_titles a b <= 0)%Z)
                      (Items.sorted compare_titles (Items.items this))).
  { unfold Items.sorted. rewrite H1, H2, app_nil_r.
    by apply foldr_insert_order. }
  unfold Items.chunkedItems. split.
  - intros H0 Hm. apply Z.eqb_neq in H0, Hm. rewrite H0, Hm. cbn [negb].
    destruct (_ && _); [|done]. by apply in_order_take.
  - intros ->. cbn [Z.eqb negb].
    destruct (_ && _); [apply in_order_take|]; by apply in_order_rev.
Qed.

Lemma chunkedItems_in_title_order_witness :
  Items.in_order (fun a b => (Items.sample_compare a b <= 0)%Z)
    (Items.chunkedItems Items.sample_compare
       (Items.State [VArr [VNull; VNull]; VArr []; VArr [VNull]] true [] [] 90 90 1)).
Proof.
  apply (proj1 (chunkedItems_in_title_order Items.sample_compare
                  (Items.State [VArr [VNull; VNull]; VArr []; VArr [VNull]]
                     true [] [] 90 90 1)
                  ltac:(unfold Items.sample_compare; intros a b; lia)
                  ltac:(by repeat constructor)));
    discriminate.
Defined.

(** ** Titles for links *)

Section TitleFacts.

Implicit Types (s stem ext : string) (c : ascii).

Lemma lastIndexOf_app_none c s t :
  Str.lastIndexOf c t = None ->
  Str.lastIndexOf c (s ++ String c t) = Some (String.length s).
Proof.
  intros Ht. induction s as [|d s IH].
  - change ("" ++ String c t) with (String c t). cbn [Str.lastIndexOf String.length].
    by rewrite Ht, Ascii.eqb_refl.
  - rewrite app_cons. cbn [Str.lastIndexOf String.length]. by rewrite IH.
Qed.

Lemma take_S_cons n c s : Str.take (S n) (String c s) = String c (Str.take n s).
Proof. reflexivity. Qed.

Lemma drop_S_cons n c s : Str.drop (S n) (String c s) = Str.drop n s.
Proof. reflexivity. Qed.

Lemma lastIndexOf_split c s pos :
  Str.lastIndexOf c s = Some pos ->
  s = Str.take pos s ++ String c (Str.drop (S pos) s).
Proof.
  revert pos. induction s as [|d s IH]; intros pos; [done|].
  cbn [Str.lastIndexOf]. destruct (Str.lastIndexOf c s) as [i|] eqn:E.
  - intros [= <-]. rewrite take_S_cons, drop_S_cons, app_cons.
    f_equal. by apply IH.
  - destruct (Ascii.eqb c d) eqn:Ec; [|done]. intros [= <-].
    apply Ascii.eqb_eq in Ec as ->.
    change (Str.take 0 (String d s)) with "".
    by rewrite drop_1_cons.
Qed.

Lemma word_char_not_dot c : word_char c = true -> Ascii.eqb "." c = false.
Proof. destruct c as [[] [] [] [] [] [] [] []]; vm_compute; congruence. Qed.

Lemma word_no_dot ext :
  Str.forall_chars word_char ext = true -> Str.lastIndexOf "." ext = None.
Proof.
  induction ext as [|c ext IH]; [done|]. cbn [Str.forall_chars Str.lastIndexOf].
  intros [Hc Hext]%andb_prop. by rewrite IH, word_char_not_dot.
Qed.

Lemma is_empty_false s : Str.is_empty s = false <-> s <> "".
Proof. by destruct s. Qed.

(** The pattern [/^(.{1,})\.\w+$/] read on its own: the string is a
    stem, a dot and an extension, where the stem is not empty and has no
    line terminator and the extension is a non-empty run of word
    characters. *)
Lemma strip_extension_match stem ext :
  stem <> "" -> single_line stem = true ->
  ext <> "" -> Str.forall_chars word_char ext = true ->
  strip_extension (stem ++ "." ++ ext) = stem.
Proof.
  intros Hstem Hline Hext Hword. unfold strip_extension.
  change ("." ++ ext) with (String "." ext).
  rewrite lastIndexOf_app_none by by apply word_no_dot.
  rewrite take_app, drop_S_app, Hline, Hword.
  apply is_empty_false in Hstem as ->. by apply is_empty_false in Hext as ->.
Qed.

Lemma strip_extension_no_match s :
  (forall stem ext,
      s = stem ++ "." ++ ext ->
      ~ (stem <> "" /\ single_line stem = true
         /\ ext <> "" /\ Str.forall_chars word_char ext = true)) ->
  strip_extension s = s.
Proof.
  intros H. unfold strip_extension.
  destruct (Str.lastIndexOf "." s) as [pos|] eqn:E; [|done].
  destruct (negb (Str.is_empty (Str.take pos s)) && single_line (Str.take pos s)
            && negb (Str.is_empty (Str.drop (S pos) s))
            && Str.forall_chars word_char (Str.drop (S pos) s)) eqn:Hcond; [|done].
  apply andb_prop in Hcond as [[[H1 H2]%andb_prop H3]%andb_prop H4].
  apply negb_true_iff, is_empty_false in H1, H3.
  destruct (H _ _ (lastIndexOf_split _ _ _ E)). done.
Qed.

End TitleFacts.

(** X13.  [titleForHref] gives every link something to show: for a
    string that URI.js parses the call returns, and the title of a
    non-empty [href] is never the empty string.  A string that URI.js
    rejects makes the call raise what the parser raises, and a [href]
    that is not a string a [TypeError], unless it is an object that
    URI.js reads as parts of a URL or as a DOM node. *)
Theorem titleForHref_never_empty (href : string) (preferFileName : value) :
  (forall uri, URI.parse href = Ret uri ->
               exists title, titleForHref (VStr href) preferFileName = Ret title
                             /\ (href <> "" -> title <> ""))
  /\ (forall e, URI.parse href = Throw e ->
                titleForHref (VStr href) preferFileName = Throw e)
  /\ (forall v, is_string v = false -> URI_input v = true ->
                titleForHref v preferFileName = Throw TypeError).
Proof.
  split; [|split].
  - intros uri Hparse. unfold titleForHref. rewrite Hparse.
    cbn [mbind outcome_bind]. eexists. split; [reflexivity|].
    intros Hhref. unfold title_of.
    destruct (negb (Str.is_empty (authority uri))) eqn:Ha;
      destruct (negb (Str.is_empty (strip_extension (URI.filename uri)))) eqn:Hf;
      destruct (negb (truthy preferFileName));
      cbn [andb];
      repeat match goal with
        | |- context [if ?b then _ else _] => destruct b eqn:?
        end;
      try done;
      try (apply negb_true_iff, is_empty_false in Ha; done);
      try (apply negb_true_iff, is_empty_false in Hf; done);
      try match goal with
        | H : negb (Str.is_empty ?x) = true |- ?x <> "" =>
            by apply negb_true_iff, is_empty_false in H
        end.
    apply negb_true_iff, is_empty_false in Hf.
    destruct (strip_extension (URI.filename uri)); done.
  - intros e Hparse. unfold titleForHref. by rewrite Hparse.
  - intros v Hv _. by destruct v.
Qed.

Lemma titleForHref_never_empty_witness :
  exists title,
    titleForHref (VStr "https://ex.com/") VNull = Ret title
    /\ ("https://ex.com/" <> "" -> title <> "").
Proof.
  apply (proj1 (titleForHref_never_empty "https://ex.com/" VNull)
           (URI.Parts (Some "https") None None (Some "ex.com") false None "/" None None)).
  reflexivity.
Defined.

(** X14.  The title of a link to a file.  When the file name of the URL
    is a stem, a dot and an extension of word characters, the title is
    made from the stem: with [preferFileName] it is the stem, unless the
    stem is one of [catalog], [collection] and [item]; without it, and
    with a host in the URL, it is the stem followed by the authority in
    brackets, unless the URL is a DOI.  So
    [titleForHref("https://ex.com/data/scene.tif")] is
    ["scene (ex.com)"] and [titleForHref("https://doi.org/10.5066/F7.x")]
    is ["DOI 10.5066/F7.x"]. *)
Theorem titleForHref_file_stem (href : string) (uri : URI.parts)
    (preferFileName : value) (stem ext : string) :
  URI.parse href = Ret uri ->
  URI.filename uri = stem ++ "." ++ ext ->
  stem <> "" -> single_line stem = true ->
  ext <> "" -> Str.forall_chars word_char ext = true ->
  (truthy preferFileName = true ->
   URI.mem stem commonFileNames = false ->
   titleForHref (VStr href) preferFileName = Ret stem)
  /\ (truthy preferFileName = false ->
      authority uri <> "" ->
      String.eqb (authority uri) "doi.org"
      && Str.startsWith (strip_leading_slash (URI.get_path uri)) "10." = false ->
      titleForHref (VStr href) preferFileName
      = Ret (stem ++ " (" ++ authority uri ++ ")"))
  /\ titleForHref (VStr "https://ex.com/data/scene.tif") VUndefined
     = Ret "scene (ex.com)"
  /\ titleForHref (VStr "https://doi.org/10.5066/F7.x") VUndefined
     = Ret "DOI 10.5066/F7.x".
Proof.
  intros Hparse Hfile Hstem Hline Hext Hword.
  assert (Hstrip : strip_extension (URI.filename uri) = stem).
  { rewrite Hfile. by apply strip_extension_match. }
  apply is_empty_false in Hstem.
  split; [|split; [|split; reflexivity]].
  - intros Hp Hcommon. unfold titleForHref. rewrite Hparse.
    cbn [mbind outcome_bind]. unfold title_of.
    rewrite Hstrip, Hp, Hstem, Hcommon. cbn [negb andb].
    by rewrite andb_false_r.
  - intros Hp Hauth Hdoi. unfold titleForHref. rewrite Hparse.
    cbn [mbind outcome_bind]. unfold title_of.
    apply is_empty_false in Hauth.
    by rewrite Hstrip, Hp, Hstem, Hauth, Hdoi.
Qed.

Lemma titleForHref_file_stem_witness :
  titleForHref (VStr "https://ex.com/a/b/LC08_scene.v2.TIF?x=1") (VBool true)
  = Ret "LC08_scene.v2".
Proof.
  apply (proj1 (titleForHref_file_stem "https://ex.com/a/b/LC08_scene.v2.TIF?x=1"
                  (URI.Parts (Some "https") None None (Some "ex.com") false None
                     "/a/b/LC08_scene.v2.TIF" (Some "x=1") None)
                  (VBool true) "LC08_scene.v2" "TIF"
                  eq_refl eq_refl ltac:(discriminate) eq_refl
                  ltac:(discriminate) eq_refl));
    reflexivity.
Defined.
(** ** URL normalisation without and with a base *)

(** X15.  [normalizeUri] leaves the base alone in two cases: when the
    [href] (once a leading [/vsicurl/] is gone) is not relative, that
    is, is a URN or has a host, and when [baseUrl] is falsy (missing,
    [null] or the empty string).  The result is then the [href] parsed
    and normalised on its own, the same for every such base.  A [href]
    with a scheme and without a host, such as [file:///data/a.json], is
    relative: the base is read, so that a base that URI.js rejects makes
    the call raise; when the base is read, the [href] is again
    normalised on its own. *)
Theorem normalizeUri_without_base (host : Host) (href href' : string)
    (uri : URI.parts) (baseUrl : value) (noParams stringify : bool) :
  strip_vsicurl (VStr href) = VStr href' ->
  URI.parse href' = Ret uri ->
  (URI.is_relative uri = false \/ truthy baseUrl = false ->
   normalizeUri host (VStr href) baseUrl noParams stringify
   = finish_uri host noParams stringify uri)
  /\ (URI.present (URI.protocol uri) = true ->
      forall baseUri,
        base_uri baseUrl = Ret baseUri ->
        normalizeUri host (VStr href) baseUrl noParams stringify
        = finish_uri host noParams stringify uri)
  /\ (URI.is_relative uri = true ->
      isGdalVfsUri (VStr href') = false ->
      truthy baseUrl = true ->
      URI_input baseUrl = true ->
      forall e,
        base_uri baseUrl = Throw e ->
        normalizeUri host (VStr href) baseUrl noParams stringify = Throw e).
Proof.
  intros Hstrip Hparse. unfold normalizeUri. rewrite Hstrip.
  unfold normalize_href. cbn [URI_new]. rewrite Hparse.
  cbn [mbind outcome_bind]. split; [|split].
  - intros [-> | ->]; by rewrite ?andb_false_r.
  - intros Hproto baseUri Hbase.
    destruct (truthy baseUrl && URI.is_relative uri
              && negb (isGdalVfsUri (VStr href'))) eqn:Hguard; [|done].
    rewrite Hbase. cbn [mbind outcome_bind].
    apply andb_prop in Hguard as [[_ Hrel]%andb_prop _].
    unfold URI.is_relative in Hrel. apply andb_prop in Hrel as [Hurn _].
    apply negb_true_iff in Hurn. unfold URI.absoluteTo.
    by rewrite Hurn, Hproto.
  - intros -> -> -> _ e ->. reflexivity.
Qed.

Lemma normalizeUri_without_base_witness :
  normalizeUri sample_host (VStr "HTTPS://EX.com:443/a/../b.json")
    (VStr "https://other.org/base/") false true
  = finish_uri sample_host false true
      (URI.Parts (Some "HTTPS") None None (Some "EX.com") false (Some "443")
         "/a/../b.json" None None)
  /\ normalizeUri sample_host (VStr "file:///data/a.json")
       (VStr "https://other.org:x/") false true
     = Throw TypeError.
Proof.
  split.
  - apply (proj1 (normalizeUri_without_base sample_host
                    "HTTPS://EX.com:443/a/../b.json"
                    "HTTPS://EX.com:443/a/../b.json"
                    (URI.Parts (Some "HTTPS") None None (Some "EX.com") false
                       (Some "443") "/a/../b.json" None None)
                    (VStr "https://other.org/base/") false true
                    eq_refl eq_refl)).
    by left.
  - apply (proj2 (proj2 (normalizeUri_without_base sample_host
                           "file:///data/a.json" "file:///data/a.json"
                           (URI.Parts (Some "file") None None None false None
                              "/data/a.json" None None)
                           (VStr "https://other.org:x/") false true
                           eq_refl eq_refl)));
      reflexivity.
Defined.

Section BaseAsItIs.

Implicit Types (d f : string) (u : URI.parts).

(** The directory that [absoluteTo] takes from a base whose path is a
    directory [d], a [/] and a file name [f] (which may be empty). *)
Lemma basedir_of_file_path u d f :
  URI.urn u = false ->
  URI.path u = d ++ "/" ++ f ->
  Str.lastIndexOf "/" f = None ->
  (let basedir := URI.directory u in
   if negb (Str.is_empty basedir) then basedir
   else if Str.startsWith (URI.path u) "/" then "/" else "")
  = (if Str.is_empty d then "/" else d).
Proof.
  intros Hurn Hpath Hf. cbv zeta.
  change ("/" ++ f) with (String "/" f) in Hpath.
  destruct d as [|c d].
  - change ("" ++ String "/" f) with (String "/" f) in Hpath.
    unfold URI.directory, URI.filename. rewrite Hurn, Hpath.
    cbn [Str.is_empty andb orb Str.startsWith String.prefix].
    destruct f as [|c f]; [done|].
    assert (String.eqb (String "/" (String c f)) "/" = false) as -> by done.
    change (String "/" (String c f)) with ("" ++ String "/" (String c f)).
    rewrite lastIndexOf_app_none by done. rewrite drop_S_app.
    change ("" ++ String "/" (String c f)) with (String "/" (String c f)).
    replace (Str.substring 0 _ _) with "".
    + by destruct (URI.present (URI.hostname u)).
    + unfold Str.substring. cbn [String.length].
      replace (Z.to_nat _) with 0 by lia.
      replace (Z.to_nat _) with 0 by lia. done.
  - set (q := String c d) in *.
    assert (Hne : String.eqb (q ++ String "/" f) "/" = false).
    { apply String.eqb_neq. subst q. rewrite app_cons. intros [= -> H].
      by destruct d. }
    assert (Hfile : URI.filename u = f).
    { unfold URI.filename. rewrite Hurn, Hpath, is_empty_app_cons, Hne.
      cbn [orb]. rewrite lastIndexOf_app_none by done. apply drop_S_app. }
    unfold URI.directory. rewrite Hurn, Hfile, Hpath, is_empty_app_cons, Hne.
    cbn [andb]. unfold Str.substring. rewrite length_app. cbn [String.length].
    replace (Z.to_nat _) with 0 by lia.
    replace (Z.to_nat _) with (String.length q) by lia.
    fold (Str.take (String.length q) (q ++ String "/" f)). rewrite take_app.
    done.
Qed.

End BaseAsItIs.

(** X16.  A base whose path ends in [/] or in [.json] is used as it
    is: a relative [href] that is not a GDAL path is resolved against
    it by [absoluteTo].  When the path of the base is a directory, a [/]
    and a file name, a [href] made of a relative path takes the place of
    the file name: it is put behind the directory, in front of the
    normalisation of the path.  [normalizeUri("b.json",
    "https://ex.com/a/catalog.json")] and [normalizeUri("b.json",
    "https://ex.com/a/")] are both ["https://ex.com/a/b.json"]. *)
Theorem normalizeUri_base_as_it_is (host : Host) (href href' base : string)
    (uri baseUri : URI.parts) (noParams stringify : bool) :
  strip_vsicurl (VStr href) = VStr href' ->
  URI.parse href' = Ret uri ->
  URI.is_relative uri = true ->
  isGdalVfsUri (VStr href') = false ->
  base <> "" ->
  URI.parse base = Ret baseUri ->
  Str.endsWith (URI.get_path baseUri) "/" = true
  \/ Str.endsWith (URI.get_path baseUri) ".json" = true ->
  normalizeUri host (VStr href) (VStr base) noParams stringify
  = (resolved ← URI.absoluteTo baseUri uri;
     finish_uri host noParams stringify resolved)
  /\ (forall d f,
        URI.urn baseUri = false ->
        URI.path baseUri = d ++ "/" ++ f ->
        Str.lastIndexOf "/" f = None ->
        URI.present (URI.protocol uri) = false ->
        Str.is_empty (URI.path uri) = false ->
        Str.startsWith (URI.path uri) "/" = false ->
        URI.path uri <> ".." ->
        URI.absoluteTo baseUri uri
        = URI.normalizePath
            (URI.Parts (URI.protocol baseUri) (URI.username baseUri)
               (URI.password baseUri) (URI.hostname baseUri) false
               (URI.port baseUri)
               ((if Str.is_empty d then "/" else d) ++ "/" ++ URI.path uri)
               (URI.query uri) (URI.fragment uri)))
  /\ normalizeUri host (VStr "b.json") (VStr "https://ex.com/a/catalog.json") false true
     = Ret (AsString "https://ex.com/a/b.json")
  /\ normalizeUri host (VStr "b.json") (VStr "https://ex.com/a/") false true
     = Ret (AsString "https://ex.com/a/b.json").
Proof.
  intros Hstrip Hparse Hrel Hgdal Hbase Hb Hend.
  split; [|split; [|split; reflexivity]].
  - unfold normalizeUri. rewrite Hstrip.
    unfold normalize_href, base_uri. cbn [URI_new]. rewrite Hparse, Hb.
    cbn [mbind outcome_bind]. rewrite Hrel, Hgdal.
    destruct base; [contradiction|]. cbn [truthy Str.is_empty negb andb].
    by destruct Hend as [-> | ->]; rewrite ?andb_false_r.
  - intros d f Hurn Hpath Hf Hproto Hne Hrelpath Hdots.
    unfold URI.is_relative in Hrel. apply andb_prop in Hrel as [Hu Hh].
    apply negb_true_iff in Hu, Hh.
    unfold URI.absoluteTo. rewrite Hu, Hproto.
    cbn [URI.set_protocol URI.hostname URI.path URI.urn URI.query URI.fragment].
    rewrite Hh, Hne.
    assert (String.eqb (URI.path uri) ".." = false) as ->
      by (by apply String.eqb_neq).
    unfold URI.get_path at 1. cbn [URI.path URI.hostname]. rewrite Hne, Hrelpath.
    cbn [negb].
    pose proof (basedir_of_file_path baseUri d f Hurn Hpath Hf) as Hdir.
    cbv zeta in Hdir. rewrite Hdir.
    assert (Str.is_empty (if Str.is_empty d then "/" else d) = false) as ->
      by (by destruct d).
    unfold URI.set_path.
    cbn [URI.protocol URI.username URI.password URI.hostname
         URI.urn URI.port URI.query URI.fragment URI.path].
    rewrite Hu. do 2 f_equal. apply app_assoc_str.
Qed.

Lemma normalizeUri_base_as_it_is_witness :
  URI.absoluteTo
    (URI.Parts (Some "https") None None (Some "ex.com") false None
       "/c/collection.json" None None)
    (URI.Parts None None None None false None "../items/i.json" None None)
  = URI.normalizePath
      (URI.Parts (Some "https") None None (Some "ex.com") false None
         ("/c" ++ "/" ++ "../items/i.json") None None).
Proof.
  apply (proj1 (proj2 (normalizeUri_base_as_it_is sample_host
                  "../items/i.json" "../items/i.json" "https://ex.com/c/collection.json"
                  (URI.Parts None None None None false None "../items/i.json" None None)
                  (URI.Parts (Some "https") None None (Some "ex.com") false None
                     "/c/collection.json" None None) false true
                  eq_refl eq_refl eq_refl eq_refl ltac:(discriminate) eq_refl
                  (or_intror eq_refl)))
           "/c" "collection.json");
    reflexivity || discriminate.
Defined.

(** ** Equality of URLs *)

Section DefaultPort.

Context (host : Host).

Implicit Types (u : URI.parts).

(** The normal form of a URI has no port when the port is the one of
    its scheme. *)
Lemma normalize_default_port u pr po d :
  URI.urn u = false ->
  URI.protocol u = Some pr -> URI.port u = Some po ->
  List.find (fun d => String.eqb d.1 (Str.toLowerCase pr)) URI.defaultPorts = Some d ->
  d.2 = po ->
  URI.normalize host (URI.set_port None u) = URI.normalize host u.
Proof.
  intros Hurn Hpr Hpo Hfind Hd. unfold URI.normalize.
  cbn [URI.set_port URI.urn]. rewrite Hurn. f_equal.
  destruct u as [p un pw h urn0 port0 pa q fr].
  cbn [URI.protocol URI.port URI.urn] in *. subst p port0 urn0.
  unfold URI.normalizeProtocol, URI.normalizeHostname, URI.set_protocol,
    URI.set_hostname, URI.set_port.
  cbn [URI.protocol URI.hostname URI.username URI.password URI.urn URI.port
       URI.path URI.query URI.fragment fmap option_fmap option_map].
  destruct (URI.present h);
    unfold URI.normalizePort;
    cbn [URI.protocol URI.hostname URI.username URI.password URI.urn URI.port
         URI.path URI.query URI.fragment URI.set_port];
    rewrite Hfind, Hd, String.eqb_refl; reflexivity.
Qed.

Lemma equalUrl_body_port_l (x x' : string) b u pr po d :
  URI.parse x = Ret u -> URI.parse x' = Ret (URI.set_port None u) ->
  URI.urn u = false ->
  URI.protocol u = Some pr -> URI.port u = Some po ->
  List.find (fun d => String.eqb d.1 (Str.toLowerCase pr)) URI.defaultPorts = Some d ->
  d.2 = po ->
  equalUrl_body host (VStr x') b = equalUrl_body host (VStr x) b.
Proof.
  intros Hx Hx' Hurn Hpr Hpo Hfind Hd. unfold equalUrl_body. cbn [URI_new].
  rewrite Hx, Hx'. cbn [mbind outcome_bind].
  destruct (URI_new b) as [u2|]; [|done]. cbn [mbind outcome_bind].
  change (URI.get_path (URI.set_port None u)) with (URI.get_path u).
  assert (Hset : forall p,
             URI.path_set p (URI.set_port None u)
             = URI.set_port None <$> URI.path_set p u).
  { intros p. unfold URI.path_set. cbn [URI.set_port URI.urn]. rewrite Hurn.
    destruct (Str.is_empty p); [done|]. by destruct (URI.recodePath p). }
  rewrite Hset. destruct (URI.path_set _ u) as [s|] eqn:Hs; [|done].
  cbn [fmap outcome_fmap mbind outcome_bind].
  destruct (URI.path_set _ u2) as [s2|]; [|done]. cbn [mbind outcome_bind].
  unfold URI.equals.
  assert (Hparts : URI.urn s = false /\ URI.protocol s = Some pr
                   /\ URI.port s = Some po).
  { unfold URI.path_set in Hs. rewrite Hurn in Hs.
    destruct (Str.is_empty _); [by injection Hs as <-|].
    destruct (URI.recodePath _); [|done]. by injection Hs as <-. }
  destruct Hparts as (H1 & H2 & H3).
  by rewrite (normalize_default_port s pr po d).
Qed.

Lemma equalUrl_body_port_r (x x' : string) a u pr po d :
  URI.parse x = Ret u -> URI.parse x' = Ret (URI.set_port None u) ->
  URI.urn u = false ->
  URI.protocol u = Some pr -> URI.port u = Some po ->
  List.find (fun d => String.eqb d.1 (Str.toLowerCase pr)) URI.defaultPorts = Some d ->
  d.2 = po ->
  equalUrl_body host a (VStr x') = equalUrl_body host a (VStr x).
Proof.
  intros Hx Hx' Hurn Hpr Hpo Hfind Hd. unfold equalUrl_body. cbn [URI_new].
  rewrite Hx, Hx'. destruct (URI_new a) as [u1|]; [|done].
  cbn [mbind outcome_bind]. destruct (URI.path_set _ u1) as [s1|]; [|done].
  cbn [mbind outcome_bind].
  change (URI.get_path (URI.set_port None u)) with (URI.get_path u).
  assert (Hset : forall p,
             URI.path_set p (URI.set_port None u)
             = URI.set_port None <$> URI.path_set p u).
  { intros p. unfold URI.path_set. cbn [URI.set_port URI.urn]. rewrite Hurn.
    destruct (Str.is_empty p); [done|]. by destruct (URI.recodePath p). }
  rewrite Hset. destruct (URI.path_set _ u) as [s|] eqn:Hs; [|done].
  cbn [fmap outcome_fmap mbind outcome_bind].
  unfold URI.equals.
  assert (Hparts : URI.urn s = false /\ URI.protocol s = Some pr
                   /\ URI.port s = Some po).
  { unfold URI.path_set in Hs. rewrite Hurn in Hs.
    destruct (Str.is_empty _); [by injection Hs as <-|].
    destruct (URI.recodePath _); [|done]. by injection Hs as <-. }
  destruct Hparts as (H1 & H2 & H3).
  by rewrite (normalize_default_port s pr po d).
Qed.

End DefaultPort.

(** X17.  What [equalUrl] does not tell apart, and what it is never
    equal to.  A port that is the default port of the scheme ([80] for
    [http], [443] for [https], ...) makes no difference: the URL with
    the port and the URL without it compare alike with every other value,
    on either side.  A value that is not a string (and not an object
    that URI.js reads as parts of a URL or as a DOM node) is equal to
    nothing, not even to itself. *)
Theorem equalUrl_default_port (host : Host) :
  (forall x x' u pr po d y,
      URI.parse x = Ret u ->
      URI.parse x' = Ret (URI.set_port None u) ->
      URI.urn u = false ->
      URI.protocol u = Some pr -> URI.port u = Some po ->
      List.find (fun d => String.eqb d.1 (Str.toLowerCase pr)) URI.defaultPorts
      = Some d ->
      d.2 = po ->
      equalUrl host (VStr x') y = equalUrl host (VStr x) y
      /\ equalUrl host y (VStr x') = equalUrl host y (VStr x))
  /\ (forall a b,
        is_string a = false -> URI_input a = true ->
        equalUrl host a b = false /\ equalUrl host b a = false).
Proof.
  split.
  - intros x x' u pr po d y Hx Hx' Hurn Hpr Hpo Hfind Hd. unfold equalUrl. split.
    + by rewrite (equalUrl_body_port_l host x x' y u pr po d).
    + by rewrite (equalUrl_body_port_r host x x' y u pr po d).
  - intros a b Ha _. unfold equalUrl, equalUrl_body. split.
    + by destruct a.
    + destruct b as [| | | |s| |]; try done. cbn [URI_new].
      destruct (URI.parse s); cbn [mbind outcome_bind try_catch]; [|done].
      by destruct a.
Qed.

Lemma equalUrl_default_port_witness :
  (equalUrl sample_host (VStr "HTTP://ex.com/a") (VStr "http://ex.com/a")
   = equalUrl sample_host (VStr "HTTP://ex.com:80/a") (VStr "http://ex.com/a"))
  /\ equalUrl sample_host VNull VNull = false.
Proof.
  split.
  - apply (proj1 (proj1 (equalUrl_default_port sample_host)
                    "HTTP://ex.com:80/a" "HTTP://ex.com/a"
                    (URI.Parts (Some "HTTP") None None (Some "ex.com") false
                       (Some "80") "/a" None None)
                    "HTTP" "80" ("http", "80") (VStr "http://ex.com/a")
                    eq_refl eq_refl eq_refl eq_refl eq_refl eq_refl eq_refl)).
  - apply (proj1 (proj2 (equalUrl_default_port sample_host) VNull VNull
                    eq_refl eq_refl)).
Defined.
(** ** Deep merge: what it leaves alone *)

Lemma mergeDeep_not_object target sources :
  isObject target = false -> mergeDeep target sources = Some target.
Proof.
  intros H. induction sources as [|s sources IH]; [done|].
  cbn [mergeDeep]. by rewrite mergeInto_not_object.
Qed.

Lemma get_mergeInto_lacks target source result key :
  lacks key source -> mergeInto target source = Some result ->
  get result key = get target key.
Proof.
  intros H. destruct target as [| | | | | |kind tps];
    try (rewrite mergeInto_not_object by done; by intros [= <-]).
  destruct source as [| | | | | |skind sps];
    try (rewrite mergeInto_source_not_object by done; by intros [= <-]).
  rewrite mergeInto_obj.
  destruct (merge_props kind sps tps) as [rps|] eqn:E; [|done].
  intros [= <-]. cbn [get]. by rewrite (merge_props_other kind key sps tps rps).
Qed.

(** X18.  [mergeDeep] only touches the keys that a source has: when the
    merge stays in the model (no prototype is changed) and the target
    shares no object with another place, a property of the target whose
    key is in none of the sources has the same value in the result. *)
Theorem mergeDeep_frame (target : value) (sources : list value)
    (result : value) (key : string) :
  Forall (lacks key) sources ->
  mergeDeep target sources = Some result ->
  get result key = get target key.
Proof.
  intros H. revert target. induction H as [|s sources Hs _ IH]; intros target.
  - by intros [= <-].
  - cbn [mergeDeep]. destruct (mergeInto target s) as [t|] eqn:E; [|done].
    cbn. intros Hrun. rewrite (IH _ Hrun).
    by apply (get_mergeInto_lacks target s).
Qed.

Lemma mergeDeep_frame_witness :
  get (obj [("id", VStr "x"); ("a", VNum (num 2)); ("b", obj [("id", VNull)])]) "id"
  = get (obj [("id", VStr "x"); ("a", VNum (num 1))]) "id".
Proof.
  apply (mergeDeep_frame (obj [("id", VStr "x"); ("a", VNum (num 1))])
           [obj [("a", VNum (num 2))]; VNull; obj [("b", obj [("id", VNull)])]]).
  - repeat constructor; unfold lacks, Obj.keys; cbn;
      rewrite ?not_elem_of_cons; repeat split; try done; apply not_elem_of_nil.
  - reflexivity.
Defined.

(** X19.  Only objects are merged.  A target that is not an object
    (an array, a string, [null], ...) is returned as it is, whatever the
    sources; and a source that is not an object is passed over: the
    result is the one for the sources that are objects. *)
Theorem mergeDeep_only_objects :
  (forall target sources,
      isObject target = false -> mergeDeep target sources = Some target)
  /\ (forall target sources,
        mergeDeep target sources = mergeDeep target (List.filter isObject sources)).
Proof.
  split; [apply mergeDeep_not_object|].
  intros target sources. revert target.
  induction sources as [|s sources IH]; intros target; [done|].
  cbn [mergeDeep List.filter]. destruct (isObject s) eqn:E.
  - cbn [mergeDeep]. destruct (mergeInto target s); [|done]. apply IH.
  - rewrite mergeInto_source_not_object by done. apply IH.
Qed.

Lemma mergeDeep_only_objects_witness :
  mergeDeep (VArr [VNum (num 1)]) [obj [("a", VNull)]] = Some (VArr [VNum (num 1)]).
Proof. apply (proj1 mergeDeep_only_objects). reflexivity. Defined.

Lemma has_merge_key kind k key sv target target' :
  merge_key kind key sv target = Some target' ->
  Obj.has k target = true -> Obj.has k target' = true.
Proof.
  intros Hstep. unfold Obj.has. destruct (decide (key = k)) as [->|Hne].
  - destruct (Obj.lookup k target) as [old|] eqn:Hold; [|done]. intros _.
    unfold merge_key, assign_member, read_member in Hstep. rewrite Hold in Hstep.
    destruct (isObject sv).
    + destruct (truthy old).
      * by destruct (update_lookup_eq _ _ _ _ _ Hstep Hold) as (v' & _ & ->).
      * by destruct (update_lookup_eq _ _ (obj []) _ _ Hstep
                       (lookup_set_eq _ _ _)) as (v' & _ & ->).
    + injection Hstep as <-. by rewrite lookup_set_eq.
  - by rewrite (merge_key_lookup_ne kind key k sv target target').
Qed.

Lemma has_merge_props kind k entries : forall target result,
  merge_props kind entries target = Some result ->
  Obj.has k target = true -> Obj.has k result = true.
Proof.
  induction entries as [|[key sv] entries IH]; intros target result.
  - by intros [= <-].
  - rewrite merge_props_cons.
    destruct (merge_key kind key sv target) as [t|] eqn:E; [|done]. cbn.
    intros Hrun Hk. apply (IH t); [done|]. by apply (has_merge_key kind k key sv target).
Qed.

(** X24.  [mergeDeep] never removes a property and never changes what
    kind of object the target is: when the merge stays in the model (no
    prototype is changed), the result of merging into an object is an
    object of the same kind that has every key the target had. *)
Theorem mergeDeep_keeps_keys (kind : objkind) (tps : props)
    (sources : list value) (result : value) :
  mergeDeep (VObj kind tps) sources = Some result ->
  exists ps,
    result = VObj kind ps
    /\ forall k, Obj.has k tps = true -> Obj.has k ps = true.
Proof.
  revert tps. induction sources as [|s sources IH]; intros tps.
  - intros [= <-]. by exists tps.
  - cbn [mergeDeep]. destruct s as [| | | | | |skind sps];
      try (rewrite mergeInto_source_not_object by done; apply IH).
    rewrite mergeInto_obj.
    destruct (merge_props kind sps tps) as [t|] eqn:E; [|done]. cbn.
    intros Hrun. destruct (IH t Hrun) as (ps & -> & Hps).
    exists ps. split; [done|]. intros k Hk.
    by apply Hps, (has_merge_props kind k sps tps).
Qed.

Lemma mergeDeep_keeps_keys_witness :
  exists ps,
    VObj (DateObj (Some 0%Z)) [("a", VNull); ("b", VNull)]
    = VObj (DateObj (Some 0%Z)) ps
    /\ (Obj.has "a" [("a", VNum (num 1))] = true -> Obj.has "a" ps = true).
Proof.
  destruct (mergeDeep_keeps_keys (DateObj (Some 0%Z)) [("a", VNum (num 1))]
              [obj [("a", VNull); ("b", VNull)]; VStr "x"]
              (VObj (DateObj (Some 0%Z)) [("a", VNull); ("b", VNull)]) eq_refl)
    as (ps & Hrun & Hkeys).
  exists ps. split; [exact Hrun|]. apply Hkeys.
Defined.

(** ** Deep merge: merging twice *)

Section MergeTwice.

Implicit Types (k key : string) (v sv : value) (ps sps tps : props).

Lemma set_same k v ps : Obj.lookup k ps = Some v -> Obj.set k v ps = ps.
Proof.
  intros H. unfold Obj.set, Obj.has. rewrite H.
  induction ps as [|[k' v'] ps IH]; [done|]. cbn [Obj.lookup Obj.replace] in *.
  destruct (String.eqb k k') eqn:E.
  - apply String.eqb_eq in E as ->. by injection H as ->.
  - by rewrite IH.
Qed.

Lemma replace_same k v ps : Obj.lookup k ps = Some v -> Obj.replace k v ps = ps.
Proof.
  intros H. rewrite <- (set_same k v ps H) at 2.
  unfold Obj.set, Obj.has. by rewrite H.
Qed.

Lemma merge_props_settled kind entries target :
  Forall (settled kind target) entries ->
  merge_props kind entries target = Some target.
Proof.
  induction 1 as [|[key sv] entries Hkv _ IH]; [done|].
  rewrite merge_props_cons. unfold settled in Hkv. cbn [fst snd] in Hkv.
  by rewrite Hkv.
Qed.

Lemma truthy_mergeInto x sv r :
  truthy x = true -> mergeInto x sv = Some r -> truthy r = true.
Proof.
  intros Hx Hr. destruct x as [| | | | | |kind tps];
    try (rewrite mergeInto_not_object in Hr by done; by injection Hr as <-).
  pose proof (mergeInto_isObject _ _ _ Hr). by destruct r.
Qed.

Lemma lookup_elem_of key sv sps :
  NoDup sps.*1 -> (key, sv) ∈ sps -> Obj.lookup key sps = Some sv.
Proof.
  induction sps as [|[k v] sps IH]; [by intros _ ?%elem_of_nil|].
  rewrite fmap_cons. intros [Hk Hnd]%NoDup_cons [[= -> ->]|Hin]%elem_of_cons.
  - cbn [Obj.lookup]. by rewrite String.eqb_refl.
  - cbn [Obj.lookup]. destruct (String.eqb key k) eqn:E; [|by apply IH].
    apply String.eqb_eq in E as ->. destruct Hk.
    by apply (list_elem_of_fmap_2 fst _ (k, sv)).
Qed.

Lemma deep_wf_entries kind sps :
  deep_wf (VObj kind sps) -> NoDup sps.*1 /\ Forall (fun kv => deep_wf kv.2) sps.
Proof.
  cbn [deep_wf]. intros [Hnd Hall]. split; [done|].
  clear Hnd. induction sps as [|[k v] sps IH]; [constructor|].
  destruct Hall as [Hv Hall]. constructor; [done|by apply IH].
Qed.

(** Once an entry has been merged, merging it again changes nothing. *)
Lemma merge_key_settles kind key sv before after rps :
  (forall t r, mergeInto t sv = Some r -> mergeInto r sv = Some r) ->
  merge_key kind key sv before = Some after ->
  Obj.lookup key rps = Obj.lookup key after ->
  merge_key kind key sv rps = Some rps.
Proof.
  intros Hidem Hstep Hr. unfold merge_key, assign_member in *.
  rewrite (read_member_lookup kind key rps after Hr).
  unfold read_member in *. destruct (isObject sv).
  - destruct (Obj.lookup key before) as [tv|] eqn:Hown.
    + destruct (truthy tv) eqn:Htv.
      * destruct (update_lookup_eq _ _ _ _ _ Hstep Hown) as (v' & Hf & Hv').
        rewrite Hv'. rewrite Hv' in Hr.
        rewrite (truthy_mergeInto tv sv v' Htv Hf).
        rewrite (update_result _ _ v' rps Hr), (Hidem _ _ Hf). cbn.
        by rewrite replace_same.
      * destruct (update_lookup_eq _ _ (obj []) _ _ Hstep (lookup_set_eq _ _ _))
          as (v' & Hf & Hv').
        rewrite Hv'. rewrite Hv' in Hr.
        rewrite (truthy_mergeInto (obj []) sv v' eq_refl Hf).
        rewrite (update_result _ _ v' rps Hr), (Hidem _ _ Hf). cbn.
        by rewrite replace_same.
    + destruct (String.eqb key "__proto__"); [done|].
      destruct (URI.mem key URI.object_prototype_names).
      * injection Hstep as <-. by rewrite Hown.
      * destruct kind; [|done].
        destruct (update_lookup_eq _ _ (obj []) _ _ Hstep (lookup_set_eq _ _ _))
          as (v' & Hf & Hv').
        rewrite Hv'. rewrite Hv' in Hr.
        rewrite (truthy_mergeInto (obj []) sv v' eq_refl Hf).
        rewrite (update_result _ _ v' rps Hr), (Hidem _ _ Hf). cbn.
        by rewrite replace_same.
  - destruct (Obj.lookup key before) as [tv|] eqn:Hown.
    + injection Hstep as <-. rewrite lookup_set_eq in Hr |- *.
      by rewrite set_same.
    + destruct (String.eqb key "__proto__").
      * destruct (typeof_object sv); [done|]. injection Hstep as <-.
        by rewrite Hown.
      * assert (after = Obj.set key sv before) as ->.
        { destruct (URI.mem key URI.object_prototype_names); [congruence|].
          destruct kind; congruence. }
        rewrite lookup_set_eq in Hr |- *. by rewrite set_same.
Qed.

End MergeTwice.

(** X20.  Merging the same source twice is merging it once: for a
    source whose objects have distinct keys and a merge that stays in
    the model (no prototype is changed), [mergeDeep(target, source,
    source)] is [mergeDeep(target, source)], at every depth and whatever
    the target holds. *)
Theorem mergeDeep_twice (target source result : value) :
  deep_wf source ->
  mergeDeep target [source] = Some result ->
  mergeDeep target [source; source] = Some result.
Proof.
  intros Hsource Hrun. cbn [mergeDeep] in *.
  destruct (mergeInto target source) as [r|] eqn:Hfirst; [|done].
  injection Hrun as <-. cbn [mbind option_bind].
  enough (mergeInto r source = Some r) as -> by done.
  revert target r Hfirst. revert source Hsource. fix IH 1.
  intros source Hwf target r Hfirst.
  destruct source as [| | | | | |skind sps];
    try by rewrite mergeInto_source_not_object.
  destruct target as [| | | | | |kind tps];
    try (rewrite mergeInto_not_object in Hfirst by done; injection Hfirst as <-;
         by rewrite mergeInto_not_object).
  rewrite mergeInto_obj in Hfirst.
  destruct (merge_props kind sps tps) as [rps|] eqn:Hprops; [|done].
  injection Hfirst as <-. rewrite mergeInto_obj.
  apply deep_wf_entries in Hwf as [Hnd Hall].
  assert (Hidem : Forall (fun kv => forall t r, mergeInto t kv.2 = Some r ->
                                                mergeInto r kv.2 = Some r) sps).
  { clear Hnd Hprops. induction sps as [|[k v] sps IHsps]; [constructor|].
    apply Forall_cons in Hall as [Hv Hall].
    constructor; [exact (IH v Hv)|by apply IHsps]. }
  clear IH.
  rewrite merge_props_settled; [done|].
  rewrite Forall_forall. intros [key sv] Hin.
  rewrite Forall_forall in Hidem. specialize (Hidem _ Hin). cbn [snd] in Hidem.
  unfold settled. cbn [fst snd].
  destruct (merge_props_at kind key sv sps tps rps Hnd
              (lookup_elem_of key sv sps Hnd Hin) Hprops)
    as (before & after & _ & Hstep & Hr).
  by apply (merge_key_settles kind key sv before after).
Qed.

Lemma mergeDeep_twice_witness :
  mergeDeep (obj [("a", VNum (num 0)); ("b", obj [("x", VStr "old")])])
    [obj [("a", obj [("n", VNull)]); ("b", obj [("x", VStr "new"); ("y", VArr [])])];
     obj [("a", obj [("n", VNull)]); ("b", obj [("x", VStr "new"); ("y", VArr [])])]]
  = Some (obj [("a", obj [("n", VNull)]);
               ("b", obj [("x", VStr "new"); ("y", VArr [])])]).
Proof.
  apply mergeDeep_twice; [|reflexivity].
  cbn. repeat split; apply NoDup_ListNoDup; repeat constructor;
    cbn; intuition congruence.
Defined.

(** ** Token search: the edges *)

Lemma string_items_filter items :
  string_items (List.filter is_string items) = string_items items.
Proof.
  unfold string_items. induction items as [|x items IH]; [done|].
  cbn [List.filter]. destruct x; cbn [is_string omap list_omap]; try done.
  by f_equal.
Qed.

(** X21.  As the separator pattern splits nothing, the [and] flag of
    [search] has no effect on a term without [']']: the answer is the
    same for "every word" and for "some word", on every target.  The
    search is false for a term that is not a string or is empty, and for
    a target that is not a string, an array or an object; in an array
    only the strings count. *)
Theorem search_flag_has_no_effect :
  (forall term target,
      Str.forall_chars not_bracket term = true ->
      search (VStr term) target true = search (VStr term) target false)
  /\ (forall term target and,
        is_string term = false -> search term target and = false)
  /\ (forall target and, search (VStr "") target and = false)
  /\ (forall term target and,
        is_string target = false -> isArray target = false ->
        isObject target = false ->
        search term target and = false)
  /\ (forall term items and,
        search term (VArr items) and
        = search term (VArr (List.filter is_string items)) and).
Proof.
  split; [|split; [|split; [|split]]].
  - intros term target Hterm. unfold search.
    destruct (Str.is_empty term); [done|].
    rewrite split_none
      by (apply forall_chars_toLowerCase; [apply lower_not_bracket|done]).
    cbn [forallb existsb].
    by destruct target; rewrite ?andb_true_r, ?orb_false_r.
  - intros term target and H. by destruct term.
  - done.
  - intros term target and Hs Ha Ho. unfold search.
    destruct term as [| | | |s| |]; try done.
    destruct (Str.is_empty s); [done|]. by destruct target.
  - intros term items and. unfold search.
    destruct term as [| | | |s| |]; try done.
    by rewrite string_items_filter.
Qed.

Lemma search_flag_has_no_effect_witness :
  search (VStr "red blue") (VArr [VStr "red"; VNum (num 1); VStr "green"]) true
  = search (VStr "red blue") (VArr [VStr "red"; VNum (num 1); VStr "green"]) false
  /\ search (VNum (num 1)) (VStr "1") true = false
  /\ search (VStr "a") (VNum (num 1)) false = false.
Proof.
  split; [|split].
  - apply (proj1 search_flag_has_no_effect). reflexivity.
  - apply (proj1 (proj2 search_flag_has_no_effect)). reflexivity.
  - apply (proj1 (proj2 (proj2 (proj2 search_flag_has_no_effect)))); reflexivity.
Defined.

(** ** Query construction: plain parameters *)

Section PlainFilters.

Context (host : Host) (formatText : value -> outcome value).

Lemma read_back_scalar k v :
  k <> "__proto__" -> plain_value v = true ->
  query_safe (ToString host v) ->
  read_back host k v = Some (VStr (ToString host v)).
Proof.
  intros Hk Hv Hs. unfold read_back, entry_items.
  assert (String.eqb k "__proto__" = false) as -> by by apply String.eqb_neq.
  assert (Hitems : match v with
                   | VArr l => values_items host k l URI.object_prototype_names
                   | VUndefined => []
                   | _ => [URI.buildQueryParameter host k v]
                   end = [URI.buildQueryParameter host k v]).
  { by destruct v. }
  rewrite Hitems. cbn [List.filter].
  assert (nonempty (URI.buildQueryParameter host k v) = true) as ->.
  { unfold URI.buildQueryParameter. destruct v; try discriminate Hv;
      change ("=" ++ ?r) with (String "=" r); apply nonempty_app_cons. }
  cbn [List.map]. rewrite parse_item_parameter.
  unfold query_safe in Hs. rewrite Hs. by destruct v.
Qed.

Lemma removes_plain_value v : plain_value v = true -> removes_parameter v = false.
Proof.
  destruct v as [| |b|n|s| |]; try discriminate; cbn [plain_value].
  - done.
  - intros H. unfold removes_parameter. cbn. by rewrite H.
  - intros H. apply negb_true_iff in H. unfold removes_parameter. cbn. by rewrite H.
Qed.

Lemma add_filter_scalar url key v url' :
  add_filter host formatText url key v = Ret url' ->
  safe_names url -> query_safe key ->
  plain_value v = true -> query_safe (ToString host v) ->
  key <> "__proto__" -> key <> "filters" -> key <> "datetime" ->
  param key url' = Some (VStr (ToString host v)).
Proof.
  intros (d' & Hd & ->)%add_filter_inv Hsafe Hkey Hv Hs Hproto Hfilters Hdatetime.
  assert (Hft : forall params, key = "filters" -> removes_parameter v = false ->
                 formatText v = Ret params -> Forall query_safe (formatter_keys params))
    by (intros; congruence).
  pose proof (step_names_safe _ _ _ _ _ _ Hd Hsafe Hkey Hft) as Hnames.
  rewrite param_step by eauto using filter_data_wf, wf_parseQuery.
  assert (Hset : filter_data host formatText key v (query_data url)
                 = Ret (URI.data_set key v (query_data url))).
  { unfold filter_data. rewrite removes_plain_value by done.
    apply String.eqb_neq in Hdatetime, Hfilters. rewrite Hdatetime, Hfilters.
    destruct v; try discriminate Hv; cbn [isArray]; by rewrite !andb_false_r. }
  rewrite Hset in Hd. injection Hd as <-.
  rewrite lookup_data_set_eq by done. by apply read_back_scalar.
Qed.

End PlainFilters.



(** ** URL normalisation without parameters *)

Section NoMarks.

Implicit Types (s p q : string) (c : ascii) (f g : ascii -> bool) (u : URI.parts).

Lemma forall_chars_take f n s :
  Str.forall_chars f s = true -> Str.forall_chars f (Str.take n s) = true.
Proof. apply forall_chars_substring. Qed.

Lemma forall_chars_drop f n s :
  Str.forall_chars f s = true -> Str.forall_chars f (Str.drop n s) = true.
Proof. apply forall_chars_substring. Qed.

Lemma forall_chars_substringZ f a b s :
  Str.forall_chars f s = true -> Str.forall_chars f (Str.substring a b s) = true.
Proof. apply forall_chars_substring. Qed.

Lemma forall_chars_dropWhile f g s :
  Str.forall_chars f s = true -> Str.forall_chars f (Str.dropWhile g s) = true.
Proof.
  induction s as [|c s IH]; [done|]. cbn [Str.dropWhile].
  destruct (g c); [|done]. cbn [Str.forall_chars]. intros [_ H]%andb_prop. auto.
Qed.

Lemma forall_chars_map f (h : ascii -> ascii) s :
  (forall c, f c = true -> f (h c) = true) ->
  Str.forall_chars f s = true -> Str.forall_chars f (Str.map h s) = true.
Proof.
  intros Hh. induction s as [|c s IH]; [done|]. cbn [Str.map Str.forall_chars].
  intros [Hc Hs]%andb_prop. by rewrite Hh, IH.
Qed.

Lemma forall_chars_filter f g s :
  Str.forall_chars f s = true -> Str.forall_chars f (Str.filter g s) = true.
Proof.
  induction s as [|c s IH]; [done|]. cbn [Str.filter Str.forall_chars].
  intros [Hc Hs]%andb_prop. destruct (g c); [|auto].
  cbn [Str.forall_chars]. by rewrite Hc, IH.
Qed.

Lemma forall_chars_and f g s :
  Str.forall_chars f s = true -> Str.forall_chars g s = true ->
  Str.forall_chars (fun c => f c && g c) s = true.
Proof.
  induction s as [|c s IH]; [done|]. cbn [Str.forall_chars].
  intros [-> Hf]%andb_prop [-> Hg]%andb_prop. by rewrite IH.
Qed.

Lemma indexOf_none_chars c s :
  Str.indexOf c s = None ->
  Str.forall_chars (fun d => negb (Ascii.eqb d c)) s = true.
Proof.
  induction s as [|d s IH]; [done|]. cbn [Str.indexOf Str.forall_chars].
  rewrite (Ascii.eqb_sym d c). destruct (Ascii.eqb c d); [done|].
  destruct (Str.indexOf c s); [done|]. intros _. by rewrite IH.
Qed.

Lemma indexOf_take_chars c s pos :
  Str.indexOf c s = Some pos ->
  Str.forall_chars (fun d => negb (Ascii.eqb d c)) (Str.take pos s) = true.
Proof.
  revert pos. induction s as [|d s IH]; intros pos; [done|].
  cbn [Str.indexOf]. rewrite (Ascii.eqb_sym c d).
  destruct (Ascii.eqb d c) eqn:E; [by intros [= <-]|].
  destruct (Str.indexOf c s) as [i|]; [|done]. intros [= <-].
  change (Str.take (S i) (String d s)) with (String d (Str.take i s)).
  cbn [Str.forall_chars]. by rewrite E, IH.
Qed.

Lemma forall_chars_split f sep s :
  Str.forall_chars f s = true ->
  Forall (fun piece => Str.forall_chars f piece = true) (Str.split sep s).
Proof.
  induction s as [|c s IH]; [by repeat constructor|].
  cbn [Str.forall_chars Str.split]. intros [Hc Hs]%andb_prop.
  specialize (IH Hs). destruct (Ascii.eqb c sep); [by constructor|].
  destruct (Str.split sep s) as [|piece pieces].
  - repeat constructor. cbn [Str.forall_chars]. by rewrite Hc.
  - apply Forall_cons in IH as [Hp Hps]. constructor; [|done].
    cbn [Str.forall_chars]. by rewrite Hc, Hp.
Qed.

Lemma forall_chars_concat f sep (l : list string) :
  Str.forall_chars f sep = true ->
  Forall (fun piece => Str.forall_chars f piece = true) l ->
  Str.forall_chars f (Str.join sep l) = true.
Proof.
  intros Hsep Hall. induction Hall as [|x l Hx Hl IH]; [done|].
  destruct l as [|y l]; [done|].
  rewrite join_cons2, !forall_chars_app, Hx, Hsep. by rewrite IH.
Qed.

Lemma forall_chars_lookup f (l : list string) i :
  Forall (fun piece => Str.forall_chars f piece = true) l ->
  Str.forall_chars f (default "" (l !! i)) = true.
Proof.
  intros Hall. destruct (l !! i) as [x|] eqn:E; [|done].
  rewrite Forall_forall in Hall. apply Hall. by eapply list_elem_of_lookup_2.
Qed.

Lemma no_mark_lower c : no_mark c = true -> no_mark (Str.lower_ascii c) = true.
Proof. destruct c as [[] [] [] [] [] [] [] []]; vm_compute; congruence. Qed.

Lemma no_mark_slashes c :
  no_mark c = true -> no_mark (if Ascii.eqb c "\" then "/"%char else c) = true.
Proof. destruct c as [[] [] [] [] [] [] [] []]; vm_compute; congruence. Qed.

Lemma no_mark_encode c :
  Str.forall_chars no_mark
    (if Pct.unreserved c then String c "" else Pct.escape c) = true.
Proof. destruct c as [[] [] [] [] [] [] [] []]; by vm_compute. Qed.

Lemma no_mark_encodePathSegment c :
  Str.forall_chars no_mark
    (if Pct.unreserved c || Str.one_of "$&+,;=:@" c
     then String c "" else Pct.escape c) = true.
Proof. destruct c as [[] [] [] [] [] [] [] []]; by vm_compute. Qed.

Lemma no_mark_encodeUrnPathSegment c :
  Str.forall_chars no_mark
    (if Pct.unreserved c || Str.one_of "!$'()*+,;=@" c
     then String c "" else Pct.escape c) = true.
Proof. destruct c as [[] [] [] [] [] [] [] []]; by vm_compute. Qed.

Lemma recode_segments_chars (enc : string -> string) (l l' : list string) :
  (forall d, Str.forall_chars no_mark (enc d) = true) ->
  URI.recode_segments enc l = Ret l' ->
  Forall (fun piece => Str.forall_chars no_mark piece = true) l'.
Proof.
  intros Henc. revert l'. induction l as [|x l IH]; intros l'.
  - intros [= <-]. constructor.
  - cbn [URI.recode_segments]. destruct (Pct.decode x) as [d|]; [|done].
    cbn [mbind outcome_bind].
    destruct (URI.recode_segments enc l) as [r|]; [|done].
    cbn [mbind outcome_bind]. intros [= <-]. constructor; [apply Henc|by apply IH].
Qed.

Lemma recodePath_chars s p :
  URI.recodePath s = Ret p -> Str.forall_chars no_mark p = true.
Proof.
  unfold URI.recodePath.
  destruct (URI.recode_segments _ _) as [l|] eqn:E; [|done]. intros [= <-].
  apply forall_chars_concat; [done|].
  apply (recode_segments_chars _ _ _ (fun d => forall_chars_flat_map _ _ d
                                               no_mark_encodePathSegment) E).
Qed.

Lemma recodeUrnPath_chars s p :
  URI.recodeUrnPath s = Ret p -> Str.forall_chars no_mark p = true.
Proof.
  unfold URI.recodeUrnPath.
  destruct (URI.recode_segments _ _) as [l|] eqn:E; [|done]. intros [= <-].
  apply forall_chars_concat; [done|].
  apply (recode_segments_chars _ _ _ (fun d => forall_chars_flat_map _ _ d
                                               no_mark_encodeUrnPathSegment) E).
Qed.

Lemma resolve_simples_chars s skip :
  Str.forall_chars no_mark s = true ->
  Str.forall_chars no_mark (URI.resolve_simples s skip) = true.
Proof.
  revert skip. induction s as [|c s IH]; intros skip; [done|].
  cbn [Str.forall_chars]. intros [Hc Hs]%andb_prop.
  cbn [URI.resolve_simples]. destruct skip as [|k]; [|by apply IH].
  destruct (String.prefix "/./" (String c s)).
  { cbn [Str.forall_chars]. by rewrite IH. }
  destruct (String.eqb (String c s) "/."); [done|].
  cbn [Str.forall_chars]. by rewrite Hc, IH.
Qed.

Lemma collapse_slashes_chars s :
  Str.forall_chars no_mark s = true ->
  Str.forall_chars no_mark (URI.collapse_slashes s) = true.
Proof.
  induction s as [|c s IH]; [done|].
  cbn [Str.forall_chars]. intros [Hc Hs]%andb_prop.
  cbn [URI.collapse_slashes]. destruct (_ && _); [by apply IH|].
  cbn [Str.forall_chars]. by rewrite Hc, IH.
Qed.

Lemma resolve_parents_chars fuel s :
  Str.forall_chars no_mark s = true ->
  Str.forall_chars no_mark (URI.resolve_parents fuel s) = true.
Proof.
  revert s. induction fuel as [|fuel IH]; intros s Hs; [done|].
  cbn [URI.resolve_parents]. destruct (URI.search_parent s) as [[|parent]|]; [| |done].
  - by apply IH, forall_chars_drop.
  - apply IH. rewrite forall_chars_app.
    by rewrite forall_chars_take, forall_chars_drop.
Qed.

(** The path that [normalizePath] leaves has no mark, whatever came in;
    nothing else is changed. *)
Lemma normalizePath_chars u u' :
  URI.normalizePath u = Ret u' ->
  Str.forall_chars no_mark (URI.path u') = true
  /\ URI.protocol u' = URI.protocol u /\ URI.hostname u' = URI.hostname u
  /\ URI.port u' = URI.port u
  /\ URI.username u' = URI.username u /\ URI.password u' = URI.password u.
Proof.
  unfold URI.normalizePath.
  destruct (Str.is_empty (URI.path u)) eqn:Hempty.
  { intros [= <-]. by destruct (URI.path u). }
  destruct (URI.urn u).
  { destruct (URI.recodeUrnPath (URI.path u)) as [p|] eqn:E; [|done].
    intros [= <-]. cbn. by rewrite (recodeUrnPath_chars _ _ E). }
  destruct (String.eqb (URI.path u) "/") eqn:Hroot.
  { intros [= <-]. apply String.eqb_eq in Hroot. by rewrite Hroot. }
  destruct (URI.recodePath (URI.path u)) as [p|] eqn:E; [|done].
  cbn [mbind outcome_bind]. intros [= <-]. cbn [URI.set_path URI.path
    URI.protocol URI.hostname URI.port URI.username URI.password].
  split; [|done].
  apply recodePath_chars in E.
  set (p1 := if negb (Str.startsWith p "/") then "/" ++ p else p).
  assert (H1 : Str.forall_chars no_mark p1 = true).
  { unfold p1. destruct (negb _); [|done]. by rewrite forall_chars_app, E. }
  set (p2 := if Str.endsWith p1 "/.." || Str.endsWith p1 "/." then p1 ++ "/" else p1).
  assert (H2 : Str.forall_chars no_mark p2 = true).
  { unfold p2. destruct (_ || _); [|done]. by rewrite forall_chars_app, H1. }
  set (p3 := URI.collapse_slashes (URI.resolve_simples p2 0)).
  assert (H3 : Str.forall_chars no_mark p3 = true).
  { by apply collapse_slashes_chars, resolve_simples_chars. }
  assert (H4 : Str.forall_chars no_mark (URI.resolve_parents (String.length p3) p3) = true).
  { by apply resolve_parents_chars. }
  destruct (negb (Str.startsWith p "/") && URI.is_relative u); [|done].
  rewrite forall_chars_app, forall_chars_drop by done.
  destruct (negb (Str.startsWith p "/")); [|done].
  by rewrite forall_chars_take by by apply forall_chars_drop.
Qed.

Lemma or_null_chars f x :
  Str.forall_chars f x = true ->
  Str.forall_chars f (URI.text (URI.or_null x)) = true.
Proof. unfold URI.or_null. by destruct (Str.is_empty x). Qed.

Lemma slashes_chars s :
  Str.forall_chars no_mark s = true -> Str.forall_chars no_mark (Str.slashes s) = true.
Proof. apply forall_chars_map, no_mark_slashes. Qed.

Lemma third_of_binds {A B C} (m1 : outcome A) (m2 : outcome B) (x : C)
    (a0 : A) (b0 : B) (c0 : C) :
  (a ← m1; b ← m2; Ret (a, b, x)) = Ret (a0, b0, c0) -> c0 = x.
Proof. destruct m1, m2; cbn; congruence. Qed.

Lemma parseUserinfo_chars s un pw rest :
  URI.parseUserinfo s = Ret (un, pw, rest) ->
  Str.forall_chars no_mark s = true -> Str.forall_chars no_mark rest = true.
Proof.
  unfold URI.parseUserinfo. intros H Hs.
  destruct (Str.lastIndexOf "@" _) as [pos|].
  - apply third_of_binds in H as ->. by apply forall_chars_drop.
  - by injection H as _ _ <-.
Qed.

Lemma parseHost_chars s hn po rest :
  URI.parseHost s = Ret (hn, po, rest) ->
  Str.forall_chars no_mark s = true ->
  Str.forall_chars no_mark (URI.text hn) = true
  /\ Str.forall_chars no_mark (URI.text po) = true
  /\ Str.forall_chars no_mark rest = true.
Proof.
  unfold URI.parseHost. intros H Hs.
  pose proof (slashes_chars s Hs) as Hsl.
  match type of H with
  | (let '(hostname, port) := ?E in _) = _ => destruct E as [h p] eqn:HE
  end.
  assert (Hhp : Str.forall_chars no_mark (URI.text h) = true
                /\ Str.forall_chars no_mark (URI.text p) = true).
  { destruct (Str.startsWith (Str.slashes s) "[").
    - injection HE as <- <-. split; [by apply or_null_chars, forall_chars_substringZ|].
      destruct (bool_decide _); [done|].
      by apply or_null_chars, forall_chars_substringZ.
    - destruct (_ && _).
      + injection HE as <- <-. split; [|done].
        by apply or_null_chars, forall_chars_substringZ.
      + injection HE as <- <-.
        split; apply or_null_chars, forall_chars_lookup, forall_chars_split;
          by apply forall_chars_substringZ. }
  clear HE.
  match type of H with
  | (if ?b then _ else _) = _ => destruct b; [done|]
  end.
  injection H as <- <- <-.
  destruct Hhp as [Hh Hp]. split; [done|]. split; [done|].
  destruct (Str.is_empty _); [done|]. by apply forall_chars_drop.
Qed.

Lemma parseAuthority_chars s u0 u :
  URI.parseAuthority s u0 = Ret u ->
  Str.forall_chars no_mark s = true ->
  Str.forall_chars no_mark (URI.text (URI.protocol u0)) = true ->
  plain_origin u.
Proof.
  unfold URI.parseAuthority. intros H Hs Hp.
  destruct (URI.parseUserinfo s) as [[[un pw] s1]|] eqn:E1; [|done].
  cbn [mbind outcome_bind] in H.
  destruct (URI.parseHost s1) as [[[hn po] s2]|] eqn:E2; [|done].
  cbn [mbind outcome_bind] in H. injection H as <-.
  apply parseUserinfo_chars in E1; [|done].
  apply parseHost_chars in E2 as (Hh & Hpo & _); [|done].
  by repeat split.
Qed.

Lemma web_protocol_chars s p :
  URI.web_protocol s = Some p ->
  Str.forall_chars no_mark s = true -> Str.forall_chars no_mark p = true.
Proof.
  unfold URI.web_protocol. intros H Hs.
  destruct (List.find _ _) as [x|].
  - injection H as <-. by apply forall_chars_take.
  - destruct (Str.startsWith s ":"); [|done]. by injection H as <-.
Qed.

Lemma fix_web_protocol_chars s :
  Str.forall_chars no_mark s = true ->
  Str.forall_chars no_mark (URI.fix_web_protocol s) = true.
Proof.
  intros Hs. unfold URI.fix_web_protocol.
  destruct (URI.web_protocol s) as [p|] eqn:E; [|done].
  rewrite !forall_chars_app, (web_protocol_chars _ _ E Hs).
  by rewrite forall_chars_dropWhile
    by by apply forall_chars_dropWhile, forall_chars_drop.
Qed.

Lemma fix_leading_slashes_chars s :
  Str.forall_chars no_mark s = true ->
  Str.forall_chars no_mark (URI.fix_leading_slashes s) = true.
Proof.
  intros Hs. unfold URI.fix_leading_slashes.
  destruct s as [|a [|b s]]; try done.
  destruct (_ && _); [|done].
  by rewrite forall_chars_app, forall_chars_dropWhile.
Qed.

Lemma cut_at_chars c s :
  Str.forall_chars (fun d => negb (Ascii.eqb d c))
    (match Str.indexOf c s with
     | Some pos => (Str.take pos s, URI.or_null (Str.drop (S pos) s))
     | None => (s, None)
     end).1 = true.
Proof.
  destruct (Str.indexOf c s) as [pos|] eqn:E; cbn [fst].
  - by apply indexOf_take_chars.
  - by apply indexOf_none_chars.
Qed.

Lemma cut_at_prefix f c s :
  Str.forall_chars f s = true ->
  Str.forall_chars f
    (match Str.indexOf c s with
     | Some pos => (Str.take pos s, URI.or_null (Str.drop (S pos) s))
     | None => (s, None)
     end).1 = true.
Proof.
  intros Hs. destruct (Str.indexOf c s) as [pos|]; cbn [fst]; [|done].
  by apply forall_chars_take.
Qed.

(** What the parser puts into the scheme, the host and the port comes
    from the text in front of the first [?] and the first [#]. *)
Lemma parse_origin s u : URI.parse s = Ret u -> plain_origin u.
Proof.
  unfold URI.parse.
  set (string0 := Str.filter _ _).
  pose proof (cut_at_chars "#" string0) as Hhash.
  destruct (match Str.indexOf "#" string0 with
            | Some pos => _ | None => _ end) as [string1 fragment].
  cbn [fst] in Hhash.
  pose proof (cut_at_chars "?" string1) as Hquery.
  pose proof (cut_at_prefix _ "?" string1 Hhash) as Hhash'.
  destruct (match Str.indexOf "?" string1 with
            | Some pos => _ | None => _ end) as [string2 query].
  cbn [fst] in Hquery, Hhash'.
  assert (Hclean : Str.forall_chars no_mark string2 = true).
  { by apply (forall_chars_and (fun d => negb (Ascii.eqb d "?"))
                               (fun d => negb (Ascii.eqb d "#"))). }
  clear Hhash Hquery Hhash'.
  apply fix_web_protocol_chars, fix_leading_slashes_chars in Hclean.
  set (str := URI.fix_leading_slashes _) in *.
  destruct (Str.startsWith str "//").
  { intros H. eapply parseAuthority_chars; [exact H| |done].
    by apply forall_chars_drop. }
  destruct (Str.indexOf ":" str) as [pos|]; [|by intros [= <-]].
  destruct (_ && _); [by intros [= <-]|].
  destruct (String.eqb _ "//").
  - intros H. eapply parseAuthority_chars; [exact H| |].
    + by apply forall_chars_drop.
    + by apply or_null_chars, forall_chars_take.
  - intros [= <-]. repeat split; try done.
    by apply or_null_chars, forall_chars_take.
Qed.

Lemma path_set_origin v u u' :
  URI.path_set v u = Ret u' -> plain_origin u -> plain_origin u'.
Proof.
  unfold URI.path_set. intros H Hu.
  destruct (URI.urn u), (Str.is_empty v);
    try (by injection H as <-);
    [destruct (URI.recodeUrnPath v)|destruct (URI.recodePath v)];
    try done; by injection H as <-.
Qed.

Lemma normalizePath_origin u u' :
  URI.normalizePath u = Ret u' -> plain_origin u -> plain_origin u'.
Proof.
  intros (_ & Hp & Hh & Hpo & _)%normalizePath_chars (H1 & H2 & H3).
  unfold plain_origin. by rewrite Hp, Hh, Hpo.
Qed.

Lemma absoluteTo_origin base u r :
  URI.absoluteTo base u = Ret r ->
  plain_origin base -> plain_origin u -> plain_origin r.
Proof.
  unfold URI.absoluteTo. intros H (Bp & Bh & Bpo) (Up & Uh & Upo).
  destruct (URI.urn u); [done|].
  destruct (URI.present (URI.protocol u)); [by injection H as <-|].
  destruct (URI.present (URI.hostname u)); [by injection H as <-|].
  cbn [URI.path URI.set_protocol URI.query URI.fragment URI.urn] in H.
  destruct (Str.is_empty (URI.path u)).
  { injection H as <-. by destruct (URI.present _). }
  match type of H with
  | (if ?b then _ else _) = _ => destruct b
  end.
  - apply normalizePath_origin in H; [done|].
    by destruct (String.eqb (URI.path u) "..").
  - injection H as <-. by destruct (String.eqb (URI.path u) "..").
Qed.

Lemma text_lower (p : option string) :
  URI.text (Str.toLowerCase <$> p) = Str.toLowerCase (URI.text p).
Proof. by destruct p. Qed.

Lemma normalizeProtocol_origin u :
  plain_origin u -> plain_origin (URI.normalizeProtocol u).
Proof.
  intros (Hp & Hh & Hpo). unfold plain_origin, URI.normalizeProtocol.
  destruct u as [pr un pw hn ur po pa qu fr].
  cbn [URI.set_protocol URI.protocol URI.hostname URI.port] in *.
  repeat split; [|done|done]. rewrite text_lower.
  by apply forall_chars_toLowerCase; [apply no_mark_lower|].
Qed.

Lemma normalizeHostname_origin u :
  plain_origin u -> plain_origin (URI.normalizeHostname u).
Proof.
  intros (Hp & Hh & Hpo). unfold URI.normalizeHostname.
  destruct (URI.present (URI.hostname u)); [|done]. unfold plain_origin.
  destruct u as [pr un pw hn ur po pa qu fr].
  cbn [URI.set_hostname URI.protocol URI.hostname URI.port] in *.
  repeat split; [done| |done]. rewrite text_lower.
  by apply forall_chars_toLowerCase; [apply no_mark_lower|].
Qed.

Lemma set_port_origin u : plain_origin u -> plain_origin (URI.set_port None u).
Proof. intros (Hp & Hh & Hpo). by destruct u. Qed.

Lemma normalizePort_origin u :
  plain_origin u -> plain_origin (URI.normalizePort u).
Proof.
  intros Hu. unfold URI.normalizePort.
  destruct (URI.protocol u); [|done]. destruct (URI.port u) as [po|]; [|done].
  destruct (List.find _ _); [|done].
  destruct (String.eqb _ po); [|done]. by apply set_port_origin.
Qed.

Lemma normalize_end (host : Host) u :
  plain_origin u ->
  plain_origin (URI.normalizeFragment (URI.normalizeQuery host u))
  /\ URI.path (URI.normalizeFragment (URI.normalizeQuery host u)) = URI.path u.
Proof.
  intros (Hp & Hh & Hpo). unfold URI.normalizeFragment, URI.normalizeQuery.
  destruct u as [pr un pw hn ur po pa qu fr].
  cbn [URI.query URI.fragment URI.set_query URI.set_fragment] in *.
  destruct qu as [q|]; [destruct (Str.is_empty q)|];
    cbn [URI.query URI.fragment URI.set_query URI.set_fragment];
    destruct (URI.present fr); by split.
Qed.

Lemma normalize_origin (host : Host) u n :
  URI.normalize host u = Ret n ->
  plain_origin u ->
  plain_origin n /\ Str.forall_chars no_mark (URI.path n) = true.
Proof.
  unfold URI.normalize. intros H Hu.
  pose proof (normalizeProtocol_origin u Hu) as Hproto.
  pose proof (normalizePort_origin _ (normalizeHostname_origin _ Hproto)) as Hfull.
  destruct (URI.urn u).
  - destruct (URI.normalizePath _) as [u1|] eqn:E; [|done].
    cbn [mbind outcome_bind] in H. injection H as <-.
    pose proof (normalizePath_origin _ _ E Hproto) as H1.
    apply normalizePath_chars in E as (Hpath & _).
    destruct (normalize_end host u1 H1) as [? ->]. by split.
  - destruct (URI.normalizePath _) as [u1|] eqn:E; [|done].
    cbn [mbind outcome_bind] in H. injection H as <-.
    pose proof (normalizePath_origin _ _ E Hfull) as H1.
    apply normalizePath_chars in E as (Hpath & _).
    destruct (normalize_end host u1 H1) as [? ->]. by split.
Qed.

Lemma build_chars u :
  plain_origin u ->
  Str.forall_chars no_mark (URI.path u) = true ->
  URI.present (URI.query u) = false ->
  URI.present (URI.fragment u) = false ->
  Str.forall_chars no_mark (URI.build u) = true.
Proof.
  intros (Hp & Hh & Hpo) Hpath Hq Hf. unfold URI.build. rewrite Hq, Hf.
  assert (Henc : forall x, Str.forall_chars no_mark (Pct.encode x) = true).
  { intros x. apply forall_chars_flat_map, no_mark_encode. }
  assert (Huser : Str.forall_chars no_mark (URI.buildUserinfo u) = true).
  { unfold URI.buildUserinfo.
    destruct (URI.present (URI.username u)), (URI.present (URI.password u));
      repeat match goal with
        | |- context [if ?b then _ else _] => destruct b
        end;
      by rewrite ?forall_chars_app, ?Henc. }
  assert (Hhost : Str.forall_chars no_mark (URI.buildHost u) = true).
  { unfold URI.buildHost.
    repeat match goal with
      | |- context [if ?b then _ else _] => destruct b
      end;
      by rewrite ?forall_chars_app, ?Hh, ?Hpo. }
  repeat match goal with
    | |- context [if ?b then _ else _] => destruct b
    end;
    unfold URI.buildAuthority;
    by rewrite ?forall_chars_app, ?Hp, ?Huser, ?Hhost, ?Hpath.
Qed.

Lemma resolved_origin (b : bool) (baseUrl : value) uri u :
  plain_origin uri ->
  (if b then baseUri ← base_uri baseUrl; URI.absoluteTo baseUri uri
   else Ret uri) = Ret u ->
  plain_origin u.
Proof.
  intros Huri. destruct b; [|by intros [= <-]].
  unfold base_uri. destruct baseUrl as [| | | |base| |]; try done. cbn [URI_new].
  destruct (URI.parse base) as [baseUri|] eqn:Hbase; [|done].
  cbn [mbind outcome_bind]. apply parse_origin in Hbase.
  destruct (_ && _).
  - destruct (URI.path_set _ baseUri) as [baseUri'|] eqn:Hset; [|done].
    cbn [mbind outcome_bind]. intros H.
    eapply absoluteTo_origin; [exact H| |done]. by eapply path_set_origin.
  - cbn [mbind outcome_bind]. intros H. by eapply absoluteTo_origin.
Qed.

End NoMarks.

(** X23.  With [noParams], what [normalizeUri] returns has no query
    string and no fragment: the string has no [?] and no [#] in it at
    all, whatever the [href] and the base were, and the URI returned
    instead of the string has an empty query and an empty fragment and
    prints as such a string. *)
Theorem normalizeUri_noParams (host : Host) (href baseUrl : value) :
  (forall s, normalizeUri host href baseUrl true true = Ret (AsString s) ->
             Str.forall_chars no_mark s = true)
  /\ (forall u, normalizeUri host href baseUrl true false = Ret (AsURI u) ->
                URI.query u = Some "" /\ URI.fragment u = Some ""
                /\ Str.forall_chars no_mark (URI.toString u) = true).
Proof.
  assert (Hfinish : forall stringify u r,
             plain_origin u ->
             finish_uri host true stringify u = Ret r ->
             exists n, r = (if stringify then AsString (URI.toString n) else AsURI n)
                       /\ URI.query n = Some "" /\ URI.fragment n = Some ""
                       /\ Str.forall_chars no_mark (URI.toString n) = true).
  { intros stringify u r Hu. unfold finish_uri.
    destruct (URI.normalize host u) as [n|] eqn:E; [|done].
    cbn [mbind outcome_bind]. intros [= <-].
    apply normalize_origin in E as [Hn Hpath]; [|done].
    exists (URI.set_fragment (Some "") (URI.set_query (Some "") n)).
    split; [done|]. split; [done|]. split; [done|].
    apply build_chars; by destruct n. }
  assert (Hrun : forall stringify r,
             normalizeUri host href baseUrl true stringify = Ret r ->
             exists n, r = (if stringify then AsString (URI.toString n) else AsURI n)
                       /\ URI.query n = Some "" /\ URI.fragment n = Some ""
                       /\ Str.forall_chars no_mark (URI.toString n) = true).
  { intros stringify r. unfold normalizeUri, normalize_href.
    destruct (strip_vsicurl href) as [| | | |h| |] eqn:Hh; try done.
    cbn [URI_new]. destruct (URI.parse h) as [uri|] eqn:Hparse; [|done].
    cbn [mbind outcome_bind]. apply parse_origin in Hparse.
    destruct (if truthy baseUrl && URI.is_relative uri && negb (isGdalVfsUri (VStr h))
              then baseUri ← base_uri baseUrl; URI.absoluteTo baseUri uri
              else Ret uri) as [u|] eqn:E; [|done].
    apply resolved_origin in E; [|done]. by apply Hfinish. }
  split.
  - intros s (n & [= ->] & _ & _ & H)%Hrun. done.
  - intros u (n & [= ->] & H)%Hrun. done.
Qed.

Lemma normalizeUri_noParams_witness :
  Str.forall_chars no_mark "https://ex.com/c/a/b.json" = true.
Proof.
  apply (proj1 (normalizeUri_noParams sample_host
                  (VStr "a/./b.json?x=1#top") (VStr "https://ex.com/c/?y=2#z"))).
  reflexivity.
Defined.

(** ** Images: what the test looks at *)

Section ImageFacts.

Implicit Types (s h q r : string) (c : ascii) (u : URI.parts).

Lemma url_text_head c s :
  url_text c = true -> URI.strip_leading_whitespace (String c s) 0 = String c s.
Proof.
  intros H. cbn [URI.strip_leading_whitespace].
  destruct c as [[] [] [] [] [] [] [] []]; try discriminate H; reflexivity.
Qed.

Lemma mark_head c s :
  URI.strip_leading_whitespace (String "?" s) 0 = String "?" s.
Proof. reflexivity. Qed.

Lemma url_text_not_tab c :
  url_text c = true -> negb (URI.ascii_tab_whitespace c) = true.
Proof. destruct c as [[] [] [] [] [] [] [] []]; vm_compute; congruence. Qed.

Lemma url_text_no_mark c : url_text c = true -> no_mark c = true.
Proof. by intros [_ H]%andb_prop. Qed.

Lemma filter_app g p q : Str.filter g (p ++ q) = Str.filter g p ++ Str.filter g q.
Proof.
  induction p as [|c p IH]; [done|]. rewrite app_cons. cbn [Str.filter].
  destruct (g c); by rewrite ?app_cons, IH.
Qed.

Lemma filter_all g s : Str.forall_chars g s = true -> Str.filter g s = s.
Proof.
  induction s as [|c s IH]; [done|]. cbn [Str.forall_chars Str.filter].
  intros [-> Hs]%andb_prop. by rewrite IH.
Qed.

Lemma indexOf_app_skip c h r :
  Str.forall_chars (fun d => negb (Ascii.eqb d c)) h = true ->
  Str.indexOf c (h ++ r) = (fun i => String.length h + i) <$> Str.indexOf c r.
Proof.
  induction h as [|d h IH]; cbn [Str.forall_chars].
  - intros _. change ("" ++ r) with r. by destruct (Str.indexOf c r).
  - intros [Hd Hh]%andb_prop. rewrite app_cons. cbn [Str.indexOf].
    rewrite (Ascii.eqb_sym c d). apply negb_true_iff in Hd. rewrite Hd.
    rewrite IH by done. by destruct (Str.indexOf c r).
Qed.

Lemma take_app_more p q n :
  Str.take (String.length p + n) (p ++ q) = p ++ Str.take n q.
Proof.
  induction p as [|c p IH]; [done|]. rewrite !app_cons.
  change (Str.take (String.length (String c p) + n) (String c (p ++ q)))
    with (String c (Str.take (String.length p + n) (p ++ q))).
  by rewrite IH.
Qed.

Lemma indexOf_absent c h :
  Str.forall_chars (fun d => negb (Ascii.eqb d c)) h = true ->
  Str.indexOf c h = None.
Proof.
  intros H. rewrite <- (app_empty_r h). by rewrite indexOf_app_skip.
Qed.

Lemma url_text_no_hash h :
  Str.forall_chars url_text h = true ->
  Str.forall_chars (fun d => negb (Ascii.eqb d "#")) h = true.
Proof.
  apply forall_chars_impl. intros c [_ [_ H]%andb_prop]%andb_prop. done.
Qed.

Lemma url_text_no_question h :
  Str.forall_chars url_text h = true ->
  Str.forall_chars (fun d => negb (Ascii.eqb d "?")) h = true.
Proof.
  apply forall_chars_impl. intros c [_ [H _]%andb_prop]%andb_prop. done.
Qed.

Lemma strip_url_text h r :
  Str.forall_chars url_text h = true ->
  URI.strip_leading_whitespace (h ++ String "?" r) 0 = h ++ String "?" r
  /\ URI.strip_leading_whitespace h 0 = h.
Proof.
  destruct h as [|c h]; [done|]. cbn [Str.forall_chars].
  intros [Hc _]%andb_prop. rewrite app_cons. split; by apply url_text_head.
Qed.

Lemma parseAuthority_query s pr qq f :
  URI.parseAuthority s (URI.Parts pr None None None false None "" qq f)
  = (fun u => URI.set_fragment f (URI.set_query qq u))
      <$> URI.parseAuthority s (URI.Parts pr None None None false None "" None None).
Proof.
  unfold URI.parseAuthority.
  destruct (URI.parseUserinfo s) as [[[un pw] s1]|]; [|done].
  cbn [mbind outcome_bind].
  by destruct (URI.parseHost s1) as [[[hn po] s2]|].
Qed.

(** A query string and a fragment behind a URL do not change how the
    text in front of them is parsed. *)
Lemma parse_query h q :
  Str.forall_chars url_text h = true ->
  exists qq f,
    URI.parse (h ++ String "?" q)
    = (fun u => URI.set_fragment f (URI.set_query qq u)) <$> URI.parse h.
Proof.
  intros Hh.
  pose proof (url_text_no_hash h Hh) as Hhash.
  pose proof (url_text_no_question h Hh) as Hquestion.
  assert (Hfilter : Str.filter (fun c => negb (URI.ascii_tab_whitespace c)) h = h).
  { apply filter_all. revert Hh. apply forall_chars_impl, url_text_not_tab. }
  unfold URI.parse.
  destruct (strip_url_text h q Hh) as [-> ->].
  rewrite filter_app, Hfilter. cbn [Str.filter]. cbn [URI.ascii_tab_whitespace negb].
  change (negb (URI.ascii_tab_whitespace "?")) with true. cbv iota.
  set (qf := Str.filter _ q).
  rewrite (indexOf_absent "#" h Hhash), (indexOf_absent "?" h Hquestion).
  assert (Hcut : exists x f,
             (match Str.indexOf "#" (h ++ String "?" qf) with
              | Some pos => (Str.take pos (h ++ String "?" qf),
                             URI.or_null (Str.drop (S pos) (h ++ String "?" qf)))
              | None => (h ++ String "?" qf, None)
              end) = (h ++ String "?" x, f)).
  { rewrite indexOf_app_skip by done. cbn [Str.indexOf].
    change (Ascii.eqb "#" "?") with false. cbv iota.
    destruct (Str.indexOf "#" qf) as [i|]; cbn [fmap option_fmap option_map].
    - rewrite take_app_more. by eexists _, _.
    - by eexists _, _. }
  destruct Hcut as (x & f & ->).
  rewrite indexOf_app_skip by done. cbn [Str.indexOf].
  rewrite Ascii.eqb_refl. cbn [fmap option_fmap option_map].
  rewrite take_app_more. change (Str.take 0 (String "?" x)) with "".
  rewrite app_empty_r.
  eexists _, f.
  set (str := URI.fix_leading_slashes (URI.fix_web_protocol h)).
  destruct (Str.startsWith str "//"); [apply parseAuthority_query|].
  destruct (Str.indexOf ":" str) as [pos|]; [|done].
  destruct (_ && _); [done|].
  destruct (String.eqb _ "//"); [|done].
  apply parseAuthority_query.
Qed.

Lemma parse_fragment h r :
  Str.forall_chars url_text h = true ->
  exists f,
    URI.parse (h ++ String "#" r) = (fun u => URI.set_fragment f u) <$> URI.parse h.
Proof.
  intros Hh.
  pose proof (url_text_no_hash h Hh) as Hhash.
  pose proof (url_text_no_question h Hh) as Hquestion.
  assert (Hfilter : Str.filter (fun c => negb (URI.ascii_tab_whitespace c)) h = h).
  { apply filter_all. revert Hh. apply forall_chars_impl, url_text_not_tab. }
  assert (Hstrip : URI.strip_leading_whitespace (h ++ String "#" r) 0
                   = h ++ String "#" r
                   /\ URI.strip_leading_whitespace h 0 = h).
  { destruct h as [|c h]; [done|]. cbn [Str.forall_chars] in Hh.
    apply andb_prop in Hh as [Hc _]. rewrite app_cons.
    split; by apply url_text_head. }
  unfold URI.parse. destruct Hstrip as [-> ->].
  rewrite filter_app, Hfilter. cbn [Str.filter].
  change (negb (URI.ascii_tab_whitespace "#")) with true. cbv iota.
  set (rf := Str.filter _ r).
  rewrite (indexOf_absent "#" h Hhash), (indexOf_absent "?" h Hquestion).
  rewrite indexOf_app_skip by done. cbn [Str.indexOf].
  rewrite Ascii.eqb_refl. cbn [fmap option_fmap option_map].
  rewrite take_app_more. change (Str.take 0 (String "#" rf)) with "".
  rewrite app_empty_r, (indexOf_absent "?" h Hquestion).
  eexists.
  set (str := URI.fix_leading_slashes (URI.fix_web_protocol h)).
  assert (Hauth : forall s pr f,
             URI.parseAuthority s (URI.Parts pr None None None false None "" None f)
             = (fun u => URI.set_fragment f u)
                 <$> URI.parseAuthority s
                       (URI.Parts pr None None None false None "" None None)).
  { intros s pr f. unfold URI.parseAuthority.
    destruct (URI.parseUserinfo s) as [[[un pw] s1]|]; [|done].
    cbn [mbind outcome_bind].
    by destruct (URI.parseHost s1) as [[[hn po] s2]|]. }
  destruct (Str.startsWith str "//"); [apply Hauth|].
  destruct (Str.indexOf ":" str) as [pos|]; [|done].
  destruct (_ && _); [done|].
  destruct (String.eqb _ "//"); [|done].
  apply Hauth.
Qed.

End ImageFacts.

(** X25.  [canBrowserDisplayImage] does not look at the query string
    and the fragment of [href]: for a URL text of visible ASCII
    characters without [?] and [#], the answer (and the exception, if
    URI.js rejects the text) is the same with any query string or any
    fragment behind it, whatever else the image object holds. *)
Theorem canBrowserDisplayImage_ignores_query (h : string) (others : props) :
  Str.forall_chars url_text h = true ->
  (forall q,
      canBrowserDisplayImage (obj (("href", VStr (h ++ "?" ++ q)) :: others))
      = canBrowserDisplayImage (obj (("href", VStr h) :: others)))
  /\ (forall f,
        canBrowserDisplayImage (obj (("href", VStr (h ++ "#" ++ f)) :: others))
        = canBrowserDisplayImage (obj (("href", VStr h) :: others))).
Proof.
  intros Hh.
  assert (Hsame : forall s (g : URI.parts -> URI.parts),
             (forall u, URI.get_protocol (g u) = URI.get_protocol u
                        /\ URI.suffix (g u) = URI.suffix u) ->
             URI.parse s = g <$> URI.parse h ->
             canBrowserDisplayImage (obj (("href", VStr s) :: others))
             = canBrowserDisplayImage (obj (("href", VStr h) :: others))).
  { intros s g Hg Hparse. unfold canBrowserDisplayImage.
    cbn [get_member get Obj.lookup String.eqb Ascii.eqb Bool.eqb default
         from_option id mbind outcome_bind is_string negb URI_new].
    rewrite Hparse. destruct (URI.parse h) as [u|e]; [|done].
    cbn [fmap outcome_fmap mbind outcome_bind].
    by destruct (Hg u) as [-> ->]. }
  split.
  - intros q. destruct (parse_query h q Hh) as (qq & f & Hparse).
    eapply Hsame; [|exact Hparse]. intros u. by destruct u.
  - intros f. destruct (parse_fragment h f Hh) as (f' & Hparse).
    eapply Hsame; [|exact Hparse]. intros u. by destruct u.
Qed.

Lemma canBrowserDisplayImage_ignores_query_witness :
  canBrowserDisplayImage
    (obj [("href", VStr ("https://ex.com/t/thumb.PNG" ++ "?" ++ "sig=a#b&c=d"));
          ("type", VStr "application/octet-stream")])
  = canBrowserDisplayImage
      (obj [("href", VStr "https://ex.com/t/thumb.PNG");
            ("type", VStr "application/octet-stream")]).
Proof.
  apply (proj1 (canBrowserDisplayImage_ignores_query "https://ex.com/t/thumb.PNG"
                  [("type", VStr "application/octet-stream")] eq_refl)).
Defined.
